(** * HeunDiscreteScheduler (ppdiffusers/schedulers/scheduling_heun_discrete.py)

    A shallow embedding of the Heun discrete scheduler and the proofs of the
    properties its specification states, followed by further properties of
    the code: what the methods write and how they fail, the shape of the
    schedules, and that the denoising loop of a pipeline run with this
    scheduler computes Heun's method.

    Numbers.  The scheduler computes on float32/float64 tensors.  Here every
    scalar is a real number ([R]) and every arithmetic operation is exact:
    rounding, overflow, infinities and NaN are not represented, and the casts
    between float32 and float64 are the identity.  Python integers are [Z].

    Tensors.  The one-dimensional schedule tensors ([betas], [alphas_cumprod],
    [sigmas], [timesteps]) are lists of reals.  The sample tensors handed to
    [step], [scale_model_input] and [add_noise] belong to the tensor library
    (paddle), which is not part of the repository: they are values of an
    abstract type with elementwise arithmetic, class [TensorLib].

    Effects.  A method is a function from the scheduler object to an outcome
    and the object after the call, whether it returned or raised.

    Limits.  Two behaviours of numpy and paddle have no counterpart here.
    [_sigma_to_t] divides by [low - high]; where two training sigmas are
    equal, or there is only one, numpy gives NaN or an infinity, and a NaN
    timestep equals nothing.  Here the quotient is a real number, so what is
    proved of the timesteps under Karras sigmas is proved for training sigmas
    that are at least two, positive and strictly increasing
    ([well_ordered_training]), as the supported beta schedules make them.
    And [sigmas[1:-1]] is taken on a tensor of at least two elements except
    by [set_timesteps(0)] without Karras sigmas; what paddle gives for a
    one-element tensor is not decided by the repository, and no property
    below says what that call does. *)

From Stdlib Require Import String.
From Stdlib Require Import Reals Lra Lia ZArith List Bool Sorted.
From Equations Require Import Equations.
Import ListNotations.

Open Scope R_scope.

(* ------------------------------------------------------------------ *)
(** ** Exceptions and outcomes *)

Inductive exn : Type :=
| NotImplementedError
| ValueError
| IndexError
| TypeError.

(** Python's class hierarchy: [IndexError] is the subclass of [LookupError]
    among the exceptions raised here. *)
Definition is_LookupError (e : exn) : bool :=
  match e with
  | IndexError => true
  | _ => false
  end.

Inductive result (A : Type) : Type :=
| Ok (a : A)
| Raise (e : exn).
Arguments Ok {A} a.
Arguments Raise {A} e.

Definition rbind {A B : Type} (r : result A) (k : A -> result B) : result B :=
  match r with
  | Ok a => k a
  | Raise e => Raise e
  end.

Notation "'let?' x ':=' r 'in' k" := (rbind r (fun x => k))
  (at level 10, x pattern, r at level 100, k at level 200).

Fixpoint rmap {A B : Type} (f : A -> result B) (l : list A) : result (list B) :=
  match l with
  | [] => Ok []
  | a :: l' => let? b := f a in let? bs := rmap f l' in Ok (b :: bs)
  end.

(* ------------------------------------------------------------------ *)
(** ** Python sequences *)

Module Py.

(** [l[i]] with Python's negative indices; out of range raises IndexError. *)
Definition getitem {A : Type} (l : list A) (i : Z) : result A :=
  let n := Z.of_nat (length l) in
  let j := if (i <? 0)%Z then (i + n)%Z else i in
  if ((0 <=? j) && (j <? n))%Z%bool then
    match nth_error l (Z.to_nat j) with
    | Some a => Ok a
    | None => Raise IndexError
    end
  else Raise IndexError.

(** [l[:1]] *)
Definition slice_to_1 {A : Type} (l : list A) : list A := firstn 1 l.

(** [l[1:]] *)
Definition slice_from_1 {A : Type} (l : list A) : list A := tl l.

(** [l[1:-1]], as for a Python list or a numpy array: empty when [l] has one
    element. *)
Definition slice_1_to_last {A : Type} (l : list A) : list A := removelast (tl l).

(** [l[-1:]] *)
Definition slice_from_last {A : Type} (l : list A) : list A :=
  skipn (length l - 1) l.

(** [l[::-1]] *)
Definition reversed {A : Type} (l : list A) : list A := rev l.

(** [a or b] on an optional integer: [None] and [0] are falsy. *)
Definition or_int (a : option Z) (b : Z) : Z :=
  match a with
  | Some n => if (n =? 0)%Z then b else n
  | None => b
  end.

End Py.

(* ------------------------------------------------------------------ *)
(** ** The numpy and paddle functions the scheduler calls *)

Module Np.

(** [start + i * step] for [i = 0 .. num-1], [step = (stop-start)/(num-1)]. *)
Definition linspace_values (start stop : R) (num : nat) : list R :=
  match num with
  | 1%nat => [start]
  | _ => map (fun i => start + INR i * ((stop - start) / INR (num - 1))) (seq 0 num)
  end.

(** [np.linspace(start, stop, num)]: a negative [num] raises ValueError. *)
Definition linspace (start stop : R) (num : Z) : result (list R) :=
  if (num <? 0)%Z then Raise ValueError
  else Ok (linspace_values start stop (Z.to_nat num)).

(** [np.arange(0, n)] *)
Definition arange (n : nat) : list R := map INR (seq 0 n).

(** The interpolant between the knots that bracket [x]. *)
Fixpoint interp_search (x : R) (xp fp : list R) : R :=
  match xp, fp with
  | x0 :: ((x1 :: _) as xp'), f0 :: ((f1 :: _) as fp') =>
      if Rlt_dec x x1 then (f1 - f0) / (x1 - x0) * (x - x0) + f0
      else interp_search x xp' fp'
  | _, f0 :: _ => f0
  | _, [] => 0
  end.

(** One point of [np.interp]: clamped to [fp[0]] on the left of the knots and
    to [fp[-1]] on their right. *)
Definition interp1 (xp fp : list R) (x : R) : R :=
  if Rle_dec x (hd 0 xp) then hd 0 fp
  else if Rle_dec (last xp 0) x then last fp 0
  else interp_search x xp fp.

(** [np.interp(xs, xp, fp)]: no knots, or knots and values of different
    lengths, raise ValueError. *)
Definition interp (xs xp fp : list R) : result (list R) :=
  match xp with
  | [] => Raise ValueError
  | _ => if (length xp =? length fp)%nat then Ok (map (interp1 xp fp) xs)
         else Raise ValueError
  end.

(** [np.cumsum] of a 0/1 mask. *)
Fixpoint cumsum_from (acc : Z) (l : list bool) : list Z :=
  match l with
  | [] => []
  | b :: l' => let acc' := (acc + (if b then 1 else 0))%Z in acc' :: cumsum_from acc' l'
  end.
Definition cumsum (l : list bool) : list Z := cumsum_from 0 l.

(** [np.argmax]: the first position of the largest entry. *)
Fixpoint argmax_from (best : Z) (besti i : Z) (l : list Z) : Z :=
  match l with
  | [] => besti
  | x :: l' => if (best <? x)%Z then argmax_from x i (i + 1)%Z l'
               else argmax_from best besti (i + 1)%Z l'
  end.
Definition argmax (l : list Z) : result Z :=
  match l with
  | [] => Raise ValueError
  | x :: l' => Ok (argmax_from x 0 1 l')
  end.

(** [np.clip(w, lo, hi)] *)
Definition clip (w lo hi : R) : R := Rmin (Rmax w lo) hi.

(** [x ** y] on a non-negative base. *)
Definition power (x y : R) : R :=
  if Req_dec_T x 0 then 0 else Rpower x y.

End Np.

Module Paddle.

(** [paddle.linspace(start, stop, num)]: [num] must be positive. *)
Definition linspace (start stop : R) (num : Z) : result (list R) :=
  if (num <=? 0)%Z then Raise ValueError
  else Ok (Np.linspace_values start stop (Z.to_nat num)).

(** [paddle.cumprod(x, 0)] *)
Fixpoint cumprod_from (acc : R) (l : list R) : list R :=
  match l with
  | [] => []
  | a :: l' => (acc * a) :: cumprod_from (acc * a) l'
  end.
Definition cumprod (l : list R) : list R := cumprod_from 1 l.

(** [x.repeat_interleave(2)] *)
Definition repeat_interleave_2 {A : Type} (l : list A) : list A :=
  flat_map (fun x => [x; x]) l.

(** [(x == v).nonzero()]: the positions that hold [v], in increasing order. *)
Fixpoint nonzero_eq_from (i : Z) (l : list R) (v : R) : list Z :=
  match l with
  | [] => []
  | x :: l' => if Req_dec_T x v then i :: nonzero_eq_from (i + 1)%Z l' v
               else nonzero_eq_from (i + 1)%Z l' v
  end.
Definition nonzero_eq (l : list R) (v : R) : list Z := nonzero_eq_from 0 l v.

(** [x.max()] *)
Definition max (l : list R) : R :=
  match l with
  | [] => 0
  | x :: l' => fold_left Rmax l' x
  end.

End Paddle.

(* ------------------------------------------------------------------ *)
(** ** The tensor library *)

(** The sample tensors and their arithmetic ([+], [-], [*], [/] with
    broadcasting) are paddle's.  [t_make shape data] is the tensor of that
    shape holding [data] in row-major order. *)
Class TensorLib : Type := {
  Tensor : Type;
  t_shape : Tensor -> list nat;
  t_make : list nat -> list R -> Tensor;
  t_add : Tensor -> Tensor -> Tensor;
  t_sub : Tensor -> Tensor -> Tensor;
  t_mul : Tensor -> Tensor -> Tensor;
  t_div : Tensor -> Tensor -> Tensor
}.

(** A zero-dimensional tensor, and a Python number used as an operand. *)
Definition t_scalar `{TensorLib} (x : R) : Tensor := t_make [] [x].

(** [while len(shape) < rank: shape = shape + [1]], the loop of [add_noise]
    that calls [unsqueeze(-1)]. *)
Equations? unsqueeze_to_rank (shape : list nat) (rank : nat) : list nat
  by wf (rank - length shape)%nat lt :=
  unsqueeze_to_rank shape rank with lt_dec (length shape) rank => {
    | left _ := unsqueeze_to_rank (shape ++ [1%nat]) rank;
    | right _ := shape }.
Proof. rewrite length_app. simpl. lia. Qed.

(* ------------------------------------------------------------------ *)
(** ** betas_for_alpha_bar *)

(** [range(n)] *)
Definition range (n : Z) : list Z := map Z.of_nat (seq 0 (Z.to_nat n)).

Definition alpha_bar (time_step : R) : R :=
  (cos ((time_step + 0.008) / 1.008 * PI / 2)) ^ 2.

Definition betas_for_alpha_bar (num_diffusion_timesteps : Z) (max_beta : R) : list R :=
  map (fun i =>
         let t1 := IZR i / IZR num_diffusion_timesteps in
         let t2 := IZR (i + 1) / IZR num_diffusion_timesteps in
         Rmin (1 - alpha_bar t2 / alpha_bar t1) max_beta)
      (range num_diffusion_timesteps).

(* ------------------------------------------------------------------ *)
(** ** The scheduler object *)

(** The arguments of [__init__], recorded by [register_to_config]. *)
Record SchedulerConfig : Type := {
  num_train_timesteps : Z;
  beta_start : R;
  beta_end : R;
  beta_schedule : string;
  trained_betas : option (list R);
  prediction_type : string;
  use_karras_sigmas : bool
}.

Definition default_config : SchedulerConfig := {|
  num_train_timesteps := 1000;
  beta_start := 0.00085;
  beta_end := 0.012;
  beta_schedule := "linear";
  trained_betas := None;
  prediction_type := "epsilon";
  use_karras_sigmas := false
|}.

Section Scheduler.

Context {TL : TensorLib}.

(** The attributes of a [HeunDiscreteScheduler].  [dt] is the
    zero-dimensional tensor [sigma_next - sigma_hat], a real here.
    [attr_use_karras_sigmas] is [None] until [__init__] assigns the attribute
    on its last line, after it has called [set_timesteps]; until then reading
    [self.use_karras_sigmas] falls back on the registered config value (the
    attribute lookup of [ConfigMixin]). *)
Record HeunDiscreteScheduler : Type := {
  config : SchedulerConfig;
  betas : list R;
  alphas : list R;
  alphas_cumprod : list R;
  num_inference_steps : Z;
  sigmas : list R;
  init_noise_sigma : R;
  timesteps : list R;
  prev_derivative : option Tensor;
  dt : option R;
  sample : option Tensor;
  attr_use_karras_sigmas : option bool
}.

Definition get_use_karras_sigmas (self : HeunDiscreteScheduler) : bool :=
  match attr_use_karras_sigmas self with
  | Some b => b
  | None => use_karras_sigmas (config self)
  end.

(** [state_in_first_order]: [self.dt is None]. *)
Definition state_in_first_order (self : HeunDiscreteScheduler) : bool :=
  match dt self with
  | None => true
  | Some _ => false
  end.

(** *** Methods: state and exceptions *)

Definition M (A : Type) : Type :=
  HeunDiscreteScheduler -> result A * HeunDiscreteScheduler.

Definition ret {A : Type} (a : A) : M A := fun self => (Ok a, self).

Definition raise {A : Type} (e : exn) : M A := fun self => (Raise e, self).

Definition bind {A B : Type} (m : M A) (k : A -> M B) : M B :=
  fun self =>
    match m self with
    | (Ok a, self') => k a self'
    | (Raise e, self') => (Raise e, self')
    end.

Definition lift {A : Type} (r : result A) : M A := fun self => (r, self).

Definition get_self : M HeunDiscreteScheduler := fun self => (Ok self, self).

Definition put_self (self' : HeunDiscreteScheduler) : M unit :=
  fun _ => (Ok tt, self').

Notation "'do' x '<-' m ';' k" := (bind m (fun x => k))
  (at level 10, x pattern, m at level 100, k at level 200).

Fixpoint mmap {A B : Type} (f : A -> M B) (l : list A) : M (list B) :=
  match l with
  | [] => ret []
  | a :: l' => do b <- f a; do bs <- mmap f l'; ret (b :: bs)
  end.

(** *** _sigma_to_t *)

(** [w] is a quotient of reals; with [low = high] numpy's is NaN or an
    infinity. *)
Definition _sigma_to_t (sigma : R) (log_sigmas : list R) : result R :=
  let log_sigma := ln sigma in
  let dists := map (fun l => log_sigma - l) log_sigmas in
  let? am := Np.argmax (Np.cumsum (map (fun d => if Rge_dec d 0 then true else false) dists)) in
  let low_idx := Z.min am (Z.of_nat (length log_sigmas) - 2) in
  let high_idx := (low_idx + 1)%Z in
  let? low := Py.getitem log_sigmas low_idx in
  let? high := Py.getitem log_sigmas high_idx in
  let w := (low - log_sigma) / (low - high) in
  let w := Np.clip w 0 1 in
  let t := (1 - w) * IZR low_idx + w * IZR high_idx in
  Ok t.

(** *** _convert_to_karras *)
Definition _convert_to_karras (in_sigmas : list R) (num_inference_steps : Z)
  : result (list R) :=
  let? sigma_min := Py.getitem in_sigmas (-1) in
  let? sigma_max := Py.getitem in_sigmas 0 in
  let rho := 7 in
  let? ramp := Np.linspace 0 1 num_inference_steps in
  let min_inv_rho := Np.power sigma_min (1 / rho) in
  let max_inv_rho := Np.power sigma_max (1 / rho) in
  let sigmas := map (fun r => Np.power (max_inv_rho + r * (min_inv_rho - max_inv_rho)) rho) ramp in
  Ok sigmas.

(** The training sigmas, [((1 - alphas_cumprod) / alphas_cumprod) ** 0.5]. *)
Definition train_sigmas (self : HeunDiscreteScheduler) : list R :=
  map (fun a => sqrt ((1 - a) / a)) (alphas_cumprod self).

(** *** set_timesteps *)
Definition set_timesteps (n_inference_steps : Z) (n_train_timesteps : option Z)
  : M unit :=
  fun self =>
    (* self.num_inference_steps = num_inference_steps *)
    let self := {|
      config := config self; betas := betas self; alphas := alphas self;
      alphas_cumprod := alphas_cumprod self;
      num_inference_steps := n_inference_steps;
      sigmas := sigmas self; init_noise_sigma := init_noise_sigma self;
      timesteps := timesteps self; prev_derivative := prev_derivative self;
      dt := dt self; sample := sample self;
      attr_use_karras_sigmas := attr_use_karras_sigmas self |} in
    let n_train_timesteps :=
      Py.or_int n_train_timesteps (num_train_timesteps (config self)) in
    let body : result HeunDiscreteScheduler :=
      let? ts := Np.linspace 0 (IZR (n_train_timesteps - 1)) n_inference_steps in
      let timesteps := Py.reversed ts in
      let sigmas := train_sigmas self in
      let log_sigmas := map ln sigmas in
      let? sigmas := Np.interp timesteps (Np.arange (length sigmas)) sigmas in
      let? (sigmas, timesteps) :=
        if get_use_karras_sigmas self then
          let? sigmas := _convert_to_karras sigmas (num_inference_steps self) in
          let? timesteps := rmap (fun sigma => _sigma_to_t sigma log_sigmas) sigmas in
          Ok (sigmas, timesteps)
        else Ok (sigmas, timesteps) in
      let sigmas := sigmas ++ [0] in
      let self_sigmas :=
        Py.slice_to_1 sigmas
        ++ Paddle.repeat_interleave_2 (Py.slice_1_to_last sigmas)
        ++ Py.slice_from_last sigmas in
      let timesteps :=
        Py.slice_to_1 timesteps
        ++ Paddle.repeat_interleave_2 (Py.slice_from_1 timesteps) in
      (* empty dt and derivative *)
      Ok {|
        config := config self; betas := betas self; alphas := alphas self;
        alphas_cumprod := alphas_cumprod self;
        num_inference_steps := num_inference_steps self;
        sigmas := self_sigmas;
        init_noise_sigma := Paddle.max self_sigmas;
        timesteps := timesteps;
        prev_derivative := None;
        dt := None;
        sample := sample self;
        attr_use_karras_sigmas := attr_use_karras_sigmas self |} in
    match body with
    | Ok self' => (Ok tt, self')
    | Raise e => (Raise e, self)
    end.
(** *** index_for_timestep *)
Definition index_for_timestep (timestep : R) (schedule_timesteps : option (list R))
  : M Z :=
  do self <- get_self;
  let schedule_timesteps :=
    match schedule_timesteps with
    | None => timesteps self
    | Some ts => ts
    end in
  let indices := Paddle.nonzero_eq schedule_timesteps timestep in
  let pos := if state_in_first_order self then (-1)%Z else 0%Z in
  lift (Py.getitem indices pos).

(** *** scale_model_input *)
Definition scale_model_input (sample : Tensor) (timestep : R) : M Tensor :=
  do step_index <- index_for_timestep timestep None;
  do self <- get_self;
  do sigma <- lift (Py.getitem (sigmas self) step_index);
  let sample := t_div sample (t_scalar (sqrt (sigma ^ 2 + 1))) in
  ret sample.

(** *** step *)

(** What [step] returns: a [SchedulerOutput], or a 1-tuple when
    [return_dict] is false. *)
Inductive StepOutput : Type :=
| SchedulerOutput (prev_sample : Tensor)
| Tuple1 (prev_sample : Tensor).

Definition output_sample (o : StepOutput) : Tensor :=
  match o with
  | SchedulerOutput p => p
  | Tuple1 p => p
  end.

(** [self.sample], under a name that the parameter [sample] of [step] does
    not hide. *)
Definition stored_sample (self : HeunDiscreteScheduler) : option Tensor :=
  sample self.

(** Step 1 of [step]: the predicted original sample. *)
Definition pred_original (prediction_type : string) (model_output sample : Tensor)
           (sigma_input : R) : result Tensor :=
  if String.eqb prediction_type "epsilon" then
    Ok (t_sub sample (t_mul (t_scalar sigma_input) model_output))
  else if String.eqb prediction_type "v_prediction" then
    Ok (t_add (t_mul model_output
                     (t_scalar (- sigma_input / sqrt (sigma_input ^ 2 + 1))))
              (t_div sample (t_scalar (sigma_input ^ 2 + 1))))
  else if String.eqb prediction_type "sample" then Raise NotImplementedError
  else Raise ValueError.

Definition step (model_output : Tensor) (timestep : R) (sample : Tensor)
           (return_dict : bool) : M StepOutput :=
  do step_index <- index_for_timestep timestep None;
  do self <- get_self;
  do sigma_pair <- lift (
    if state_in_first_order self then
      let? sigma := Py.getitem (sigmas self) step_index in
      let? sigma_next := Py.getitem (sigmas self) (step_index + 1) in
      Ok (sigma, sigma_next)
    else
      (* 2nd order / Heun's method *)
      let? sigma := Py.getitem (sigmas self) (step_index - 1) in
      let? sigma_next := Py.getitem (sigmas self) step_index in
      Ok (sigma, sigma_next));
  let sigma := fst sigma_pair in
  let sigma_next := snd sigma_pair in
  let gamma := 0%Z in
  let sigma_hat := sigma * IZR (gamma + 1) in
  (* 1. compute predicted original sample (x_0) *)
  let sigma_input := if state_in_first_order self then sigma_hat else sigma_next in
  do pred_original_sample <- lift (
    pred_original (prediction_type (config self)) model_output sample sigma_input);
  if state_in_first_order self then
    (* 2. Convert to an ODE derivative for 1st order *)
    let derivative := t_div (t_sub sample pred_original_sample) (t_scalar sigma_hat) in
    (* 3. delta timestep *)
    let dt_ := sigma_next - sigma_hat in
    (* store for 2nd order step *)
    do _ <- put_self {|
      config := config self; betas := betas self; alphas := alphas self;
      alphas_cumprod := alphas_cumprod self;
      num_inference_steps := num_inference_steps self;
      sigmas := sigmas self; init_noise_sigma := init_noise_sigma self;
      timesteps := timesteps self;
      prev_derivative := Some derivative;
      dt := Some dt_;
      sample := Some sample;
      attr_use_karras_sigmas := attr_use_karras_sigmas self |};
    let prev_sample := t_add sample (t_mul derivative (t_scalar dt_)) in
    ret (if return_dict then SchedulerOutput prev_sample else Tuple1 prev_sample)
  else
    (* 2. 2nd order / Heun's method *)
    let derivative := t_div (t_sub sample pred_original_sample) (t_scalar sigma_next) in
    match prev_derivative self with
    | None => raise TypeError
    | Some stored_derivative =>
        let derivative := t_div (t_add stored_derivative derivative) (t_scalar 2) in
        (* 3. take prev timestep & sample *)
        let dt_ := dt self in
        let sample_ := stored_sample self in
        (* free dt and derivative *)
        do _ <- put_self {|
          config := config self; betas := betas self; alphas := alphas self;
          alphas_cumprod := alphas_cumprod self;
          num_inference_steps := num_inference_steps self;
          sigmas := sigmas self; init_noise_sigma := init_noise_sigma self;
          timesteps := timesteps self;
          prev_derivative := None;
          dt := None;
          sample := None;
          attr_use_karras_sigmas := attr_use_karras_sigmas self |};
        match sample_, dt_ with
        | Some sample, Some dt_ =>
            let prev_sample := t_add sample (t_mul derivative (t_scalar dt_)) in
            ret (if return_dict then SchedulerOutput prev_sample else Tuple1 prev_sample)
        | _, _ => raise TypeError
        end
    end.

(** *** add_noise *)
Definition add_noise (original_samples noise : Tensor) (timesteps_ : list R)
  : M Tensor :=
  do self <- get_self;
  (* Make sure sigmas and timesteps have the same dtype as original_samples *)
  let sigmas_ := sigmas self in
  let schedule_timesteps := timesteps self in
  do step_indices <-
    mmap (fun t => index_for_timestep t (Some schedule_timesteps)) timesteps_;
  do sigma <- lift (rmap (Py.getitem sigmas_) step_indices);
  let shape := unsqueeze_to_rank [length sigma] (length (t_shape original_samples)) in
  let noisy_samples := t_add original_samples (t_mul noise (t_make shape sigma)) in
  ret noisy_samples.

(** *** __init__ *)

(** The [if]/[elif] chain that chooses [self.betas]. *)
Definition make_betas (cfg : SchedulerConfig) : result (list R) :=
  match trained_betas cfg with
  | Some tb => Ok tb
  | None =>
      if String.eqb (beta_schedule cfg) "linear" then
        Paddle.linspace (beta_start cfg) (beta_end cfg) (num_train_timesteps cfg)
      else if String.eqb (beta_schedule cfg) "scaled_linear" then
        let? l := Paddle.linspace (sqrt (beta_start cfg)) (sqrt (beta_end cfg))
                                  (num_train_timesteps cfg) in
        Ok (map (fun x => x ^ 2) l)
      else if String.eqb (beta_schedule cfg) "squaredcos_cap_v2" then
        Ok (betas_for_alpha_bar (num_train_timesteps cfg) 0.999)
      else Raise NotImplementedError
  end.

Definition __init__ (cfg : SchedulerConfig) : result HeunDiscreteScheduler :=
  let? betas_ := make_betas cfg in
  let alphas_ := map (fun b => 1 - b) betas_ in
  let alphas_cumprod_ := Paddle.cumprod alphas_ in
  let self := {|
    config := cfg; betas := betas_; alphas := alphas_;
    alphas_cumprod := alphas_cumprod_;
    num_inference_steps := 0; sigmas := []; init_noise_sigma := 0;
    timesteps := []; prev_derivative := None; dt := None; sample := None;
    attr_use_karras_sigmas := None |} in
  (* set all values *)
  match set_timesteps (num_train_timesteps cfg) (Some (num_train_timesteps cfg)) self with
  | (Ok _, self) =>
      Ok {|
        config := config self; betas := betas self; alphas := alphas self;
        alphas_cumprod := alphas_cumprod self;
        num_inference_steps := num_inference_steps self;
        sigmas := sigmas self; init_noise_sigma := init_noise_sigma self;
        timesteps := timesteps self; prev_derivative := prev_derivative self;
        dt := dt self; sample := sample self;
        attr_use_karras_sigmas := Some (use_karras_sigmas cfg) |}
  | (Raise e, _) => Raise e
  end.

(** *** __len__ *)
Definition __len__ (self : HeunDiscreteScheduler) : Z :=
  num_train_timesteps (config self).

End Scheduler.

(** Zero-dimensional tensors: one real each, every shape the empty one.  The
    smallest model of the tensor library; the examples run on it. *)
Definition scalar_tensors : TensorLib := {|
  Tensor := R;
  t_shape := fun _ => [];
  t_make := fun _ data => hd 0 data;
  t_add := Rplus;
  t_sub := Rminus;
  t_mul := Rmult;
  t_div := Rdiv
|}.

(** The positions of [l] that hold [v]: the meaning of "first" and "last
    matching index". *)
Definition matches_at (l : list R) (v : R) (i : Z) : Prop :=
  (0 <= i < Z.of_nat (length l))%Z /\ nth (Z.to_nat i) l 0 = v.

Definition last_matching_index (l : list R) (v : R) (i : Z) : Prop :=
  matches_at l v i /\ forall j, matches_at l v j -> (j <= i)%Z.

Definition first_matching_index (l : list R) (v : R) (i : Z) : Prop :=
  matches_at l v i /\ forall j, matches_at l v j -> (i <= j)%Z.

(** Non-increasing (descending) and strictly increasing sequences, by
    positions. *)
Definition descending (l : list R) : Prop :=
  forall i j, (i <= j < length l)%nat -> nth j l 0 <= nth i l 0.

Definition strictly_increasing (l : list R) : Prop :=
  forall i j, (i < j < length l)%nat -> nth i l 0 < nth j l 0.

Definition non_increasing (l : list R) : Prop :=
  forall i j, (i <= j < length l)%nat -> nth j l 0 <= nth i l 0.

(* ------------------------------------------------------------------ *)
(** ** The scheduler as a transition system *)

Section Transitions.

Context {TL : TensorLib}.

(** [self.num_inference_steps = n], the first assignment of [set_timesteps]. *)
Definition with_num_inference_steps (self : HeunDiscreteScheduler) (n : Z)
  : HeunDiscreteScheduler := {|
    config := config self; betas := betas self; alphas := alphas self;
    alphas_cumprod := alphas_cumprod self;
    num_inference_steps := n;
    sigmas := sigmas self; init_noise_sigma := init_noise_sigma self;
    timesteps := timesteps self; prev_derivative := prev_derivative self;
    dt := dt self; sample := sample self;
    attr_use_karras_sigmas := attr_use_karras_sigmas self |}.

(** The sigmas and timesteps that [set_timesteps] selects, before it appends
    the final [0.0] and duplicates entries. *)
Definition selected_schedule (self : HeunDiscreteScheduler)
           (n_train_timesteps : option Z) : result (list R * list R) :=
  let n_train_timesteps :=
    Py.or_int n_train_timesteps (num_train_timesteps (config self)) in
  let? ts := Np.linspace 0 (IZR (n_train_timesteps - 1)) (num_inference_steps self) in
  let timesteps := Py.reversed ts in
  let sigmas := train_sigmas self in
  let log_sigmas := map ln sigmas in
  let? sigmas := Np.interp timesteps (Np.arange (length sigmas)) sigmas in
  if get_use_karras_sigmas self then
    let? sigmas := _convert_to_karras sigmas (num_inference_steps self) in
    let? timesteps := rmap (fun sigma => _sigma_to_t sigma log_sigmas) sigmas in
    Ok (sigmas, timesteps)
  else Ok (sigmas, timesteps).

(** The two duplications of [set_timesteps]. *)
Definition duplicate_sigmas (sigmas : list R) : list R :=
  Py.slice_to_1 sigmas
  ++ Paddle.repeat_interleave_2 (Py.slice_1_to_last sigmas)
  ++ Py.slice_from_last sigmas.

Definition duplicate_timesteps (timesteps : list R) : list R :=
  Py.slice_to_1 timesteps ++ Paddle.repeat_interleave_2 (Py.slice_from_1 timesteps).

(** The object that [set_timesteps] leaves when it returns. *)
Definition rebuilt (self : HeunDiscreteScheduler) (sel_sigmas sel_timesteps : list R)
  : HeunDiscreteScheduler := {|
    config := config self; betas := betas self; alphas := alphas self;
    alphas_cumprod := alphas_cumprod self;
    num_inference_steps := num_inference_steps self;
    sigmas := duplicate_sigmas (sel_sigmas ++ [0]);
    init_noise_sigma := Paddle.max (duplicate_sigmas (sel_sigmas ++ [0]));
    timesteps := duplicate_timesteps sel_timesteps;
    prev_derivative := None;
    dt := None;
    sample := sample self;
    attr_use_karras_sigmas := attr_use_karras_sigmas self |}.

(** The object after the predictor phase of [step] stored its derivative,
    its [dt] and the sample, and after the corrector phase freed them. *)
Definition stored_state (self : HeunDiscreteScheduler) (derivative : Tensor)
           (dt_ : R) (x : Tensor) : HeunDiscreteScheduler := {|
    config := config self; betas := betas self; alphas := alphas self;
    alphas_cumprod := alphas_cumprod self;
    num_inference_steps := num_inference_steps self;
    sigmas := sigmas self; init_noise_sigma := init_noise_sigma self;
    timesteps := timesteps self;
    prev_derivative := Some derivative;
    dt := Some dt_;
    sample := Some x;
    attr_use_karras_sigmas := attr_use_karras_sigmas self |}.

Definition cleared_state (self : HeunDiscreteScheduler) : HeunDiscreteScheduler := {|
    config := config self; betas := betas self; alphas := alphas self;
    alphas_cumprod := alphas_cumprod self;
    num_inference_steps := num_inference_steps self;
    sigmas := sigmas self; init_noise_sigma := init_noise_sigma self;
    timesteps := timesteps self;
    prev_derivative := None;
    dt := None;
    sample := None;
    attr_use_karras_sigmas := attr_use_karras_sigmas self |}.

(** [SchedulerOutput(prev_sample=p)] or [(p,)]. *)
Definition wrap_output (return_dict : bool) (p : Tensor) : StepOutput :=
  if return_dict then SchedulerOutput p else Tuple1 p.

(** The object on which [__init__] calls [set_timesteps]: the config and the
    betas, alphas and their cumulative product are set, nothing else is. *)
Definition initial_self (cfg : SchedulerConfig) (betas_ : list R)
  : HeunDiscreteScheduler := {|
    config := cfg; betas := betas_; alphas := map (fun b => 1 - b) betas_;
    alphas_cumprod := Paddle.cumprod (map (fun b => 1 - b) betas_);
    num_inference_steps := 0; sigmas := []; init_noise_sigma := 0;
    timesteps := []; prev_derivative := None; dt := None; sample := None;
    attr_use_karras_sigmas := None |}.

(** [self.use_karras_sigmas = b], the last assignment of [__init__]. *)
Definition with_use_karras_sigmas (self : HeunDiscreteScheduler) (b : bool)
  : HeunDiscreteScheduler := {|
    config := config self; betas := betas self; alphas := alphas self;
    alphas_cumprod := alphas_cumprod self;
    num_inference_steps := num_inference_steps self;
    sigmas := sigmas self; init_noise_sigma := init_noise_sigma self;
    timesteps := timesteps self; prev_derivative := prev_derivative self;
    dt := dt self; sample := sample self;
    attr_use_karras_sigmas := Some b |}.

(** The states a scheduler object goes through: built by [__init__], then
    any calls of its methods, whether they return or raise. *)
Inductive reachable : HeunDiscreteScheduler -> Prop :=
| reach_init cfg self :
    __init__ cfg = Ok self -> reachable self
| reach_set_timesteps self n t r self' :
    reachable self -> set_timesteps n t self = (r, self') -> reachable self'
| reach_step self model_output timestep x return_dict r self' :
    reachable self ->
    step model_output timestep x return_dict self = (r, self') -> reachable self'
| reach_scale_model_input self x timestep r self' :
    reachable self -> scale_model_input x timestep self = (r, self') -> reachable self'
| reach_add_noise self original noise ts r self' :
    reachable self -> add_noise original noise ts self = (r, self') -> reachable self'.

(** [calls_since_set_timesteps k self]: [self] is the object after [k] calls
    of [step] that returned since the last [set_timesteps] that returned
    ([__init__] ends with one).  Calls of [add_noise] and
    [scale_model_input], and a [set_timesteps] that raises, may come in
    between. *)
Inductive calls_since_set_timesteps : nat -> HeunDiscreteScheduler -> Prop :=
| since_init cfg self :
    __init__ cfg = Ok self -> calls_since_set_timesteps 0 self
| since_set_timesteps k self n t self' :
    calls_since_set_timesteps k self ->
    set_timesteps n t self = (Ok tt, self') ->
    calls_since_set_timesteps 0 self'
| since_set_timesteps_raise k self n t e self' :
    calls_since_set_timesteps k self ->
    set_timesteps n t self = (Raise e, self') ->
    calls_since_set_timesteps k self'
| since_step k self model_output timestep x return_dict out self' :
    calls_since_set_timesteps k self ->
    step model_output timestep x return_dict self = (Ok out, self') ->
    calls_since_set_timesteps (S k) self'
| since_scale_model_input k self x timestep r self' :
    calls_since_set_timesteps k self ->
    scale_model_input x timestep self = (r, self') ->
    calls_since_set_timesteps k self'
| since_add_noise k self original noise ts r self' :
    calls_since_set_timesteps k self ->
    add_noise original noise ts self = (r, self') ->
    calls_since_set_timesteps k self'.

(** [evolves self self']: calls of the methods, returning or raising, lead
    from [self] to [self']. *)
Inductive evolves : HeunDiscreteScheduler -> HeunDiscreteScheduler -> Prop :=
| evolves_refl self : evolves self self
| evolves_set_timesteps self self1 n t r self' :
    evolves self self1 -> set_timesteps n t self1 = (r, self') -> evolves self self'
| evolves_step self self1 model_output timestep x return_dict r self' :
    evolves self self1 ->
    step model_output timestep x return_dict self1 = (r, self') -> evolves self self'
| evolves_scale_model_input self self1 x timestep r self' :
    evolves self self1 -> scale_model_input x timestep self1 = (r, self') ->
    evolves self self'
| evolves_add_noise self self1 original noise ts r self' :
    evolves self self1 -> add_noise original noise ts self1 = (r, self') ->
    evolves self self'.

(** What every reachable state satisfies. *)
Definition consistent (self : HeunDiscreteScheduler) : Prop :=
  (length (timesteps self) < length (sigmas self))%nat
  /\ alphas_cumprod self <> []
  /\ (dt self = None <-> prev_derivative self = None)
  /\ (dt self <> None -> sample self <> None).

End Transitions.

(* ------------------------------------------------------------------ *)
(** ** A small scheduler to run *)

(** Two training timesteps, otherwise the defaults of [__init__], on
    zero-dimensional tensors. *)
Definition example_config : SchedulerConfig := {|
  num_train_timesteps := 2;
  beta_start := 0.00085;
  beta_end := 0.012;
  beta_schedule := "linear";
  trained_betas := None;
  prediction_type := "epsilon";
  use_karras_sigmas := false
|}.

Definition unset_scheduler (cfg : SchedulerConfig) : @HeunDiscreteScheduler scalar_tensors := {|
  config := cfg; betas := []; alphas := []; alphas_cumprod := [];
  num_inference_steps := 0; sigmas := []; init_noise_sigma := 0;
  timesteps := []; prev_derivative := None; dt := None; sample := None;
  attr_use_karras_sigmas := None |}.

Definition constructed (cfg : SchedulerConfig) : @HeunDiscreteScheduler scalar_tensors :=
  match __init__ cfg with
  | Ok self => self
  | Raise _ => unset_scheduler cfg
  end.

Definition example_scheduler : @HeunDiscreteScheduler scalar_tensors :=
  constructed example_config.

(** The example with Karras sigmas. *)
Definition karras_config : SchedulerConfig := {|
  num_train_timesteps := 2;
  beta_start := 0.00085;
  beta_end := 0.012;
  beta_schedule := "linear";
  trained_betas := None;
  prediction_type := "epsilon";
  use_karras_sigmas := true
|}.

(** Explicit betas of a length other than [num_train_timesteps]. *)
Definition mismatch_config : SchedulerConfig := {|
  num_train_timesteps := 2;
  beta_start := 0.00085;
  beta_end := 0.012;
  beta_schedule := "linear";
  trained_betas := Some [1 / 2];
  prediction_type := "epsilon";
  use_karras_sigmas := false
|}.

(** The Glide cosine schedule on three training timesteps. *)
Definition cosine_config : SchedulerConfig := {|
  num_train_timesteps := 3;
  beta_start := 0.00085;
  beta_end := 0.012;
  beta_schedule := "squaredcos_cap_v2";
  trained_betas := None;
  prediction_type := "epsilon";
  use_karras_sigmas := false
|}.

(** Unfolds the scheduler and the list functions, and leaves the arithmetic
    of the reals alone. *)
Ltac run_scheduler :=
  cbv -[Rplus Rmult Rminus Rdiv Rinv Ropp IZR INR sqrt ln cos PI pow Rpower Rmax Rmin
        Rle_dec Rlt_dec Rge_dec Req_dec_T Rle Rlt Rge Rgt].

(** Equality of two lists of reals, entry by entry. *)
Ltac list_of_reals :=
  repeat (apply (f_equal2 (@cons R)); [simpl INR; lra|]); try reflexivity.

(** Decides the comparisons of reals that a run has to take. *)
Ltac decide_reals :=
  repeat match goal with
         | |- context [Req_dec_T ?a ?b] =>
             destruct (Req_dec_T a b); [try (exfalso; lra)|try (exfalso; lra)]
         | |- context [Rle_dec ?a ?b] =>
             destruct (Rle_dec a b); [try (exfalso; lra)|try (exfalso; lra)]
         | |- context [Rlt_dec ?a ?b] =>
             destruct (Rlt_dec a b); [try (exfalso; lra)|try (exfalso; lra)]
         end.

(* ------------------------------------------------------------------ *)
(** ** The formulas of the two phases of [step] *)

Section StepFormulas.

Context {TL : TensorLib}.

(** The predictor phase on [self]: the index is the last one that matches
    [t]; the result is the Euler estimate [x + derivative * dt]; and the
    derivative, [dt] and [x] are stored. *)
Definition predictor_step (self : HeunDiscreteScheduler) (mo : Tensor) (t : R)
           (x : Tensor) (rd : bool) : Prop :=
  exists i sigma sigma_next pred,
    last_matching_index (timesteps self) t i
    /\ Py.getitem (sigmas self) i = Ok sigma
    /\ Py.getitem (sigmas self) (i + 1) = Ok sigma_next
    /\ pred_original (prediction_type (config self)) mo x sigma = Ok pred
    /\ let derivative := t_div (t_sub x pred) (t_scalar sigma) in
       let dt_ := sigma_next - sigma in
       exists out self',
         step mo t x rd self = (Ok out, self')
         /\ output_sample out = t_add x (t_mul derivative (t_scalar dt_))
         /\ prev_derivative self' = Some derivative
         /\ dt self' = Some dt_
         /\ sample self' = Some x
         /\ timesteps self' = timesteps self
         /\ sigmas self' = sigmas self.

(** The corrector phase on [self]: the index is the first one that matches
    [t]; the result restarts from the stored sample with the average of the
    stored derivative and the new one, over the stored [dt]; and the three
    stored values are cleared. *)
Definition corrector_step (self : HeunDiscreteScheduler) (mo : Tensor) (t : R)
           (x : Tensor) (rd : bool) : Prop :=
  exists i sigma_next pred stored_derivative stored_dt stored_x,
    first_matching_index (timesteps self) t i
    /\ Py.getitem (sigmas self) i = Ok sigma_next
    /\ pred_original (prediction_type (config self)) mo x sigma_next = Ok pred
    /\ prev_derivative self = Some stored_derivative
    /\ dt self = Some stored_dt
    /\ sample self = Some stored_x
    /\ let derivative2 := t_div (t_sub x pred) (t_scalar sigma_next) in
       let derivative_avg := t_div (t_add stored_derivative derivative2) (t_scalar 2) in
       exists out self',
         step mo t x rd self = (Ok out, self')
         /\ output_sample out = t_add stored_x (t_mul derivative_avg (t_scalar stored_dt))
         /\ prev_derivative self' = None
         /\ dt self' = None
         /\ sample self' = None
         /\ timesteps self' = timesteps self
         /\ sigmas self' = sigmas self.

(** The index that [index_for_timestep] picks: the last match in the
    predictor phase, the first one when a corrector step is pending. *)
Definition picked_index (self : HeunDiscreteScheduler) (t : R) (i : Z) : Prop :=
  if state_in_first_order self then last_matching_index (timesteps self) t i
  else first_matching_index (timesteps self) t i.

(** The sigma that [add_noise] reads for the timestep [t]. *)
Definition resolved_sigma (self : HeunDiscreteScheduler) (t sigma : R) : Prop :=
  exists i, picked_index self t i /\ Py.getitem (sigmas self) i = Ok sigma.

(** Every position of [timesteps] holds, in [sigmas], a function of the
    timestep at that position. *)
Definition aligned (self : HeunDiscreteScheduler) : Prop :=
  exists (f : R -> R) (rest : list R), sigmas self = map f (timesteps self) ++ rest.

(** The training sigmas as the Karras conversion needs them: at least two,
    positive and strictly increasing. *)
Definition well_ordered_training (self : HeunDiscreteScheduler) : Prop :=
  (2 <= length (train_sigmas self))%nat
  /\ Forall (fun s => 0 < s) (train_sigmas self)
  /\ strictly_increasing (train_sigmas self).

End StepFormulas.

(** The training sigma at the training timestep [num_train_timesteps - 1],
    the last one when [np.interp] clamps that timestep to the knots. *)
Definition top_training_sigma {TL : TensorLib} (self : HeunDiscreteScheduler) : R :=
  nth (Nat.min (Z.to_nat (num_train_timesteps (config self) - 1))
               (length (train_sigmas self) - 1))
      (train_sigmas self) 0.

(* ------------------------------------------------------------------ *)
(** ** The denoising loop of a pipeline
    (ppdiffusers/pipelines/latent_diffusion_uncond/pipeline_latent_diffusion_uncond.py) *)

Section Pipeline.

Context {TL : TensorLib}.

(** [self.unet(x, t).sample]: the network is a function of the scaled sample
    and the timestep. *)
Variable unet : Tensor -> R -> Tensor.

Notation "'do' x '<-' m ';' k" := (bind m (fun x => k))
  (at level 10, x pattern, m at level 100, k at level 200).

(** [for t in self.progress_bar(self.scheduler.timesteps): ...] *)
Fixpoint denoising_loop (ts : list R) (latents : Tensor) : M Tensor :=
  match ts with
  | [] => ret latents
  | t :: ts' =>
      do latent_model_input <- scale_model_input latents t;
      (* predict the noise residual *)
      let noise_prediction := unet latent_model_input t in
      (* compute the previous noisy sample x_t -> x_t-1 *)
      do out <- step noise_prediction t latents true;
      denoising_loop ts' (output_sample out)
  end.

(** [LDMPipeline.__call__] from the scaling of the initial noise to the end
    of the loop, run with a [HeunDiscreteScheduler] as [self.scheduler]; its
    [step] takes no [eta], so [extra_kwargs] stays empty.  The Gaussian noise
    that [randn_tensor] draws is the argument [latents]; the result is the
    final [latents], before [self.vqvae.decode] and the conversion to
    images. *)
Definition LDMPipeline__call__ (latents : Tensor) (n_inference_steps : Z) : M Tensor :=
  do self <- get_self;
  (* scale the initial noise by the standard deviation required by the scheduler *)
  let latents := t_mul latents (t_scalar (init_noise_sigma self)) in
  do _ <- set_timesteps n_inference_steps None;
  do self <- get_self;
  denoising_loop (timesteps self) latents.

(** *** Heun's method, for reference

    The sampler that the class says it implements (Karras et al. 2022,
    Algorithm 2 with [gamma = 0]), written over a noise schedule
    [(sigma_0, t_0), ..., (sigma_{N-1}, t_{N-1})] followed by [sigma = 0]. *)

(** The denoised sample that the network predicts for [x] at noise level
    [sigma]. *)
Definition denoiser (pt : string) (x : Tensor) (sigma t : R) : result Tensor :=
  pred_original pt (unet (t_div x (t_scalar (sqrt (sigma ^ 2 + 1)))) t) x sigma.

(** [dx/dsigma] of the probability-flow ODE at [x]. *)
Definition ode_derivative (pt : string) (x : Tensor) (sigma t : R) : result Tensor :=
  let? denoised := denoiser pt x sigma t in
  Ok (t_div (t_sub x denoised) (t_scalar sigma)).

Fixpoint heun_sampler (pt : string) (schedule : list (R * R)) (x : Tensor)
  : result Tensor :=
  match schedule with
  | [] => Ok x
  | (sigma, t) :: rest =>
      let? d := ode_derivative pt x sigma t in
      match rest with
      | [] =>
          (* the last step is an Euler step to sigma = 0 *)
          Ok (t_add x (t_mul d (t_scalar (0 - sigma))))
      | (sigma_next, t_next) :: _ =>
          (* Euler step from sigma to sigma_next *)
          let x_next := t_add x (t_mul d (t_scalar (sigma_next - sigma))) in
          (* second order correction *)
          let? d' := ode_derivative pt x_next sigma_next t_next in
          let d_avg := t_div (t_add d d') (t_scalar 2) in
          heun_sampler pt rest (t_add x (t_mul d_avg (t_scalar (sigma_next - sigma))))
      end
  end.

End Pipeline.

(* ================================================================== *)
(** * Properties *)

(** ** Python sequences *)

Lemma getitem_nth {A : Type} (l : list A) (i : Z) (d : A) :
  (0 <= i < Z.of_nat (length l))%Z ->
  Py.getitem l i = Ok (nth (Z.to_nat i) l d).
Proof.
  intros Hi. unfold Py.getitem.
  destruct (Z.ltb_spec i 0); [lia|].
  destruct (Z.leb_spec 0 i); [|lia].
  destruct (Z.ltb_spec i (Z.of_nat (length l))); [|lia].
  simpl. destruct (nth_error l (Z.to_nat i)) eqn:E.
  - erewrite nth_error_nth; eauto.
  - apply nth_error_None in E. lia.
Qed.

Lemma getitem_neg {A : Type} (l : list A) (i : Z) (d : A) :
  (- Z.of_nat (length l) <= i < 0)%Z ->
  Py.getitem l i = Ok (nth (Z.to_nat (i + Z.of_nat (length l))) l d).
Proof.
  intros Hi. unfold Py.getitem.
  destruct (Z.ltb_spec i 0); [|lia].
  destruct (Z.leb_spec 0 (i + Z.of_nat (length l))); [|lia].
  destruct (Z.ltb_spec (i + Z.of_nat (length l)) (Z.of_nat (length l))); [|lia].
  simpl. destruct (nth_error l (Z.to_nat (i + Z.of_nat (length l)))) eqn:E.
  - erewrite nth_error_nth; eauto.
  - apply nth_error_None in E. lia.
Qed.

Lemma getitem_nil {A : Type} (i : Z) : Py.getitem (@nil A) i = Raise IndexError.
Proof.
  unfold Py.getitem. simpl.
  destruct (Z.ltb_spec i 0).
  - destruct (Z.leb_spec 0 (i + 0)); [lia|reflexivity].
  - destruct (Z.leb_spec 0 i); [|lia].
    destruct (Z.ltb_spec i 0); [lia|reflexivity].
Qed.

Lemma nth_pred_length_last {A : Type} (l : list A) (d : A) :
  nth (length l - 1) l d = last l d.
Proof.
  induction l as [|a l IH]; [reflexivity|].
  destruct l as [|b l]; [reflexivity|].
  change (last (a :: b :: l) d) with (last (b :: l) d). rewrite <- IH.
  simpl. now rewrite Nat.sub_0_r.
Qed.

Lemma getitem_last {A : Type} (l : list A) (d : A) :
  l <> [] -> Py.getitem l (-1) = Ok (last l d).
Proof.
  intros Hl. rewrite (getitem_neg l (-1) d).
  - f_equal. replace (Z.to_nat (-1 + Z.of_nat (length l))) with (length l - 1)%nat by lia.
    apply nth_pred_length_last.
  - destruct l; [congruence|]. simpl length. lia.
Qed.

Lemma getitem_first {A : Type} (l : list A) (d : A) :
  l <> [] -> Py.getitem l 0 = Ok (hd d l).
Proof.
  intros Hl. destruct l as [|a l]; [congruence|].
  rewrite (getitem_nth (a :: l) 0 d); [reflexivity|]. simpl length. lia.
Qed.

(** ** [nonzero] of an equality mask *)

Lemma nonzero_eq_from_spec (l : list R) (v : R) (k j : Z) :
  In j (Paddle.nonzero_eq_from k l v) <->
  (k <= j < k + Z.of_nat (length l))%Z /\ nth (Z.to_nat (j - k)) l 0 = v.
Proof.
  revert k. induction l as [|x l IH]; intros k.
  - simpl. split; [tauto|]. intros [H _]. lia.
  - cbn [Paddle.nonzero_eq_from]. 
    assert (Hshift : forall j', (k + 1 <= j')%Z ->
              nth (Z.to_nat (j' - k)) (x :: l) 0 = nth (Z.to_nat (j' - (k + 1))) l 0).
    { intros j' Hj'. replace (Z.to_nat (j' - k)) with (S (Z.to_nat (j' - (k + 1)))) by lia.
      reflexivity. }
    destruct (Req_dec_T x v) as [E|E].
    + simpl In. rewrite IH. simpl length. split.
      * intros [<- | [H1 H2]].
        -- split; [lia|]. rewrite Z.sub_diag. exact E.
        -- split; [lia|]. rewrite Hshift by lia. exact H2.
      * intros [H1 H2]. destruct (Z.eq_dec k j) as [->|Hne]; [now left|right].
        split; [lia|]. rewrite <- Hshift by lia. exact H2.
    + rewrite IH. simpl length. split.
      * intros [H1 H2]. split; [lia|]. rewrite Hshift by lia. exact H2.
      * intros [H1 H2]. destruct (Z.eq_dec k j) as [->|Hne].
        -- rewrite Z.sub_diag in H2. simpl in H2. contradiction.
        -- split; [lia|]. rewrite <- Hshift by lia. exact H2.
Qed.

Lemma nonzero_eq_spec (l : list R) (v : R) (j : Z) :
  In j (Paddle.nonzero_eq l v) <-> matches_at l v j.
Proof.
  unfold Paddle.nonzero_eq, matches_at. rewrite nonzero_eq_from_spec.
  rewrite Z.sub_0_r. simpl. tauto.
Qed.

Lemma nonzero_eq_from_sorted (l : list R) (v : R) (k : Z) :
  StronglySorted Z.lt (Paddle.nonzero_eq_from k l v).
Proof.
  revert k. induction l as [|x l IH]; intros k; cbn [Paddle.nonzero_eq_from].
  - constructor.
  - destruct (Req_dec_T x v); [|apply IH].
    constructor; [apply IH|].
    apply Forall_forall. intros j Hj. apply nonzero_eq_from_spec in Hj. lia.
Qed.

Lemma sorted_hd_least (l : list Z) (d : Z) :
  StronglySorted Z.lt l -> forall j, In j l -> (hd d l <= j)%Z.
Proof.
  intros Hs j Hj. destruct l as [|a l]; [contradiction|].
  simpl. inversion Hs as [|? ? _ Hall]; subst.
  destruct Hj as [->|Hj]; [lia|].
  rewrite Forall_forall in Hall. specialize (Hall _ Hj). lia.
Qed.

Lemma sorted_last_greatest (l : list Z) (d : Z) :
  StronglySorted Z.lt l -> forall j, In j l -> (j <= last l d)%Z.
Proof.
  induction l as [|a l IH]; intros Hs j Hj; [contradiction|].
  inversion Hs as [|? ? Hs' Hall]; subst.
  destruct l as [|b l].
  - destruct Hj as [->|[]]. simpl. lia.
  - change (last (a :: b :: l) d) with (last (b :: l) d).
    destruct Hj as [->|Hj].
    + rewrite Forall_forall in Hall.
      assert (Hb : (j < b)%Z) by (apply Hall; now left).
      specialize (IH Hs' b (or_introl eq_refl)). lia.
    + apply IH; assumption.
Qed.

Lemma last_In {A : Type} (l : list A) (d : A) : l <> [] -> In (last l d) l.
Proof.
  intros Hl. rewrite (app_removelast_last d Hl) at 2.
  apply in_or_app. right. now left.
Qed.

Lemma In_matches_at (l : list R) (v : R) :
  In v l -> exists i, matches_at l v i.
Proof.
  intros Hin. destruct (In_nth l v 0 Hin) as [n [Hn Hnth]].
  exists (Z.of_nat n). split; [lia|]. now rewrite Nat2Z.id.
Qed.

Lemma matches_at_In (l : list R) (v : R) (i : Z) : matches_at l v i -> In v l.
Proof.
  intros [Hi <-]. apply nth_In. lia.
Qed.

(** The last matching index exists when the value is present, and
    [indices[-1]] is it; likewise [indices[0]] and the first one. *)
Lemma nonzero_eq_last (l : list R) (v : R) :
  In v l ->
  exists i, Py.getitem (Paddle.nonzero_eq l v) (-1) = Ok i /\ last_matching_index l v i.
Proof.
  intros Hin. destruct (In_matches_at l v Hin) as [i0 Hi0].
  apply nonzero_eq_spec in Hi0.
  assert (Hne : Paddle.nonzero_eq l v <> []) by (intros E; rewrite E in Hi0; contradiction).
  exists (last (Paddle.nonzero_eq l v) 0%Z). split.
  - apply getitem_last; assumption.
  - split.
    + apply nonzero_eq_spec. apply last_In; assumption.
    + intros j Hj. apply sorted_last_greatest.
      * apply nonzero_eq_from_sorted.
      * now apply nonzero_eq_spec.
Qed.

Lemma nonzero_eq_first (l : list R) (v : R) :
  In v l ->
  exists i, Py.getitem (Paddle.nonzero_eq l v) 0 = Ok i /\ first_matching_index l v i.
Proof.
  intros Hin. destruct (In_matches_at l v Hin) as [i0 Hi0].
  apply nonzero_eq_spec in Hi0.
  assert (Hne : Paddle.nonzero_eq l v <> []) by (intros E; rewrite E in Hi0; contradiction).
  exists (hd 0%Z (Paddle.nonzero_eq l v)). split.
  - apply getitem_first; assumption.
  - split.
    + apply nonzero_eq_spec. destruct (Paddle.nonzero_eq l v); [congruence|now left].
    + intros j Hj. apply sorted_hd_least.
      * apply nonzero_eq_from_sorted.
      * now apply nonzero_eq_spec.
Qed.

Lemma nonzero_eq_absent (l : list R) (v : R) :
  ~ In v l -> Paddle.nonzero_eq l v = [].
Proof.
  intros Hn. destruct (Paddle.nonzero_eq l v) as [|j js] eqn:E; [reflexivity|].
  exfalso. apply Hn. apply (matches_at_In l v j). apply nonzero_eq_spec.
  rewrite E. now left.
Qed.

(** ** Lengths *)

Lemma linspace_values_length (a b : R) (n : nat) :
  length (Np.linspace_values a b n) = n.
Proof.
  unfold Np.linspace_values. destruct n as [|[|n]]; try reflexivity.
  now rewrite length_map, length_seq.
Qed.

Lemma np_linspace_ok (a b : R) (n : Z) (l : list R) :
  Np.linspace a b n = Ok l -> (0 <= n)%Z /\ l = Np.linspace_values a b (Z.to_nat n).
Proof.
  unfold Np.linspace. destruct (Z.ltb_spec n 0); [discriminate|].
  intros [= <-]. split; [lia|reflexivity].
Qed.

Lemma rmap_length {A B : Type} (f : A -> result B) (l : list A) (l' : list B) :
  rmap f l = Ok l' -> length l' = length l.
Proof.
  revert l'. induction l as [|a l IH]; intros l'; simpl.
  - now intros [= <-].
  - destruct (f a); [|discriminate]. simpl.
    destruct (rmap f l) as [bs|]; [|discriminate]. simpl.
    intros [= <-]. simpl. f_equal. now apply IH.
Qed.

Lemma rmap_ok {A B : Type} (f : A -> result B) (l : list A) :
  (forall a, In a l -> exists b, f a = Ok b) -> exists l', rmap f l = Ok l'.
Proof.
  induction l as [|a l IH]; intros H; simpl.
  - eauto.
  - destruct (H a (or_introl eq_refl)) as [b ->]. simpl.
    destruct IH as [bs ->]; [intros; apply H; now right|]. simpl. eauto.
Qed.

Lemma repeat_interleave_2_length {A : Type} (l : list A) :
  length (Paddle.repeat_interleave_2 l) = (2 * length l)%nat.
Proof.
  unfold Paddle.repeat_interleave_2. induction l as [|a l IH]; simpl; [reflexivity|].
  simpl in IH. rewrite IH. lia.
Qed.

Section ScheduleShape.

Context {TL : TensorLib}.

Lemma duplicate_timesteps_length (l : list R) :
  length (duplicate_timesteps l) = (2 * length l - 1)%nat.
Proof.
  unfold duplicate_timesteps, Py.slice_to_1, Py.slice_from_1.
  destruct l as [|a l]; [reflexivity|].
  simpl firstn. simpl tl. rewrite length_app, repeat_interleave_2_length.
  simpl length. lia.
Qed.

Lemma duplicate_sigmas_cons (a : R) (l : list R) :
  duplicate_sigmas (a :: l ++ [0]) = a :: Paddle.repeat_interleave_2 l ++ [0].
Proof.
  unfold duplicate_sigmas, Py.slice_to_1, Py.slice_1_to_last, Py.slice_from_last.
  simpl firstn. simpl tl. rewrite removelast_last.
  replace (length (a :: l ++ [0%R]) - 1)%nat with (length (a :: l)).
  - change (a :: l ++ [0]) with ((a :: l) ++ [0]).
    rewrite skipn_app, skipn_all, Nat.sub_diag. reflexivity.
  - simpl. rewrite length_app. simpl. lia.
Qed.

Lemma duplicate_sigmas_length (l : list R) :
  l <> [] -> length (duplicate_sigmas (l ++ [0])) = (2 * length l)%nat.
Proof.
  destruct l as [|a l]; [congruence|]. intros _.
  change ((a :: l) ++ [0]) with (a :: l ++ [0]).
  rewrite duplicate_sigmas_cons. simpl length.
  rewrite length_app, repeat_interleave_2_length. simpl. lia.
Qed.

Lemma duplicate_timesteps_cons (a : R) (l : list R) :
  duplicate_timesteps (a :: l) = a :: Paddle.repeat_interleave_2 l.
Proof. reflexivity. Qed.

(** [set_timesteps] in terms of the schedule it selects. *)
Lemma set_timesteps_eq (n : Z) (t : option Z) (self : HeunDiscreteScheduler) :
  set_timesteps n t self =
  match selected_schedule (with_num_inference_steps self n) t with
  | Ok (sel_sigmas, sel_timesteps) =>
      (Ok tt, rebuilt (with_num_inference_steps self n) sel_sigmas sel_timesteps)
  | Raise e => (Raise e, with_num_inference_steps self n)
  end.
Proof.
  unfold set_timesteps, selected_schedule.
  fold (with_num_inference_steps self n).
  set (s1 := with_num_inference_steps self n).
  destruct (Np.linspace 0 _ _) as [ts|e]; simpl; [|reflexivity].
  destruct (Np.interp _ _ _) as [sg|e]; simpl; [|reflexivity].
  destruct (get_use_karras_sigmas s1); simpl; [|reflexivity].
  destruct (_convert_to_karras _ _) as [ks|e]; simpl; [|reflexivity].
  destruct (rmap _ ks) as [kt|e]; simpl; reflexivity.
Qed.

End ScheduleShape.

(** ** The selected schedule *)

Lemma cumsum_from_length (acc : Z) (l : list bool) :
  length (Np.cumsum_from acc l) = length l.
Proof.
  revert acc. induction l as [|b l IH]; intros acc; simpl; [reflexivity|].
  now rewrite IH.
Qed.

Lemma argmax_from_range (best besti i : Z) (l : list Z) :
  let r := Np.argmax_from best besti i l in
  r = besti \/ (i <= r < i + Z.of_nat (length l))%Z.
Proof.
  revert best besti i. induction l as [|x l IH]; intros best besti i; simpl.
  - now left.
  - destruct (best <? x)%Z.
    + destruct (IH x i (i + 1)%Z) as [-> | H]; right; lia.
    + destruct (IH best besti (i + 1)%Z) as [-> | H]; [now left|right; lia].
Qed.

Lemma argmax_ok (l : list Z) :
  l <> [] -> exists am, Np.argmax l = Ok am /\ (0 <= am < Z.of_nat (length l))%Z.
Proof.
  destruct l as [|x l]; [congruence|]. intros _.
  eexists. split; [reflexivity|].
  destruct (argmax_from_range x 0 1 l) as [-> | H]; simpl length; lia.
Qed.

Lemma getitem_ok {A : Type} (l : list A) (i : Z) :
  (- Z.of_nat (length l) <= i < Z.of_nat (length l))%Z ->
  exists a, Py.getitem l i = Ok a.
Proof.
  intros Hi. destruct l as [|d l]; [simpl in Hi; lia|].
  destruct (Z.ltb_spec i 0).
  - eexists. apply (getitem_neg _ _ d). lia.
  - eexists. apply (getitem_nth _ _ d). lia.
Qed.

Section SelectedSchedule.

Context {TL : TensorLib}.

Lemma sigma_to_t_ok (sigma : R) (log_sigmas : list R) :
  log_sigmas <> [] -> exists t, _sigma_to_t sigma log_sigmas = Ok t.
Proof.
  intros Hne. unfold _sigma_to_t.
  set (mask := map _ (map _ log_sigmas)).
  destruct (argmax_ok (Np.cumsum mask)) as [am [-> Ham]].
  { unfold Np.cumsum. intros E. apply (f_equal (@length Z)) in E.
    rewrite cumsum_from_length in E. unfold mask in E.
    rewrite !length_map in E. destruct log_sigmas; [congruence|discriminate]. }
  unfold Np.cumsum in Ham. rewrite cumsum_from_length in Ham.
  unfold mask in Ham. rewrite !length_map in Ham.
  simpl rbind.
  destruct (getitem_ok log_sigmas (Z.min am (Z.of_nat (length log_sigmas) - 2)))
    as [low ->]; [lia|].
  destruct (getitem_ok log_sigmas (Z.min am (Z.of_nat (length log_sigmas) - 2) + 1))
    as [high ->]; [lia|].
  simpl. eauto.
Qed.

Lemma convert_to_karras_ok (in_sigmas : list R) (n : Z) :
  in_sigmas <> [] -> (0 <= n)%Z ->
  exists ks, _convert_to_karras in_sigmas n = Ok ks /\ length ks = Z.to_nat n.
Proof.
  intros Hne Hn. unfold _convert_to_karras.
  rewrite (getitem_last in_sigmas 0 Hne), (getitem_first in_sigmas 0 Hne).
  simpl rbind. unfold Np.linspace.
  destruct (Z.ltb_spec n 0); [lia|]. simpl rbind.
  eexists. split; [reflexivity|].
  now rewrite length_map, linspace_values_length.
Qed.

Lemma train_sigmas_length (self : HeunDiscreteScheduler) :
  length (train_sigmas self) = length (alphas_cumprod self).
Proof. unfold train_sigmas. now rewrite length_map. Qed.

Lemma arange_length (n : nat) : length (Np.arange n) = n.
Proof. unfold Np.arange. now rewrite length_map, length_seq. Qed.

Lemma interp_ok (xs fp : list R) :
  fp <> [] ->
  Np.interp xs (Np.arange (length fp)) fp = Ok (map (Np.interp1 (Np.arange (length fp)) fp) xs).
Proof.
  intros Hne. unfold Np.interp.
  destruct (Np.arange (length fp)) eqn:E.
  - apply (f_equal (@length R)) in E. rewrite arange_length in E.
    destruct fp; [congruence|discriminate].
  - rewrite <- E, arange_length, Nat.eqb_refl. reflexivity.
Qed.

Lemma interp_raise (xs fp : list R) :
  Np.interp xs (Np.arange (length fp)) fp = Raise ValueError -> fp = [].
Proof.
  destruct fp as [|f fp]; [reflexivity|].
  rewrite interp_ok by discriminate. discriminate.
Qed.

(** Whatever [set_timesteps] selects has [num_inference_steps] sigmas and as
    many timesteps. *)
Lemma selected_schedule_lengths (self : HeunDiscreteScheduler) (t : option Z)
      (sg ts : list R) :
  selected_schedule self t = Ok (sg, ts) ->
  (0 <= num_inference_steps self)%Z
  /\ length sg = Z.to_nat (num_inference_steps self)
  /\ length ts = Z.to_nat (num_inference_steps self)
  /\ alphas_cumprod self <> [].
Proof.
  unfold selected_schedule.
  destruct (Np.linspace 0 _ _) as [l|e] eqn:El; simpl; [|discriminate].
  apply np_linspace_ok in El. destruct El as [Hn ->].
  destruct (Np.interp _ _ _) as [sg0|e] eqn:Ei; simpl; [|discriminate].
  assert (Hacp : alphas_cumprod self <> []).
  { intros E. unfold train_sigmas in Ei. rewrite E in Ei. discriminate. }
  rewrite interp_ok in Ei.
  2:{ intros E. apply (f_equal (@length R)) in E.
      rewrite train_sigmas_length in E. destruct (alphas_cumprod self); [congruence|discriminate]. }
  injection Ei as <-.
  destruct (get_use_karras_sigmas self).
  - destruct (_convert_to_karras _ _) as [ks|e] eqn:Ek; simpl; [|discriminate].
    destruct (rmap _ ks) as [kt|e] eqn:Er; simpl; [|discriminate].
    intros [= <- <-].
    assert (Hks : length ks = Z.to_nat (num_inference_steps self)).
    { unfold _convert_to_karras in Ek.
      destruct (Py.getitem _ (-1)); [|discriminate]. simpl in Ek.
      destruct (Py.getitem _ 0); [|discriminate]. simpl in Ek.
      destruct (Np.linspace 0 1 _) as [ramp|] eqn:Er'; [|discriminate]. simpl in Ek.
      apply np_linspace_ok in Er'. destruct Er' as [_ ->].
      injection Ek as <-. now rewrite length_map, linspace_values_length. }
    apply rmap_length in Er. repeat split; congruence || assumption.
  - intros [= <- <-]. unfold Py.reversed.
    rewrite length_map, length_rev, linspace_values_length.
    repeat split; assumption || reflexivity.
Qed.

(** With at least one inference step and a non-empty training schedule the
    selection returns. *)
Lemma selected_schedule_ok (self : HeunDiscreteScheduler) (t : option Z) :
  alphas_cumprod self <> [] -> (1 <= num_inference_steps self)%Z ->
  exists sg ts, selected_schedule self t = Ok (sg, ts).
Proof.
  intros Hacp Hn. unfold selected_schedule, Np.linspace.
  destruct (Z.ltb_spec (num_inference_steps self) 0); [lia|]. simpl rbind.
  assert (Hts : train_sigmas self <> []).
  { intros E. apply (f_equal (@length R)) in E. rewrite train_sigmas_length in E.
    destruct (alphas_cumprod self); [congruence|discriminate]. }
  rewrite interp_ok by assumption. simpl rbind.
  destruct (get_use_karras_sigmas self); [|eauto].
  destruct (convert_to_karras_ok
              (map (Np.interp1 (Np.arange (length (train_sigmas self))) (train_sigmas self))
                   (Py.reversed (Np.linspace_values 0
                      (IZR (Py.or_int t (num_train_timesteps (config self)) - 1))
                      (Z.to_nat (num_inference_steps self)))))
              (num_inference_steps self)) as [ks [Ek Hks]]; [|lia|].
  { intros E. apply (f_equal (@length R)) in E. unfold Py.reversed in E.
    rewrite length_map, length_rev, linspace_values_length in E. simpl in E. lia. }
  unfold Np.linspace in Ek.
  destruct (Z.ltb_spec (num_inference_steps self) 0); [lia|].
  rewrite Ek. simpl rbind.
  destruct (rmap_ok (fun sigma => _sigma_to_t sigma (map ln (train_sigmas self))) ks)
    as [kt ->].
  - intros a _. apply sigma_to_t_ok. intros E. apply Hts.
    destruct (train_sigmas self); [reflexivity|discriminate].
  - simpl. eauto.
Qed.

End SelectedSchedule.

(** ** Running the methods *)

Section Running.

Context {TL : TensorLib}.

Lemma index_for_timestep_run (t : R) (o : option (list R)) (self : HeunDiscreteScheduler) :
  index_for_timestep t o self =
  (Py.getitem (Paddle.nonzero_eq (match o with None => timesteps self | Some ts => ts end) t)
              (if state_in_first_order self then (-1)%Z else 0%Z),
   self).
Proof. reflexivity. Qed.

(** [step] in the predictor phase. *)
Lemma step_first_order (mo : Tensor) (t : R) (x : Tensor) (rd : bool)
      (self : HeunDiscreteScheduler) :
  state_in_first_order self = true ->
  step mo t x rd self =
  match Py.getitem (Paddle.nonzero_eq (timesteps self) t) (-1) with
  | Raise e => (Raise e, self)
  | Ok i =>
      match Py.getitem (sigmas self) i with
      | Raise e => (Raise e, self)
      | Ok sigma =>
          match Py.getitem (sigmas self) (i + 1) with
          | Raise e => (Raise e, self)
          | Ok sigma_next =>
              match pred_original (prediction_type (config self)) mo x
                                  (sigma * IZR (0 + 1)) with
              | Raise e => (Raise e, self)
              | Ok pred =>
                  let derivative := t_div (t_sub x pred) (t_scalar (sigma * IZR (0 + 1))) in
                  let dt_ := sigma_next - sigma * IZR (0 + 1) in
                  (Ok (wrap_output rd (t_add x (t_mul derivative (t_scalar dt_)))),
                   stored_state self derivative dt_ x)
              end
          end
      end
  end.
Proof.
  intros Hfo. unfold step, bind, index_for_timestep, get_self, lift, put_self, ret.
  cbv beta. unfold bind. rewrite Hfo.
  destruct (Py.getitem (Paddle.nonzero_eq _ _) _) as [i|e]; [|reflexivity].
  destruct (Py.getitem (sigmas self) i) as [sigma|e]; [|reflexivity]. simpl rbind.
  destruct (Py.getitem (sigmas self) (i + 1)) as [sigma_next|e]; [|reflexivity].
  simpl rbind. cbn [fst snd].
  destruct (pred_original _ _ _ _) as [pred|e]; reflexivity.
Qed.

(** [step] in the corrector phase. *)
Lemma step_second_order (mo : Tensor) (t : R) (x : Tensor) (rd : bool)
      (self : HeunDiscreteScheduler) :
  state_in_first_order self = false ->
  step mo t x rd self =
  match Py.getitem (Paddle.nonzero_eq (timesteps self) t) 0 with
  | Raise e => (Raise e, self)
  | Ok i =>
      match Py.getitem (sigmas self) (i - 1) with
      | Raise e => (Raise e, self)
      | Ok sigma =>
          match Py.getitem (sigmas self) i with
          | Raise e => (Raise e, self)
          | Ok sigma_next =>
              match pred_original (prediction_type (config self)) mo x sigma_next with
              | Raise e => (Raise e, self)
              | Ok pred =>
                  match prev_derivative self with
                  | None => (Raise TypeError, self)
                  | Some stored_derivative =>
                      let derivative :=
                        t_div (t_add stored_derivative
                                     (t_div (t_sub x pred) (t_scalar sigma_next)))
                              (t_scalar 2) in
                      match sample self, dt self with
                      | Some x0, Some dt0 =>
                          (Ok (wrap_output rd (t_add x0 (t_mul derivative (t_scalar dt0)))),
                           cleared_state self)
                      | _, _ => (Raise TypeError, cleared_state self)
                      end
                  end
              end
          end
      end
  end.
Proof.
  intros Hfo. unfold step, bind, index_for_timestep, get_self, lift, put_self, ret, raise.
  cbv beta. unfold bind. rewrite Hfo.
  destruct (Py.getitem (Paddle.nonzero_eq _ _) _) as [i|e]; [|reflexivity].
  destruct (Py.getitem (sigmas self) (i - 1)) as [sigma|e]; [|reflexivity]. simpl rbind.
  destruct (Py.getitem (sigmas self) i) as [sigma_next|e]; [|reflexivity].
  simpl rbind. cbn [fst snd].
  destruct (pred_original _ _ _ _) as [pred|e]; [|reflexivity].
  destruct (prev_derivative self); [|reflexivity].
  unfold stored_sample.
  destruct (sample self); [|reflexivity].
  destruct (dt self); reflexivity.
Qed.

(** [scale_model_input] and [add_noise] leave the object as it is. *)
Lemma scale_model_input_state (x : Tensor) (t : R) (self : HeunDiscreteScheduler) :
  snd (scale_model_input x t self) = self.
Proof.
  unfold scale_model_input, bind. rewrite index_for_timestep_run.
  destruct (Py.getitem _ _); [|reflexivity].
  unfold get_self, lift, ret.
  destruct (Py.getitem (sigmas self) a); reflexivity.
Qed.

Lemma mmap_index_state (sched : list R) (ts : list R) (self : HeunDiscreteScheduler) :
  mmap (fun t => index_for_timestep t (Some sched)) ts self =
  (rmap (fun t => Py.getitem (Paddle.nonzero_eq sched t)
                             (if state_in_first_order self then (-1)%Z else 0%Z)) ts,
   self).
Proof.
  induction ts as [|t ts IH]; [reflexivity|].
  cbn [mmap rmap]. unfold bind at 1. rewrite index_for_timestep_run.
  destruct (Py.getitem _ _) as [i|e]; [|reflexivity].
  unfold bind. rewrite IH. simpl rbind.
  destruct (rmap _ ts); reflexivity.
Qed.

(** [add_noise] without the monad. *)
Lemma add_noise_run (original noise : Tensor) (ts : list R) (self : HeunDiscreteScheduler) :
  add_noise original noise ts self =
  (let? step_indices :=
     rmap (fun t => Py.getitem (Paddle.nonzero_eq (timesteps self) t)
                               (if state_in_first_order self then (-1)%Z else 0%Z)) ts in
   let? sigma := rmap (Py.getitem (sigmas self)) step_indices in
   Ok (t_add original
             (t_mul noise
                    (t_make (unsqueeze_to_rank [length sigma] (length (t_shape original)))
                            sigma))),
   self).
Proof.
  unfold add_noise, bind, get_self. rewrite mmap_index_state.
  destruct (rmap _ ts) as [idx|e]; [|reflexivity]. simpl rbind.
  unfold lift, ret.
  destruct (rmap (Py.getitem (sigmas self)) idx); reflexivity.
Qed.

Lemma add_noise_state (original noise : Tensor) (ts : list R) (self : HeunDiscreteScheduler) :
  snd (add_noise original noise ts self) = self.
Proof. rewrite add_noise_run. reflexivity. Qed.

End Running.

(** ** The invariant of reachable states *)

Section Invariant.

Context {TL : TensorLib}.

Lemma rebuilt_lengths (sg ts : list R) :
  length sg = length ts ->
  (length (duplicate_timesteps ts) < length (duplicate_sigmas (sg ++ [0%R])))%nat.
Proof.
  intros Hlen. rewrite duplicate_timesteps_length.
  destruct sg as [|a sg].
  - destruct ts; [|discriminate]. simpl. lia.
  - rewrite duplicate_sigmas_length by discriminate. rewrite <- Hlen. simpl length. lia.
Qed.

Lemma rebuilt_consistent (self : HeunDiscreteScheduler) (sg ts : list R) :
  length sg = length ts -> alphas_cumprod self <> [] ->
  consistent (rebuilt self sg ts).
Proof.
  intros Hlen Hacp. unfold consistent, rebuilt. cbn.
  split; [now apply rebuilt_lengths|].
  split; [assumption|].
  split; [tauto|congruence].
Qed.

Lemma set_timesteps_ok_consistent (n : Z) (t : option Z) (self self' : HeunDiscreteScheduler) :
  set_timesteps n t self = (Ok tt, self') -> consistent self'.
Proof.
  rewrite set_timesteps_eq.
  destruct (selected_schedule _ t) as [[sg ts]|e] eqn:E; [|discriminate].
  intros [= <-]. apply selected_schedule_lengths in E.
  destruct E as (_ & Hsg & Hts & Hacp).
  apply rebuilt_consistent; [congruence|assumption].
Qed.

Lemma set_timesteps_consistent (n : Z) (t : option Z) (self self' : HeunDiscreteScheduler)
      (r : result unit) :
  consistent self -> set_timesteps n t self = (r, self') -> consistent self'.
Proof.
  intros Hc. destruct r as [[]|e].
  - apply set_timesteps_ok_consistent.
  - rewrite set_timesteps_eq.
    destruct (selected_schedule _ t) as [[sg ts]|e']; [discriminate|].
    intros [= _ <-]. exact Hc.
Qed.

Lemma step_consistent (mo : Tensor) (t : R) (x : Tensor) (rd : bool)
      (self self' : HeunDiscreteScheduler) (r : result StepOutput) :
  consistent self -> step mo t x rd self = (r, self') -> consistent self'.
Proof.
  intros Hc. destruct (state_in_first_order self) eqn:Hfo.
  - rewrite step_first_order by assumption.
    destruct (Py.getitem _ _); [|now intros [= _ <-]].
    destruct (Py.getitem _ _); [|now intros [= _ <-]].
    destruct (Py.getitem _ _); [|now intros [= _ <-]].
    destruct (pred_original _ _ _ _); [|now intros [= _ <-]].
    intros [= _ <-]. destruct Hc as (H1 & H2 & H3 & H4).
    unfold consistent, stored_state. cbn.
    repeat split; try assumption; congruence.
  - assert (Hcl : consistent (cleared_state self)).
    { destruct Hc as (H1 & H2 & H3 & H4). unfold consistent, cleared_state. cbn.
      repeat split; try assumption; congruence. }
    rewrite step_second_order by assumption.
    destruct (Py.getitem _ _); [|now intros [= _ <-]].
    destruct (Py.getitem _ _); [|now intros [= _ <-]].
    destruct (Py.getitem _ _); [|now intros [= _ <-]].
    destruct (pred_original _ _ _ _); [|now intros [= _ <-]].
    destruct (prev_derivative self); [|now intros [= _ <-]].
    destruct (sample self); [|now intros [= _ <-]].
    destruct (dt self); now intros [= _ <-].
Qed.

Lemma init_consistent (cfg : SchedulerConfig) (self : HeunDiscreteScheduler) :
  __init__ cfg = Ok self -> consistent self.
Proof.
  unfold __init__. destruct (make_betas cfg) as [b|e]; [|discriminate]. simpl rbind.
  destruct (set_timesteps _ _ _) as [[[]|e] s1] eqn:E; [|discriminate].
  intros [= <-]. apply set_timesteps_ok_consistent in E.
  destruct E as (H1 & H2 & H3 & H4). unfold consistent. cbn.
  repeat split; tauto.
Qed.

Theorem reachable_consistent (self : HeunDiscreteScheduler) :
  reachable self -> consistent self.
Proof.
  induction 1 as [cfg s Hi | s n t r s' _ IH Hs | s mo t x rd r s' _ IH Hs
                 | s x t r s' _ IH Hs | s o nz ts r s' _ IH Hs].
  - eapply init_consistent; eassumption.
  - eapply set_timesteps_consistent; eassumption.
  - eapply step_consistent; eassumption.
  - pose proof (scale_model_input_state x t s) as E. rewrite Hs in E. simpl in E.
    now subst.
  - pose proof (add_noise_state o nz ts s) as E. rewrite Hs in E. simpl in E.
    now subst.
Qed.

(** A timestep that is present resolves to an index at which both
    [sigmas[i]] and [sigmas[i + 1]] exist. *)
Lemma matches_at_sigmas (self : HeunDiscreteScheduler) (t : R) (i : Z) :
  consistent self -> matches_at (timesteps self) t i ->
  (0 <= i)%Z /\ (i + 1 < Z.of_nat (length (sigmas self)))%Z.
Proof.
  intros (H1 & _) [Hi _]. lia.
Qed.

End Invariant.

(** ** The two phases of [step] *)

Section StepPhases.

Context {TL : TensorLib}.

Lemma pred_original_ok (pt : string) (mo x : Tensor) (sigma_input : R) :
  pt = "epsilon"%string \/ pt = "v_prediction"%string ->
  exists pred, pred_original pt mo x sigma_input = Ok pred.
Proof.
  intros [-> | ->]; unfold pred_original; simpl; eauto.
Qed.

Lemma gamma_is_0 (sigma : R) : sigma * IZR (0 + 1) = sigma.
Proof. change (IZR (0 + 1)) with 1. apply Rmult_1_r. Qed.

Lemma step_predictor (self : HeunDiscreteScheduler) (mo : Tensor) (t : R)
      (x : Tensor) (rd : bool) :
  consistent self -> In t (timesteps self) ->
  prediction_type (config self) = "epsilon"%string
  \/ prediction_type (config self) = "v_prediction"%string ->
  state_in_first_order self = true ->
  predictor_step self mo t x rd.
Proof.
  intros Hc Hin Hpt Hfo.
  destruct (nonzero_eq_last _ _ Hin) as [i [Hget Hlast]].
  destruct (matches_at_sigmas self t i Hc (proj1 Hlast)) as [Hi0 Hi1].
  pose proof (getitem_nth (sigmas self) i 0 ltac:(lia)) as Hs.
  pose proof (getitem_nth (sigmas self) (i + 1) 0 ltac:(lia)) as Hsn.
  set (sigma := nth (Z.to_nat i) (sigmas self) 0) in *.
  set (sigma_next := nth (Z.to_nat (i + 1)) (sigmas self) 0) in *.
  destruct (pred_original_ok _ mo x sigma Hpt) as [pred Hpred].
  exists i, sigma, sigma_next, pred.
  repeat (split; [assumption|]).
  cbv zeta. rewrite step_first_order by assumption.
  rewrite Hget, Hs, Hsn, gamma_is_0, Hpred. cbv zeta.
  eexists _, _. split; [reflexivity|].
  unfold wrap_output. destruct rd; cbn; repeat split; reflexivity.
Qed.

Lemma step_corrector (self : HeunDiscreteScheduler) (mo : Tensor) (t : R)
      (x : Tensor) (rd : bool) :
  consistent self -> In t (timesteps self) ->
  prediction_type (config self) = "epsilon"%string
  \/ prediction_type (config self) = "v_prediction"%string ->
  state_in_first_order self = false ->
  corrector_step self mo t x rd.
Proof.
  intros Hc Hin Hpt Hfo.
  destruct (nonzero_eq_first _ _ Hin) as [i [Hget Hfirst]].
  destruct (matches_at_sigmas self t i Hc (proj1 Hfirst)) as [Hi0 Hi1].
  pose proof (getitem_nth (sigmas self) i 0 ltac:(lia)) as Hsn.
  destruct (getitem_ok (sigmas self) (i - 1) ltac:(lia)) as [sigma Hs].
  set (sigma_next := nth (Z.to_nat i) (sigmas self) 0) in *.
  destruct (pred_original_ok _ mo x sigma_next Hpt) as [pred Hpred].
  destruct Hc as (_ & _ & Hdt & Hsample).
  unfold state_in_first_order in Hfo.
  destruct (dt self) as [dt0|] eqn:Edt; [|discriminate].
  destruct (prev_derivative self) as [d0|] eqn:Ed;
    [|exfalso; assert (Some dt0 = None) by (apply Hdt; reflexivity); discriminate].
  destruct (sample self) as [x0|] eqn:Ex; [|exfalso; apply Hsample; congruence].
  exists i, sigma_next, pred, d0, dt0, x0.
  repeat (split; [assumption || reflexivity|]).
  cbv zeta. rewrite step_second_order by (unfold state_in_first_order; now rewrite Edt).
  rewrite Hget, Hs, Hsn, Hpred, Ed, Ex, Edt.
  eexists _, _. split; [reflexivity|].
  unfold wrap_output. destruct rd; cbn; repeat split; reflexivity.
Qed.

(** A step at a timestep that is present returns. *)
Lemma step_returns (self : HeunDiscreteScheduler) (mo : Tensor) (t : R)
      (x : Tensor) (rd : bool) :
  consistent self -> In t (timesteps self) ->
  prediction_type (config self) = "epsilon"%string
  \/ prediction_type (config self) = "v_prediction"%string ->
  exists out self', step mo t x rd self = (Ok out, self').
Proof.
  intros Hc Hin Hpt. destruct (state_in_first_order self) eqn:Hfo.
  - destruct (step_predictor self mo t x rd Hc Hin Hpt Hfo)
      as (i & sg & sn & pred & _ & _ & _ & _ & out & s' & Hstep & _).
    eauto.
  - destruct (step_corrector self mo t x rd Hc Hin Hpt Hfo)
      as (i & sn & pred & d0 & dt0 & x0 & _ & _ & _ & _ & _ & _ & out & s' & Hstep & _).
    eauto.
Qed.

(** A step that returns flips the phase. *)
Lemma step_flips_phase (self self' : HeunDiscreteScheduler) (mo : Tensor) (t : R)
      (x : Tensor) (rd : bool) (out : StepOutput) :
  step mo t x rd self = (Ok out, self') ->
  state_in_first_order self' = negb (state_in_first_order self).
Proof.
  destruct (state_in_first_order self) eqn:Hfo.
  - rewrite step_first_order by assumption.
    destruct (Py.getitem _ _); [|discriminate].
    destruct (Py.getitem _ _); [|discriminate].
    destruct (Py.getitem _ _); [|discriminate].
    destruct (pred_original _ _ _ _); [|discriminate].
    now intros [= _ <-].
  - rewrite step_second_order by assumption.
    destruct (Py.getitem _ _); [|discriminate].
    destruct (Py.getitem _ _); [|discriminate].
    destruct (Py.getitem _ _); [|discriminate].
    destruct (pred_original _ _ _ _); [|discriminate].
    destruct (prev_derivative self); [|discriminate].
    destruct (sample self); [|discriminate].
    destruct (dt self); [|discriminate].
    now intros [= _ <-].
Qed.

End StepPhases.

(** The example scheduler. *)
Lemma example_constructed : __init__ example_config = Ok example_scheduler.
Proof. reflexivity. Qed.

Lemma example_reachable : reachable example_scheduler.
Proof. exact (reach_init example_config example_scheduler example_constructed). Qed.

Lemma example_timesteps : timesteps example_scheduler = [1; 0; 0].
Proof. run_scheduler. list_of_reals. Qed.

Lemma example_prediction_type :
  prediction_type (config example_scheduler) = "epsilon"%string.
Proof. reflexivity. Qed.

(* ================================================================== *)
(** * The claims *)

(** C1.  The formulas of the Heun step.  On a scheduler in any state it can
    reach, for a timestep that is among the configured timesteps and a
    prediction type [epsilon] or [v_prediction]: in the predictor phase
    (nothing stored) [step] returns [sample + derivative * dt] with
    [derivative = (sample - pred_original) / sigma] and
    [dt = sigma_next - sigma], and stores the derivative, [dt] and the sample;
    in the corrector phase it returns
    [stored_sample + ((stored_derivative + (sample - pred_original) / sigma_next) / 2) * stored_dt]
    and clears the three stored values. *)
Theorem heun_step_formulas {TL : TensorLib} (self : HeunDiscreteScheduler)
        (model_output : Tensor) (timestep : R) (x : Tensor) (return_dict : bool) :
  reachable self ->
  In timestep (timesteps self) ->
  prediction_type (config self) = "epsilon"%string
  \/ prediction_type (config self) = "v_prediction"%string ->
  (state_in_first_order self = true ->
   predictor_step self model_output timestep x return_dict)
  /\ (state_in_first_order self = false ->
      corrector_step self model_output timestep x return_dict).
Proof.
  intros Hr Hin Hpt. apply reachable_consistent in Hr. split; intros Hfo.
  - now apply step_predictor.
  - now apply step_corrector.
Qed.

Lemma heun_step_formulas_witness :
  reachable example_scheduler
  /\ In 1 (timesteps example_scheduler)
  /\ (state_in_first_order example_scheduler = true ->
      predictor_step example_scheduler (2 : @Tensor scalar_tensors) 1
                     (3 : @Tensor scalar_tensors) true)
  /\ (state_in_first_order example_scheduler = false ->
      corrector_step example_scheduler (2 : @Tensor scalar_tensors) 1
                     (3 : @Tensor scalar_tensors) true).
Proof.
  assert (Hin : In 1 (timesteps example_scheduler)).
  { rewrite example_timesteps. now left. }
  split; [exact example_reachable|]. split; [exact Hin|].
  exact (heun_step_formulas example_scheduler 2 1 3 true example_reachable Hin
                            (or_introl example_prediction_type)).
Defined.

(** C5.  A timestep that equals no entry of the configured timesteps makes
    [step] raise IndexError, which is a LookupError; no index is picked in
    its place, in either phase, and the object is left as it was. *)
Theorem step_unknown_timestep_LookupError {TL : TensorLib} (self : HeunDiscreteScheduler)
        (model_output : Tensor) (timestep : R) (x : Tensor) (return_dict : bool) :
  ~ In timestep (timesteps self) ->
  exists e, step model_output timestep x return_dict self = (Raise e, self)
            /\ is_LookupError e = true.
Proof.
  intros Hn. exists IndexError. split; [|reflexivity].
  destruct (state_in_first_order self) eqn:Hfo.
  - rewrite step_first_order by assumption.
    now rewrite (nonzero_eq_absent _ _ Hn), getitem_nil.
  - rewrite step_second_order by assumption.
    now rewrite (nonzero_eq_absent _ _ Hn), getitem_nil.
Qed.

Lemma step_unknown_timestep_LookupError_witness :
  ~ In (1 / 2) (timesteps example_scheduler)
  /\ exists e, step (2 : @Tensor scalar_tensors) (1 / 2) (3 : @Tensor scalar_tensors)
                    true example_scheduler = (Raise e, example_scheduler)
               /\ is_LookupError e = true.
Proof.
  assert (Hn : ~ In (1 / 2) (timesteps example_scheduler)).
  { rewrite example_timesteps. simpl. intros [H|[H|[H|[]]]]; lra. }
  split; [exact Hn|].
  exact (step_unknown_timestep_LookupError example_scheduler 2 (1 / 2) 3 true Hn).
Defined.

(** C8.  Phase parity.  After [k] calls of [step] that returned since the
    last [set_timesteps], the scheduler is in the predictor phase
    ([state_in_first_order]) exactly when [k] is even and in the corrector
    phase exactly when [k] is odd; and the stored derivative is absent exactly
    when the stored [dt] is, which is what the phase flag reads. *)
Theorem phase_parity {TL : TensorLib} (k : nat) (self : HeunDiscreteScheduler) :
  calls_since_set_timesteps k self ->
  (state_in_first_order self = true <-> Nat.even k = true)
  /\ (state_in_first_order self = false <-> Nat.odd k = true)
  /\ (prev_derivative self = None <-> dt self = None)
  /\ (state_in_first_order self = true <-> prev_derivative self = None).
Proof.
  intros H.
  assert (Hpar : state_in_first_order self = Nat.even k /\ reachable self).
  { induction H as [cfg s Hi | k s n t s' _ [IH Hr] Hs | k s n t e s' _ [IH Hr] Hs
                   | k s mo t x rd out s' _ [IH Hr] Hs | k s x t r s' _ [IH Hr] Hs
                   | k s o nz ts r s' _ [IH Hr] Hs].
    - split; [|eapply reach_init; eassumption].
      unfold __init__ in Hi. destruct (make_betas cfg); [|discriminate]. simpl in Hi.
      destruct (set_timesteps _ _ _) as [[[]|e] s1] eqn:E; [|discriminate].
      injection Hi as <-. rewrite set_timesteps_eq in E.
      destruct (selected_schedule _ _) as [[sg ts]|]; [|discriminate].
      injection E as <-. reflexivity.
    - split; [|eapply reach_set_timesteps; eassumption].
      rewrite set_timesteps_eq in Hs.
      destruct (selected_schedule _ _) as [[sg ts]|]; [|discriminate].
      injection Hs as <-. reflexivity.
    - split; [|eapply reach_set_timesteps; eassumption].
      rewrite set_timesteps_eq in Hs.
      destruct (selected_schedule _ _) as [[sg ts]|]; [discriminate|].
      injection Hs as _ <-. exact IH.
    - split; [|eapply reach_step; eassumption].
      rewrite (step_flips_phase _ _ _ _ _ _ _ Hs), IH, Nat.even_succ.
      now rewrite <- Nat.negb_even.
    - split; [|eapply reach_scale_model_input; eassumption].
      pose proof (scale_model_input_state x t s) as E. rewrite Hs in E. simpl in E.
      now subst.
    - split; [|eapply reach_add_noise; eassumption].
      pose proof (add_noise_state o nz ts s) as E. rewrite Hs in E. simpl in E.
      now subst. }
  destruct Hpar as [Hpar Hr]. apply reachable_consistent in Hr.
  destruct Hr as (_ & _ & Hdt & _).
  split; [rewrite Hpar; tauto|].
  split; [rewrite Hpar, <- Nat.negb_even; destruct (Nat.even k); simpl; intuition congruence|].
  split; [tauto|].
  unfold state_in_first_order in *. destruct (dt self).
  - split; [discriminate|]. intros E. apply Hdt in E. discriminate.
  - split; [intros _; now apply Hdt|reflexivity].
Qed.

Lemma phase_parity_witness :
  exists self : @HeunDiscreteScheduler scalar_tensors,
    calls_since_set_timesteps 2 self
    /\ (state_in_first_order self = true <-> Nat.even 2 = true)
    /\ (state_in_first_order self = false <-> Nat.odd 2 = true)
    /\ (prev_derivative self = None <-> dt self = None)
    /\ (state_in_first_order self = true <-> prev_derivative self = None).
Proof.
  pose proof (reachable_consistent _ example_reachable) as Hc0.
  assert (Hin0 : In 1 (timesteps example_scheduler)).
  { rewrite example_timesteps. now left. }
  destruct (step_predictor example_scheduler (2 : @Tensor scalar_tensors) 1
                           (3 : @Tensor scalar_tensors) true Hc0 Hin0
                           (or_introl example_prediction_type) eq_refl)
    as (i & sg & sn & pred & _ & _ & _ & _ & out1 & s1 & Hstep1 & _ & _ & _ & _ & Hts1 & _).
  assert (Hr1 : reachable s1) by (eapply reach_step; [exact example_reachable|exact Hstep1]).
  assert (Hin1 : In 0 (timesteps s1)).
  { rewrite Hts1, example_timesteps. right. now left. }
  assert (Hpt1 : prediction_type (config s1) = "epsilon"%string).
  { rewrite step_first_order in Hstep1 by reflexivity.
    destruct (Py.getitem _ _); [|discriminate].
    destruct (Py.getitem _ _); [|discriminate].
    destruct (Py.getitem _ _); [|discriminate].
    destruct (pred_original _ _ _ _); [|discriminate].
    injection Hstep1 as _ <-. reflexivity. }
  destruct (step_returns s1 (2 : @Tensor scalar_tensors) 0 (5 : @Tensor scalar_tensors) true
                         (reachable_consistent _ Hr1) Hin1 (or_introl Hpt1))
    as (out2 & s2 & Hstep2).
  assert (H2 : calls_since_set_timesteps 2 s2).
  { eapply since_step; [|exact Hstep2].
    eapply since_step; [|exact Hstep1].
    exact (since_init example_config example_scheduler example_constructed). }
  exists s2. split; [exact H2|]. exact (phase_parity 2 s2 H2).
Defined.


(** ** [set_timesteps] on a reachable scheduler *)

Section SetTimesteps.

Context {TL : TensorLib}.

Lemma set_timesteps_returns (self : HeunDiscreteScheduler) (n : Z) (t : option Z) :
  alphas_cumprod self <> [] -> (1 <= n)%Z ->
  exists s0 ss t0 ts,
    selected_schedule (with_num_inference_steps self n) t = Ok (s0 :: ss, t0 :: ts)
    /\ length ss = Z.to_nat (n - 1)
    /\ length ts = Z.to_nat (n - 1)
    /\ set_timesteps n t self =
       (Ok tt, rebuilt (with_num_inference_steps self n) (s0 :: ss) (t0 :: ts)).
Proof.
  intros Hacp Hn.
  destruct (selected_schedule_ok (with_num_inference_steps self n) t Hacp Hn)
    as (sg & tl & Hsel).
  destruct (selected_schedule_lengths _ _ _ _ Hsel) as (_ & Hsg & Htl & _).
  cbn [num_inference_steps with_num_inference_steps] in Hsg, Htl.
  destruct sg as [|s0 ss]; [simpl in Hsg; lia|].
  destruct tl as [|t0 ts]; [simpl in Htl; lia|].
  exists s0, ss, t0, ts. simpl length in Hsg, Htl.
  repeat split; [assumption|lia|lia|].
  rewrite set_timesteps_eq, Hsel. reflexivity.
Qed.

Lemma rebuilt_sigmas (self : HeunDiscreteScheduler) (s0 : R) (ss ts : list R) :
  sigmas (rebuilt self (s0 :: ss) ts) = s0 :: Paddle.repeat_interleave_2 ss ++ [0].
Proof. cbn [sigmas rebuilt]. apply (duplicate_sigmas_cons s0 ss). Qed.

Lemma rebuilt_timesteps (self : HeunDiscreteScheduler) (sg : list R) (t0 : R) (ts : list R) :
  timesteps (rebuilt self sg (t0 :: ts)) = t0 :: Paddle.repeat_interleave_2 ts.
Proof. reflexivity. Qed.

Lemma set_timesteps_negative (self : HeunDiscreteScheduler) (n : Z) (t : option Z) :
  (n < 0)%Z ->
  set_timesteps n t self = (Raise ValueError, with_num_inference_steps self n).
Proof.
  intros Hn. rewrite set_timesteps_eq. unfold selected_schedule, Np.linspace.
  cbn [num_inference_steps with_num_inference_steps].
  destruct (Z.ltb_spec n 0); [reflexivity|lia].
Qed.

Lemma set_timesteps_zero_karras (self : HeunDiscreteScheduler) (t : option Z) :
  alphas_cumprod self <> [] -> get_use_karras_sigmas self = true ->
  set_timesteps 0 t self = (Raise IndexError, with_num_inference_steps self 0).
Proof.
  intros Hacp Hk. rewrite set_timesteps_eq. unfold selected_schedule.
  cbn [num_inference_steps with_num_inference_steps]. simpl Np.linspace. simpl rbind.
  change (train_sigmas (with_num_inference_steps self 0)) with (train_sigmas self).
  rewrite interp_ok.
  - simpl rbind.
    change (get_use_karras_sigmas (with_num_inference_steps self 0))
      with (get_use_karras_sigmas self).
    rewrite Hk. reflexivity.
  - intros E. apply (f_equal (@length R)) in E. rewrite train_sigmas_length in E.
    destruct (alphas_cumprod self); [congruence|discriminate].
Qed.

End SetTimesteps.

(** C7, as the code has it.  On a reachable scheduler [set_timesteps] with
    [num_inference_steps >= 1] returns, rebuilds [sigmas] and [timesteps] from
    the schedule it selects and leaves [prev_derivative] and [dt] at [None].
    It makes no check of [num_inference_steps]; a value below [1] fails where
    a library call happens to fail.  A negative value raises the ValueError
    of [np.linspace].  With Karras sigmas, [0] raises the IndexError of
    [in_sigmas[-1]] on the empty array of interpolated sigmas, a LookupError.
    In both cases the schedule and the stored derivative and [dt] are what
    they were. *)
Theorem set_timesteps_rebuilds_and_resets {TL : TensorLib} (self : HeunDiscreteScheduler)
        (n : Z) (t : option Z) :
  reachable self ->
  ((1 <= n)%Z ->
   exists sel_sigmas sel_timesteps self',
     set_timesteps n t self = (Ok tt, self')
     /\ selected_schedule (with_num_inference_steps self n) t = Ok (sel_sigmas, sel_timesteps)
     /\ sigmas self' = duplicate_sigmas (sel_sigmas ++ [0])
     /\ timesteps self' = duplicate_timesteps sel_timesteps
     /\ length (timesteps self') = Z.to_nat (2 * n - 1)
     /\ length (sigmas self') = Z.to_nat (2 * n)
     /\ num_inference_steps self' = n
     /\ prev_derivative self' = None
     /\ dt self' = None
     /\ state_in_first_order self' = true)
  /\ ((n < 0)%Z ->
      exists self', set_timesteps n t self = (Raise ValueError, self')
                    /\ prev_derivative self' = prev_derivative self
                    /\ dt self' = dt self
                    /\ timesteps self' = timesteps self
                    /\ sigmas self' = sigmas self)
  /\ (n = 0%Z -> get_use_karras_sigmas self = true ->
      exists self', set_timesteps n t self = (Raise IndexError, self')
                    /\ is_LookupError IndexError = true
                    /\ prev_derivative self' = prev_derivative self
                    /\ dt self' = dt self
                    /\ timesteps self' = timesteps self
                    /\ sigmas self' = sigmas self).
Proof.
  intros Hr. apply reachable_consistent in Hr. destruct Hr as (_ & Hacp & _).
  split; [|split].
  - intros Hn.
    destruct (set_timesteps_returns self n t Hacp Hn)
      as (s0 & ss & t0 & ts & Hsel & Hss & Hts & Hset).
    exists (s0 :: ss), (t0 :: ts). eexists. split; [exact Hset|].
    split; [exact Hsel|].
    split; [reflexivity|]. split; [reflexivity|].
    split.
    { rewrite rebuilt_timesteps. simpl length.
      rewrite repeat_interleave_2_length, Hts. lia. }
    split.
    { rewrite rebuilt_sigmas. simpl length.
      rewrite length_app, repeat_interleave_2_length, Hss. simpl length. lia. }
    repeat split.
  - intros Hn. rewrite set_timesteps_negative by assumption.
    eexists. repeat split.
  - intros -> Hk. rewrite set_timesteps_zero_karras by assumption.
    eexists. repeat split.
Qed.

Lemma set_timesteps_rebuilds_and_resets_witness :
  reachable example_scheduler
  /\ exists self', set_timesteps 3 None example_scheduler = (Ok tt, self')
                   /\ length (timesteps self') = 5%nat
                   /\ dt self' = None.
Proof.
  split; [exact example_reachable|].
  assert (H3 : (1 <= 3)%Z) by lia.
  destruct (proj1 (set_timesteps_rebuilds_and_resets example_scheduler 3 None
                                                      example_reachable) H3)
    as (sg & ts & s' & Hset & _ & _ & _ & Hlen & _ & _ & _ & Hdt & _).
  exists s'. repeat split; assumption.
Defined.

(** C6, as the code has it.  Without explicit betas, a [beta_schedule] other
    than [linear], [scaled_linear] and [squaredcos_cap_v2] makes [__init__]
    raise NotImplementedError.  Explicit betas bypass the generation whatever
    [beta_schedule] says and become [self.betas] as they are; their length is
    not compared with [num_train_timesteps], and with at least one beta and
    one training timestep the construction returns. *)
Theorem init_beta_schedule {TL : TensorLib} (cfg : SchedulerConfig) :
  (trained_betas cfg = None ->
   beta_schedule cfg <> "linear"%string ->
   beta_schedule cfg <> "scaled_linear"%string ->
   beta_schedule cfg <> "squaredcos_cap_v2"%string ->
   __init__ cfg = Raise NotImplementedError)
  /\ (forall tb, trained_betas cfg = Some tb ->
       make_betas cfg = Ok tb
       /\ (forall self, __init__ cfg = Ok self -> betas self = tb)
       /\ (tb <> [] -> (1 <= num_train_timesteps cfg)%Z ->
           exists self, __init__ cfg = Ok self /\ betas self = tb)).
Proof.
  split.
  - intros Htb H1 H2 H3. unfold __init__, make_betas. rewrite Htb.
    apply String.eqb_neq in H1, H2, H3. rewrite H1, H2, H3. reflexivity.
  - intros tb Htb.
    assert (Hmk : make_betas cfg = Ok tb) by (unfold make_betas; now rewrite Htb).
    split; [exact Hmk|]. split.
    + intros self. unfold __init__. rewrite Hmk. simpl rbind.
      destruct (set_timesteps _ _ _) as [[[]|e] s1] eqn:E; [|discriminate].
      intros [= <-]. cbn [betas]. rewrite set_timesteps_eq in E.
      destruct (selected_schedule _ _) as [[sg ts]|]; [|discriminate].
      injection E as <-. reflexivity.
    + intros Hne HT. unfold __init__. rewrite Hmk. simpl rbind.
      match goal with |- context [set_timesteps ?n ?t ?s] =>
        destruct (set_timesteps_returns s n t) as (s0 & ss & t0 & ts & _ & _ & _ & ->)
      end.
      * cbn [alphas_cumprod]. unfold Paddle.cumprod.
        destruct tb; [congruence|discriminate].
      * exact HT.
      * eexists. split; reflexivity.
Qed.

(** C6 as stated fails: one explicit beta for two training timesteps is
    accepted. *)
Lemma init_accepts_betas_of_another_length :
  exists self : @HeunDiscreteScheduler scalar_tensors,
    __init__ mismatch_config = Ok self
    /\ betas self = [1 / 2]
    /\ length (betas self) = 1%nat
    /\ num_train_timesteps (config self) = 2%Z.
Proof. eexists. split; [reflexivity|]. repeat split. Qed.

(** C2, as the code has it.  For [num_inference_steps >= 3] on a reachable
    scheduler, with [s0 :: ss] the selected sigmas and [t0 :: ts] the selected
    timesteps ([num_inference_steps] of each): the rebuilt sigmas are [s0],
    then every other selected sigma twice in a row, then the appended [0.0]
    once; the rebuilt timesteps are [t0] once, then every other selected
    timestep twice in a row, the last one included. *)
Theorem duplication_rule {TL : TensorLib} (self : HeunDiscreteScheduler)
        (n : Z) (t : option Z) :
  reachable self ->
  (3 <= n)%Z ->
  exists s0 ss t0 ts self',
    set_timesteps n t self = (Ok tt, self')
    /\ selected_schedule (with_num_inference_steps self n) t = Ok (s0 :: ss, t0 :: ts)
    /\ length (s0 :: ss) = Z.to_nat n
    /\ length (t0 :: ts) = Z.to_nat n
    /\ sigmas self' = [s0] ++ Paddle.repeat_interleave_2 ss ++ [0]
    /\ timesteps self' = [t0] ++ Paddle.repeat_interleave_2 ts.
Proof.
  intros Hr Hn. apply reachable_consistent in Hr. destruct Hr as (_ & Hacp & _).
  assert (H1 : (1 <= n)%Z) by lia.
  destruct (set_timesteps_returns self n t Hacp H1)
    as (s0 & ss & t0 & ts & Hsel & Hss & Hts & Hset).
  exists s0, ss, t0, ts. eexists. split; [exact Hset|]. split; [exact Hsel|].
  split; [simpl length; lia|]. split; [simpl length; lia|].
  split; [apply rebuilt_sigmas|apply rebuilt_timesteps].
Qed.

Lemma duplication_rule_witness :
  reachable example_scheduler
  /\ (3 <= 3)%Z
  /\ exists t0 ts self',
      set_timesteps 3 None example_scheduler = (Ok tt, self')
      /\ timesteps self' = [t0] ++ Paddle.repeat_interleave_2 ts.
Proof.
  assert (H3 : (3 <= 3)%Z) by lia.
  split; [exact example_reachable|]. split; [exact H3|].
  destruct (duplication_rule example_scheduler 3 None example_reachable H3)
    as (s0 & ss & t0 & ts & s' & Hset & _ & _ & _ & _ & Hts).
  exists t0, ts, s'. split; assumption.
Defined.

(** C2 as stated fails for the timesteps: with three inference steps the
    selected timesteps are [1, 1/2, 0] and the rebuilt ones hold the last of
    them, [0], twice. *)
Lemma last_timestep_is_duplicated :
  exists self',
    set_timesteps 3 None example_scheduler = (Ok tt, self')
    /\ timesteps self' = [1; 1 / 2; 1 / 2; 0; 0]
    /\ count_occ Req_dec_T (timesteps self') 0 = 2%nat.
Proof.
  eexists. split; [reflexivity|].
  assert (E : timesteps (snd (set_timesteps 3 None example_scheduler)) = [1; 1 / 2; 1 / 2; 0; 0]).
  { run_scheduler. list_of_reals. }
  split; [exact E|].
  change (count_occ Req_dec_T (timesteps (snd (set_timesteps 3 None example_scheduler))) 0 = 2%nat).
  rewrite E. simpl. decide_reals. reflexivity.
Qed.


(** ** [__init__] *)

Section Init.

Context {TL : TensorLib}.

(** [__init__] in terms of the schedule that its call of [set_timesteps]
    selects. *)
Lemma init_eq (cfg : SchedulerConfig) (self : HeunDiscreteScheduler) :
  __init__ cfg = Ok self ->
  exists b sg ts,
    make_betas cfg = Ok b
    /\ selected_schedule
         (with_num_inference_steps (initial_self cfg b) (num_train_timesteps cfg))
         (Some (num_train_timesteps cfg)) = Ok (sg, ts)
    /\ self = with_use_karras_sigmas
                (rebuilt (with_num_inference_steps (initial_self cfg b)
                                                   (num_train_timesteps cfg)) sg ts)
                (use_karras_sigmas cfg).
Proof.
  unfold __init__. destruct (make_betas cfg) as [b|e]; [|discriminate]. simpl rbind.
  fold (initial_self cfg b).
  rewrite set_timesteps_eq.
  destruct (selected_schedule _ _) as [[sg ts]|e] eqn:E; [|discriminate].
  intros [= <-]. exists b, sg, ts. split; [reflexivity|]. split; [exact E|reflexivity].
Qed.

Lemma init_config (cfg : SchedulerConfig) (self : HeunDiscreteScheduler) :
  __init__ cfg = Ok self -> config self = cfg.
Proof.
  intros H. destruct (init_eq cfg self H) as (b & sg & ts & _ & _ & ->). reflexivity.
Qed.


End Init.

(** ** [np.linspace] and [np.interp] on the integer grid *)


Lemma interp_search_cons (x x0 x1 f0 f1 : R) (xp fp : list R) :
  Np.interp_search x (x0 :: x1 :: xp) (f0 :: f1 :: fp) =
  if Rlt_dec x x1 then (f1 - f0) / (x1 - x0) * (x - x0) + f0
  else Np.interp_search x (x1 :: xp) (f1 :: fp).
Proof. reflexivity. Qed.

Lemma interp_search_knot (j k m : nat) (fp : list R) :
  length fp = m -> (k <= j < k + m)%nat ->
  Np.interp_search (INR j) (map INR (seq k m)) fp = nth (j - k) fp 0.
Proof.
  revert k fp. induction m as [|m IH]; intros k fp Hlen Hj; [lia|].
  destruct fp as [|f0 fp]; [discriminate|]. simpl in Hlen. injection Hlen as Hlen.
  destruct m as [|m].
  - simpl. replace (j - k)%nat with 0%nat by lia. reflexivity.
  - destruct fp as [|f1 fp]; [discriminate|].
    change (map INR (seq k (S (S m)))) with (INR k :: INR (S k) :: map INR (seq (S (S k)) m)).
    rewrite interp_search_cons.
    destruct (Rlt_dec (INR j) (INR (S k))) as [Hlt|Hge].
    + apply INR_lt in Hlt. assert (j = k) by lia. subst j.
      rewrite Nat.sub_diag. simpl nth. unfold Rminus. rewrite Rplus_opp_r, Rmult_0_r.
      apply Rplus_0_l.
    + assert (S k <= j)%nat.
      { destruct (Nat.lt_ge_cases j (S k)) as [Hlt|Hle]; [|exact Hle].
        exfalso. apply Hge. apply lt_INR. exact Hlt. }
      change (INR (S k) :: map INR (seq (S (S k)) m)) with (map INR (seq (S k) (S m))).
      rewrite IH; [|exact Hlen|lia].
      replace (j - k)%nat with (S (j - S k)) by lia. reflexivity.
Qed.

Lemma arange_hd (n : nat) : (1 <= n)%nat -> hd 0 (Np.arange n) = 0.
Proof. destruct n; [lia|reflexivity]. Qed.

Lemma arange_last (n : nat) : (1 <= n)%nat -> last (Np.arange n) 0 = INR (n - 1).
Proof.
  intros Hn. unfold Np.arange. destruct n; [lia|].
  rewrite seq_S, map_app. simpl map. rewrite last_last.
  f_equal. lia.
Qed.

(** On the integer knots [np.interp] returns the value of the knot. *)
Lemma interp1_knot (fp : list R) (j : nat) :
  (j < length fp)%nat -> Np.interp1 (Np.arange (length fp)) fp (INR j) = nth j fp 0.
Proof.
  intros Hj. unfold Np.interp1.
  rewrite arange_hd, arange_last by lia.
  destruct (Rle_dec (INR j) 0) as [H0|H0].
  - assert (j = 0)%nat.
    { destruct j; [reflexivity|]. exfalso. pose proof (lt_0_INR (S j) ltac:(lia)). lra. }
    subst j. destruct fp; [simpl in Hj; lia|reflexivity].
  - destruct (Rle_dec (INR (length fp - 1)) (INR j)) as [H1|H1].
    + apply INR_le in H1. replace j with (length fp - 1)%nat by lia.
      symmetry. apply nth_pred_length_last.
    + unfold Np.arange. rewrite interp_search_knot by lia.
      now rewrite Nat.sub_0_r.
Qed.


(** ** The loop of [add_noise] *)

Lemma unsqueeze_to_rank_eq (shape : list nat) (rank : nat) :
  unsqueeze_to_rank shape rank = shape ++ repeat 1%nat (rank - length shape).
Proof.
  funelim (unsqueeze_to_rank shape rank).
  - rewrite H. rewrite length_app. simpl length.
    replace (rank - length shape)%nat with (S (rank - (length shape + 1))) by lia.
    simpl repeat. now rewrite <- app_assoc.
  - replace (rank - length shape)%nat with 0%nat by lia. simpl. now rewrite app_nil_r.
Qed.

Lemma rmap_Forall2 {A B : Type} (f : A -> result B) (P : A -> B -> Prop) (l : list A) :
  (forall a, In a l -> exists b, f a = Ok b /\ P a b) ->
  exists l', rmap f l = Ok l' /\ Forall2 P l l'.
Proof.
  induction l as [|a l IH]; intros H.
  - exists []. split; [reflexivity|constructor].
  - destruct (H a (or_introl eq_refl)) as (b & Hb & Pb).
    destruct IH as (l' & Hl' & HP); [intros; apply H; now right|].
    exists (b :: l'). split; [simpl; now rewrite Hb, Hl'|now constructor].
Qed.

Section Lookups.

Context {TL : TensorLib}.

Lemma index_for_timestep_returns (self : HeunDiscreteScheduler) (t : R) :
  In t (timesteps self) ->
  exists i, index_for_timestep t None self = (Ok i, self)
            /\ index_for_timestep t (Some (timesteps self)) self = (Ok i, self)
            /\ picked_index self t i.
Proof.
  intros Hin. rewrite !index_for_timestep_run. unfold picked_index.
  destruct (state_in_first_order self).
  - destruct (nonzero_eq_last _ _ Hin) as (i & -> & Hi). eauto.
  - destruct (nonzero_eq_first _ _ Hin) as (i & -> & Hi). eauto.
Qed.

Lemma picked_index_matches (self : HeunDiscreteScheduler) (t : R) (i : Z) :
  picked_index self t i -> matches_at (timesteps self) t i.
Proof.
  unfold picked_index. destruct (state_in_first_order self); intros [H _]; exact H.
Qed.

Lemma scale_model_input_returns (self : HeunDiscreteScheduler) (x : Tensor) (t : R) :
  consistent self -> In t (timesteps self) ->
  exists i sigma,
    picked_index self t i
    /\ Py.getitem (sigmas self) i = Ok sigma
    /\ scale_model_input x t self = (Ok (t_div x (t_scalar (sqrt (sigma ^ 2 + 1)))), self).
Proof.
  intros Hc Hin. destruct (index_for_timestep_returns self t Hin) as (i & Hi & _ & Hp).
  destruct (matches_at_sigmas self t i Hc (picked_index_matches _ _ _ Hp)) as [H0 H1].
  pose proof (getitem_nth (sigmas self) i 0 ltac:(lia)) as Hs.
  exists i, (nth (Z.to_nat i) (sigmas self) 0). split; [exact Hp|]. split; [exact Hs|].
  unfold scale_model_input, bind. rewrite Hi. unfold get_self, lift. rewrite Hs.
  reflexivity.
Qed.

Lemma add_noise_returns (self : HeunDiscreteScheduler) (original noise : Tensor)
      (ts : list R) :
  consistent self -> (forall t, In t ts -> In t (timesteps self)) ->
  exists sigma,
    Forall2 (resolved_sigma self) ts sigma
    /\ add_noise original noise ts self =
       (Ok (t_add original
                  (t_mul noise
                         (t_make ([length ts] ++ repeat 1%nat (length (t_shape original) - 1))
                                 sigma))),
        self).
Proof.
  intros Hc Hts. rewrite add_noise_run.
  destruct (rmap_Forall2
              (fun t => Py.getitem (Paddle.nonzero_eq (timesteps self) t)
                                   (if state_in_first_order self then (-1)%Z else 0%Z))
              (picked_index self) ts) as (idx & -> & Hidx).
  { intros t Ht. destruct (index_for_timestep_returns self t (Hts t Ht)) as (i & Hi & _ & Hp).
    rewrite index_for_timestep_run in Hi. injection Hi as Hi. eauto. }
  simpl rbind.
  assert (Hsig : exists sigma, rmap (Py.getitem (sigmas self)) idx = Ok sigma
                               /\ Forall2 (resolved_sigma self) ts sigma).
  { clear Hts. induction Hidx as [|t i ts idx Hp _ IH].
    - exists []. split; [reflexivity|constructor].
    - destruct IH as (sigma & Hs & HF).
      destruct (matches_at_sigmas self t i Hc (picked_index_matches _ _ _ Hp)) as [H0 H1].
      pose proof (getitem_nth (sigmas self) i 0 ltac:(lia)) as Hg.
      exists (nth (Z.to_nat i) (sigmas self) 0 :: sigma). split.
      + simpl. now rewrite Hg, Hs.
      + constructor; [|exact HF]. exists i. split; assumption. }
  destruct Hsig as (sigma & -> & HF). simpl rbind.
  exists sigma. split; [exact HF|].
  rewrite unsqueeze_to_rank_eq. simpl length at 2.
  apply Forall2_length in HF. rewrite <- HF. reflexivity.
Qed.


End Lookups.

(** ** The schedule without Karras sigmas *)

Section NoKarras.

Context {TL : TensorLib}.

Lemma selected_schedule_no_karras (self : HeunDiscreteScheduler) (t : option Z) :
  get_use_karras_sigmas self = false -> alphas_cumprod self <> [] ->
  (0 <= num_inference_steps self)%Z ->
  let lin := Np.linspace_values 0
               (IZR (Py.or_int t (num_train_timesteps (config self)) - 1))
               (Z.to_nat (num_inference_steps self)) in
  selected_schedule self t =
  Ok (map (Np.interp1 (Np.arange (length (train_sigmas self))) (train_sigmas self)) (rev lin),
      rev lin).
Proof.
  intros Hk Hacp Hn lin. unfold selected_schedule, Np.linspace.
  destruct (Z.ltb_spec (num_inference_steps self) 0); [lia|]. simpl rbind.
  rewrite interp_ok.
  - simpl rbind. rewrite Hk. reflexivity.
  - intros E. apply (f_equal (@length R)) in E. rewrite train_sigmas_length in E.
    destruct (alphas_cumprod self); [congruence|discriminate].
Qed.

Lemma or_int_same (n : Z) : Py.or_int (Some n) n = n.
Proof. unfold Py.or_int. now destruct (n =? 0)%Z. Qed.


End NoKarras.



(** ** Duplicated positions hold one sigma (without Karras sigmas) *)

Section Aligned.

Context {TL : TensorLib}.

Lemma repeat_interleave_2_map (f : R -> R) (l : list R) :
  Paddle.repeat_interleave_2 (map f l) = map f (Paddle.repeat_interleave_2 l).
Proof.
  unfold Paddle.repeat_interleave_2. induction l as [|a l IH]; [reflexivity|].
  simpl. now rewrite IH.
Qed.

Lemma rebuilt_aligned (self : HeunDiscreteScheduler) (f : R -> R) (ts : list R) :
  aligned (rebuilt self (map f ts) ts).
Proof.
  unfold aligned. cbn [sigmas timesteps rebuilt]. destruct ts as [|t0 ts].
  - exists f, [0; 0]. reflexivity.
  - exists f, [0].
    change (map f (t0 :: ts) ++ [0]) with (f t0 :: map f ts ++ [0]).
    rewrite duplicate_sigmas_cons, duplicate_timesteps_cons, repeat_interleave_2_map.
    reflexivity.
Qed.

Lemma selected_schedule_aligned (self : HeunDiscreteScheduler) (t : option Z)
      (sg ts : list R) :
  get_use_karras_sigmas self = false ->
  selected_schedule self t = Ok (sg, ts) ->
  exists f, sg = map f ts.
Proof.
  intros Hk Hsel.
  pose proof (selected_schedule_lengths _ _ _ _ Hsel) as (Hn & _ & _ & Hacp).
  rewrite selected_schedule_no_karras in Hsel by assumption.
  injection Hsel as <- <-. eauto.
Qed.

Lemma step_keeps_schedule (self self' : HeunDiscreteScheduler) (mo : Tensor) (t : R)
      (x : Tensor) (rd : bool) (r : result StepOutput) :
  step mo t x rd self = (r, self') ->
  timesteps self' = timesteps self /\ sigmas self' = sigmas self
  /\ get_use_karras_sigmas self' = get_use_karras_sigmas self.
Proof.
  destruct (state_in_first_order self) eqn:Hfo.
  - rewrite step_first_order by assumption.
    destruct (Py.getitem _ _); [|now intros [= _ <-]].
    destruct (Py.getitem _ _); [|now intros [= _ <-]].
    destruct (Py.getitem _ _); [|now intros [= _ <-]].
    destruct (pred_original _ _ _ _); now intros [= _ <-].
  - rewrite step_second_order by assumption.
    destruct (Py.getitem _ _); [|now intros [= _ <-]].
    destruct (Py.getitem _ _); [|now intros [= _ <-]].
    destruct (Py.getitem _ _); [|now intros [= _ <-]].
    destruct (pred_original _ _ _ _); [|now intros [= _ <-]].
    destruct (prev_derivative self); [|now intros [= _ <-]].
    destruct (sample self); [|now intros [= _ <-]].
    destruct (dt self); now intros [= _ <-].
Qed.

Lemma reachable_aligned (self : HeunDiscreteScheduler) :
  reachable self -> get_use_karras_sigmas self = false -> aligned self.
Proof.
  induction 1 as [cfg s Hi | s n t r s' _ IH Hs | s mo t x rd r s' _ IH Hs
                 | s x t r s' _ IH Hs | s o nz ts r s' _ IH Hs]; intros Hk.
  - destruct (init_eq cfg s Hi) as (b & sg & ts & _ & Hsel & ->).
    destruct (selected_schedule_aligned _ _ _ _ Hk Hsel) as [f ->].
    destruct (rebuilt_aligned (with_num_inference_steps (initial_self cfg b)
                                                        (num_train_timesteps cfg)) f ts)
      as (f' & rest & E).
    exists f', rest. exact E.
  - rewrite set_timesteps_eq in Hs.
    destruct (selected_schedule _ _) as [[sg ts]|e] eqn:Hsel.
    + injection Hs as _ <-.
      destruct (selected_schedule_aligned _ _ _ _ Hk Hsel) as [f ->].
      apply rebuilt_aligned.
    + injection Hs as _ <-. destruct (IH Hk) as (f & rest & E). exists f, rest. exact E.
  - destruct (step_keeps_schedule _ _ _ _ _ _ _ Hs) as (Et & Es & Ek).
    rewrite Ek in Hk. destruct (IH Hk) as (f & rest & E).
    exists f, rest. now rewrite Et, Es.
  - pose proof (scale_model_input_state x t s) as E. rewrite Hs in E. simpl in E.
    subst. now apply IH.
  - pose proof (add_noise_state o nz ts s) as E. rewrite Hs in E. simpl in E.
    subst. now apply IH.
Qed.

(** Without Karras sigmas, all the positions that hold one timestep hold one
    sigma. *)
Lemma matching_positions_one_sigma (self : HeunDiscreteScheduler) (t : R) (i j : Z) :
  reachable self -> get_use_karras_sigmas self = false ->
  matches_at (timesteps self) t i -> matches_at (timesteps self) t j ->
  Py.getitem (sigmas self) i = Py.getitem (sigmas self) j.
Proof.
  intros Hr Hk Hi Hj. destruct (reachable_aligned self Hr Hk) as (f & rest & E).
  assert (H : forall k, matches_at (timesteps self) t k ->
                        Py.getitem (sigmas self) k = Ok (f t)).
  { intros k [Hk1 Hk2]. rewrite (getitem_nth (sigmas self) k 0).
    - rewrite E, app_nth1 by (rewrite length_map; lia).
      rewrite (nth_indep _ 0 (f 0)) by (rewrite length_map; lia).
      now rewrite map_nth, Hk2.
    - rewrite E, length_app, length_map. lia. }
  now rewrite (H i Hi), (H j Hj).
Qed.

End Aligned.

Lemma example_matches_of_0 : Paddle.nonzero_eq [1; 0; 0] 0 = [1; 2]%Z.
Proof. unfold Paddle.nonzero_eq. simpl. decide_reals. reflexivity. Qed.

(** ** Sorted lists, by positions *)

Lemma strongly_sorted_nth (Rel : R -> R -> Prop) (l : list R) :
  StronglySorted Rel l ->
  forall i j, (i < j < length l)%nat -> Rel (nth i l 0) (nth j l 0).
Proof.
  induction 1 as [|a l Hs IH Hall]; intros i j Hij; [simpl in Hij; lia|].
  destruct j as [|j]; [lia|]. simpl in Hij. destruct i as [|i]; simpl.
  - rewrite Forall_forall in Hall. apply Hall. apply nth_In. lia.
  - apply IH. lia.
Qed.

Lemma strongly_sorted_map (P : R -> Prop) (Rel Rel' : R -> R -> Prop) (g : R -> R)
      (l : list R) :
  (forall x y, P x -> P y -> Rel x y -> Rel' (g x) (g y)) ->
  Forall P l -> StronglySorted Rel l -> StronglySorted Rel' (map g l).
Proof.
  intros Hg HP Hs. induction Hs as [|a l Hs IH Hall]; simpl; [constructor|].
  inversion HP as [|? ? Pa Pl]; subst.
  constructor; [now apply IH|].
  rewrite Forall_forall in *. intros y Hy. apply in_map_iff in Hy.
  destruct Hy as (x & <- & Hx). apply Hg; auto.
Qed.

(** ** The beta schedules *)

Lemma linspace_values_bounds (a b : R) (n : nat) :
  a <= b -> Forall (fun x => a <= x <= b) (Np.linspace_values a b n).
Proof.
  intros Hab. unfold Np.linspace_values.
  destruct n as [|[|n]]; [constructor|constructor; [lra|constructor]|].
  apply Forall_forall. intros x Hx. apply in_map_iff in Hx.
  destruct Hx as (i & <- & Hi). apply in_seq in Hi.
  set (d := INR (S (S n) - 1)).
  assert (Hd : 0 < d) by (apply lt_0_INR; lia).
  assert (Hi0 : 0 <= INR i) by apply pos_INR.
  assert (Hid : INR i <= d) by (apply le_INR; lia).
  set (q := (b - a) / d).
  assert (Hq : 0 <= q).
  { unfold q, Rdiv. apply Rmult_le_pos; [lra|]. left. now apply Rinv_0_lt_compat. }
  assert (Hdq : d * q = b - a) by (unfold q; field; lra).
  nra.
Qed.

Lemma paddle_linspace_ok (a b : R) (n : Z) (l : list R) :
  Paddle.linspace a b n = Ok l ->
  (0 < n)%Z /\ l = Np.linspace_values a b (Z.to_nat n).
Proof.
  unfold Paddle.linspace. destruct (Z.leb_spec n 0); [discriminate|].
  intros [= <-]. split; [lia|reflexivity].
Qed.

Lemma alpha_bar_decreases (t1 t2 : R) :
  0 <= t1 -> t1 < t2 -> t2 <= 1 ->
  0 < alpha_bar t1 /\ 0 <= alpha_bar t2 < alpha_bar t1.
Proof.
  intros H0 H12 H1. unfold alpha_bar.
  pose proof PI_RGT_0 as Hpi.
  set (u1 := (t1 + 0.008) / 1.008). set (u2 := (t2 + 0.008) / 1.008).
  assert (Hu1 : 0 < u1 < 1) by (unfold u1; split; lra).
  assert (Hu2 : 0 < u2 <= 1) by (unfold u2; split; lra).
  assert (Hu12 : u1 < u2) by (unfold u1, u2; lra).
  assert (Ha1 : 0 < u1 * PI / 2 < PI / 2) by nra.
  assert (Ha2 : 0 < u2 * PI / 2 <= PI / 2) by nra.
  assert (Ha12 : u1 * PI / 2 < u2 * PI / 2) by nra.
  assert (Hc1 : 0 < cos (u1 * PI / 2)) by (apply cos_gt_0; lra).
  assert (Hc2 : 0 <= cos (u2 * PI / 2)) by (apply cos_ge_0; lra).
  assert (Hc12 : cos (u2 * PI / 2) < cos (u1 * PI / 2))
    by (apply cos_decreasing_1; lra).
  split; [nra|]. split; nra.
Qed.

Lemma betas_for_alpha_bar_range (n : Z) (max_beta : R) :
  0 < max_beta < 1 ->
  Forall (fun b => 0 < b < 1) (betas_for_alpha_bar n max_beta).
Proof.
  intros Hmax. unfold betas_for_alpha_bar, range.
  apply Forall_forall. intros b Hb. apply in_map_iff in Hb.
  destruct Hb as (i & <- & Hi). apply in_map_iff in Hi.
  destruct Hi as (k & <- & Hk). apply in_seq in Hk.
  assert (Hn : (Z.of_nat k + 1 <= n)%Z) by lia.
  assert (HnR : IZR (Z.of_nat k + 1) <= IZR n) by now apply IZR_le.
  assert (HkR : 0 <= IZR (Z.of_nat k)) by (apply IZR_le; lia).
  assert (Hk1 : IZR (Z.of_nat k) < IZR (Z.of_nat k + 1)) by (apply IZR_lt; lia).
  set (r := / IZR n).
  assert (Hr : 0 < r) by (apply Rinv_0_lt_compat; lra).
  assert (Hnr : IZR n * r = 1) by (unfold r; field; lra).
  destruct (alpha_bar_decreases (IZR (Z.of_nat k) / IZR n) (IZR (Z.of_nat k + 1) / IZR n))
    as (Hab1 & Hab2 & Hab12).
  - unfold Rdiv. fold r. nra.
  - unfold Rdiv. fold r. nra.
  - unfold Rdiv. fold r. nra.
  - set (ab1 := alpha_bar (IZR (Z.of_nat k) / IZR n)) in *.
    set (ab2 := alpha_bar (IZR (Z.of_nat k + 1) / IZR n)) in *.
    set (q := / ab1).
    assert (Hq : 0 < q) by (apply Rinv_0_lt_compat; lra).
    assert (Hq1 : ab1 * q = 1) by (unfold q; field; lra).
    assert (Hratio : 0 <= ab2 / ab1 < 1) by (unfold Rdiv; fold q; nra).
    unfold Rmin. destruct (Rle_dec _ _); lra.
Qed.

Lemma betas_for_alpha_bar_length (n : Z) (max_beta : R) :
  length (betas_for_alpha_bar n max_beta) = Z.to_nat n.
Proof.
  unfold betas_for_alpha_bar, range. now rewrite !length_map, length_seq.
Qed.

Section Betas.

Context {TL : TensorLib}.

(** The generated betas are in the open unit interval, one per training
    timestep. *)
Lemma make_betas_range (cfg : SchedulerConfig) (b : list R) :
  trained_betas cfg = None ->
  0 < beta_start cfg -> beta_start cfg <= beta_end cfg -> beta_end cfg < 1 ->
  make_betas cfg = Ok b ->
  Forall (fun x => 0 < x < 1) b
  /\ ((0 <= num_train_timesteps cfg)%Z -> length b = Z.to_nat (num_train_timesteps cfg)).
Proof.
  intros Htb Hs Hse He. unfold make_betas. rewrite Htb.
  destruct (String.eqb _ "linear").
  { intros Hl. apply paddle_linspace_ok in Hl. destruct Hl as [Hn ->]. split.
    - eapply Forall_impl; [|apply linspace_values_bounds; exact Hse].
      simpl. intros x Hx. lra.
    - intros _. apply linspace_values_length. }
  destruct (String.eqb _ "scaled_linear").
  { destruct (Paddle.linspace _ _ _) as [l|] eqn:Hl; [|discriminate]. simpl.
    intros [= <-]. apply paddle_linspace_ok in Hl. destruct Hl as [Hn ->]. split.
    - apply Forall_forall. intros y Hy. apply in_map_iff in Hy.
      destruct Hy as (x & <- & Hx).
      assert (Hsq : sqrt (beta_start cfg) <= sqrt (beta_end cfg)) by (apply sqrt_le_1; lra).
      pose proof (linspace_values_bounds _ _ (Z.to_nat (num_train_timesteps cfg)) Hsq) as HB.
      rewrite Forall_forall in HB. specialize (HB x Hx).
      assert (H1 : 0 < sqrt (beta_start cfg)) by (apply sqrt_lt_R0; lra).
      assert (H2 : sqrt (beta_start cfg) ^ 2 = beta_start cfg) by (apply pow2_sqrt; lra).
      assert (H3 : sqrt (beta_end cfg) ^ 2 = beta_end cfg) by (apply pow2_sqrt; lra).
      nra.
    - intros _. now rewrite length_map, linspace_values_length. }
  destruct (String.eqb _ "squaredcos_cap_v2"); [|discriminate].
  intros [= <-]. split.
  - apply betas_for_alpha_bar_range. lra.
  - intros _. apply betas_for_alpha_bar_length.
Qed.

End Betas.

(** ** The cumulative product and the training sigmas *)

Lemma cumprod_from_decreasing (acc : R) (l : list R) :
  0 < acc -> Forall (fun a => 0 < a < 1) l ->
  Forall (fun x => 0 < x < acc) (Paddle.cumprod_from acc l)
  /\ StronglySorted Rgt (Paddle.cumprod_from acc l).
Proof.
  revert acc. induction l as [|a l IH]; intros acc Hacc Hl; simpl.
  - split; constructor.
  - inversion Hl as [|? ? Ha Hl']; subst.
    assert (Hp : 0 < acc * a < acc) by nra.
    destruct (IH (acc * a) (proj1 Hp) Hl') as [Hb Hs].
    split.
    + constructor; [exact Hp|]. eapply Forall_impl; [|exact Hb].
      simpl. intros x Hx. lra.
    + constructor; [exact Hs|]. eapply Forall_impl; [|exact Hb].
      simpl. intros x Hx. unfold Rgt. lra.
Qed.

Lemma sigma_of_alpha_decreasing (x y : R) :
  0 < x < 1 -> 0 < y < 1 -> x > y ->
  sqrt ((1 - x) / x) < sqrt ((1 - y) / y).
Proof.
  intros Hx Hy Hxy.
  replace ((1 - x) / x) with (/ x - 1) by (field; lra).
  replace ((1 - y) / y) with (/ y - 1) by (field; lra).
  assert (H1 : / x < / y) by (apply Rinv_lt_contravar; nra).
  assert (H2 : 1 < / x) by (rewrite <- Rinv_1 at 1; apply Rinv_lt_contravar; lra).
  apply sqrt_lt_1; lra.
Qed.

Section GeneratedSchedule.

Context {TL : TensorLib}.

Lemma cumprod_length (l : list R) : length (Paddle.cumprod l) = length l.
Proof.
  unfold Paddle.cumprod. generalize 1. induction l as [|a l IH]; intros acc; simpl.
  - reflexivity.
  - now rewrite IH.
Qed.

(** With a supported [beta_schedule] and at least one training timestep
    [__init__] returns. *)
Lemma init_returns_generated (cfg : SchedulerConfig) :
  trained_betas cfg = None ->
  beta_schedule cfg = "linear"%string \/ beta_schedule cfg = "scaled_linear"%string
  \/ beta_schedule cfg = "squaredcos_cap_v2"%string ->
  (1 <= num_train_timesteps cfg)%Z ->
  exists self, __init__ cfg = Ok self.
Proof.
  intros Htb Hs HT.
  assert (Hb : exists b, make_betas cfg = Ok b /\ length b = Z.to_nat (num_train_timesteps cfg)).
  { unfold make_betas, Paddle.linspace. rewrite Htb.
    destruct (Z.leb_spec (num_train_timesteps cfg) 0); [lia|].
    destruct Hs as [-> | [-> | ->]]; simpl; eexists; (split; [reflexivity|]).
    - apply linspace_values_length.
    - now rewrite length_map, linspace_values_length.
    - apply betas_for_alpha_bar_length. }
  destruct Hb as (b & Hb & Hlen). unfold __init__. rewrite Hb. simpl rbind.
  match goal with |- context [set_timesteps ?n ?t ?s] =>
    destruct (set_timesteps_returns s n t) as (s0 & ss & t0 & ts & _ & _ & _ & ->)
  end.
  - cbn [alphas_cumprod]. intros E. apply (f_equal (@length R)) in E.
    rewrite cumprod_length, length_map, Hlen in E. simpl in E. lia.
  - exact HT.
  - eauto.
Qed.

End GeneratedSchedule.

(** C7 as stated fails: on a scheduler built with Karras sigmas
    [set_timesteps(0)] raises IndexError, a LookupError and neither the
    ValueError nor the NotImplementedError that the scheduler raises for a
    bad configuration; the schedule is not rebuilt, and
    [num_inference_steps] is already [0] when the exception leaves. *)
Lemma set_timesteps_zero_raises_IndexError :
  exists self self' : @HeunDiscreteScheduler scalar_tensors,
    __init__ karras_config = Ok self
    /\ set_timesteps 0 None self = (Raise IndexError, self')
    /\ is_LookupError IndexError = true
    /\ IndexError <> ValueError
    /\ IndexError <> NotImplementedError
    /\ num_inference_steps self = 2%Z
    /\ num_inference_steps self' = 0%Z
    /\ timesteps self' = timesteps self
    /\ sigmas self' = sigmas self.
Proof.
  destruct (init_returns_generated (TL := scalar_tensors) karras_config eq_refl
              (or_introl eq_refl) ltac:(simpl; lia)) as [self Hinit].
  destruct (reachable_consistent self (reach_init karras_config self Hinit))
    as (_ & Hacp & _).
  assert (Hk : get_use_karras_sigmas self = true).
  { destruct (init_eq _ _ Hinit) as (b & sg & ts & _ & _ & ->). reflexivity. }
  assert (Hn : num_inference_steps self = 2%Z).
  { destruct (init_eq _ _ Hinit) as (b & sg & ts & _ & _ & ->). reflexivity. }
  exists self, (with_num_inference_steps self 0).
  split; [exact Hinit|]. split; [exact (set_timesteps_zero_karras self None Hacp Hk)|].
  split; [reflexivity|]. split; [discriminate|]. split; [discriminate|].
  split; [exact Hn|]. repeat split.
Qed.

Section GeneratedFacts.

Context {TL : TensorLib}.

(** What the generated betas give: as many betas as training timesteps, in
    (0,1); cumulative products in (0,1), strictly decreasing. *)
Lemma generated_schedule_facts (cfg : SchedulerConfig) (self : HeunDiscreteScheduler) :
  __init__ cfg = Ok self ->
  trained_betas cfg = None ->
  0 < beta_start cfg -> beta_start cfg <= beta_end cfg -> beta_end cfg < 1 ->
  Z.of_nat (length (betas self)) = num_train_timesteps cfg
  /\ length (alphas_cumprod self) = length (betas self)
  /\ Forall (fun b => 0 < b < 1) (betas self)
  /\ Forall (fun a => 0 < a < 1) (alphas_cumprod self)
  /\ StronglySorted Rgt (alphas_cumprod self).
Proof.
  intros Hinit Htb Hs Hse He.
  destruct (init_eq cfg self Hinit) as (b & sg & ts & Hb & Hsel & ->).
  apply selected_schedule_lengths in Hsel.
  cbn [num_inference_steps with_num_inference_steps] in Hsel. destruct Hsel as (HT & _).
  destruct (make_betas_range cfg b Htb Hs Hse He Hb) as [Hrange Hlen].
  cbn [betas alphas_cumprod with_use_karras_sigmas rebuilt with_num_inference_steps initial_self].
  assert (Halpha : Forall (fun a => 0 < a < 1) (map (fun x => 1 - x) b)).
  { apply Forall_forall. intros a Ha. apply in_map_iff in Ha. destruct Ha as (x & <- & Hx).
    rewrite Forall_forall in Hrange. specialize (Hrange x Hx). lra. }
  destruct (cumprod_from_decreasing 1 (map (fun x => 1 - x) b) Rlt_0_1 Halpha) as [Hunit Hdec].
  fold (Paddle.cumprod (map (fun x => 1 - x) b)) in Hunit, Hdec.
  split; [rewrite (Hlen HT); lia|].
  split; [now rewrite cumprod_length, length_map|].
  repeat split; assumption.
Qed.

Lemma train_sigmas_sorted (self : HeunDiscreteScheduler) :
  Forall (fun a => 0 < a < 1) (alphas_cumprod self) ->
  StronglySorted Rgt (alphas_cumprod self) ->
  StronglySorted Rlt (train_sigmas self) /\ Forall (fun s => 0 < s) (train_sigmas self).
Proof.
  intros Hunit Hdec. unfold train_sigmas. split.
  - apply (strongly_sorted_map (fun a => 0 < a < 1) Rgt Rlt); [|exact Hunit|exact Hdec].
    intros x y Hx Hy Hxy. now apply sigma_of_alpha_decreasing.
  - apply Forall_forall. intros s Hin. apply in_map_iff in Hin.
    destruct Hin as (a & <- & Ha). rewrite Forall_forall in Hunit. specialize (Hunit a Ha).
    apply sqrt_lt_R0. replace ((1 - a) / a) with (/ a - 1) by (field; lra).
    assert (1 < / a) by (rewrite <- Rinv_1 at 1; apply Rinv_lt_contravar; lra). lra.
Qed.

(** The supported beta schedules, with two training timesteps or more, give
    the training sigmas that the Karras conversion needs. *)
Lemma generated_well_ordered (cfg : SchedulerConfig) (self : HeunDiscreteScheduler) :
  __init__ cfg = Ok self ->
  trained_betas cfg = None ->
  0 < beta_start cfg -> beta_start cfg <= beta_end cfg -> beta_end cfg < 1 ->
  (2 <= num_train_timesteps cfg)%Z ->
  well_ordered_training self.
Proof.
  intros Hinit Htb Hs Hse He HT.
  destruct (generated_schedule_facts cfg self Hinit Htb Hs Hse He)
    as (Hlen & Hlen' & _ & Hunit & Hdec).
  destruct (train_sigmas_sorted self Hunit Hdec) as [Hsorted Hpos].
  split; [rewrite train_sigmas_length; lia|]. split; [exact Hpos|].
  intros i j Hij. now apply (strongly_sorted_nth Rlt).
Qed.

End GeneratedFacts.

(** C9.  Schedule monotonicity, in exact real arithmetic.  For every
    configuration with a [beta_schedule] among [linear], [scaled_linear] and
    [squaredcos_cap_v2], [0 < beta_start <= beta_end < 1] and at least one
    training timestep, [__init__] returns a scheduler with exactly
    [num_train_timesteps] betas, each in the open interval (0,1), and as many
    [alphas_cumprod]; [alphas_cumprod] is non-increasing; and the training
    sigmas [sqrt((1 - alphas_cumprod) / alphas_cumprod)] are non-negative and
    strictly increasing with the timestep index. *)
Theorem schedule_monotonicity {TL : TensorLib} (cfg : SchedulerConfig) :
  trained_betas cfg = None ->
  beta_schedule cfg = "linear"%string \/ beta_schedule cfg = "scaled_linear"%string
  \/ beta_schedule cfg = "squaredcos_cap_v2"%string ->
  0 < beta_start cfg -> beta_start cfg <= beta_end cfg -> beta_end cfg < 1 ->
  (1 <= num_train_timesteps cfg)%Z ->
  exists self,
    __init__ cfg = Ok self
    /\ Z.of_nat (length (betas self)) = num_train_timesteps cfg
    /\ Forall (fun b => 0 < b < 1) (betas self)
    /\ length (alphas_cumprod self) = length (betas self)
    /\ length (train_sigmas self) = length (betas self)
    /\ non_increasing (alphas_cumprod self)
    /\ Forall (fun s => 0 <= s) (train_sigmas self)
    /\ strictly_increasing (train_sigmas self).
Proof.
  intros Htb Hkind Hs Hse He HT.
  destruct (init_returns_generated cfg Htb Hkind HT) as [self Hinit].
  exists self. split; [exact Hinit|].
  destruct (generated_schedule_facts cfg self Hinit Htb Hs Hse He)
    as (Hlen & Hlen' & Hrange & Hunit & Hdec).
  destruct (train_sigmas_sorted self Hunit Hdec) as [Hsorted Hpos].
  split; [exact Hlen|]. split; [exact Hrange|]. split; [exact Hlen'|].
  split; [now rewrite train_sigmas_length|]. split; [|split].
  - intros i j Hij. destruct (Nat.eq_dec i j) as [->|Hne]; [lra|].
    left. apply (strongly_sorted_nth Rgt _ Hdec i j). lia.
  - eapply Forall_impl; [|exact Hpos]. simpl. intros s Hs0. lra.
  - intros i j Hij. now apply (strongly_sorted_nth Rlt).
Qed.

Lemma schedule_monotonicity_witness :
  (exists self : @HeunDiscreteScheduler scalar_tensors,
      __init__ cosine_config = Ok self
      /\ betas self = betas_for_alpha_bar 3 0.999
      /\ length (betas self) = 3%nat
      /\ length (train_sigmas self) = 3%nat
      /\ Forall (fun b => 0 < b < 1) (betas self)
      /\ nth 0 (train_sigmas self) 0 < nth 1 (train_sigmas self) 0
         < nth 2 (train_sigmas self) 0)
  /\ (exists self : @HeunDiscreteScheduler scalar_tensors,
        __init__ example_config = Ok self
        /\ length (betas self) = 2%nat
        /\ strictly_increasing (train_sigmas self)).
Proof.
  split.
  - destruct (schedule_monotonicity (TL := scalar_tensors) cosine_config eq_refl
                (or_intror (or_intror eq_refl))
                ltac:(simpl; lra) ltac:(simpl; lra) ltac:(simpl; lra) ltac:(simpl; lia))
      as (self & Hinit & Hlen & Hrange & _ & Hls & _ & _ & Hinc).
    assert (Hl : length (betas self) = 3%nat) by (simpl in Hlen; lia).
    exists self. split; [exact Hinit|]. split.
    { destruct (init_eq _ _ Hinit) as (b & sg & ts & Hb & _ & ->).
      injection Hb as <-. reflexivity. }
    split; [exact Hl|]. split; [now rewrite Hls|]. split; [exact Hrange|].
    split; apply Hinc; rewrite Hls, Hl; lia.
  - destruct (schedule_monotonicity (TL := scalar_tensors) example_config eq_refl
                (or_introl eq_refl)
                ltac:(simpl; lra) ltac:(simpl; lra) ltac:(simpl; lra) ltac:(simpl; lia))
      as (self & Hinit & Hlen & _ & _ & _ & _ & _ & Hinc).
    exists self. split; [exact Hinit|]. split; [simpl in Hlen; lia|exact Hinc].
Defined.

(** ** Descending sequences *)

Lemma strongly_sorted_map_seq (g : nat -> R) (Rel : R -> R -> Prop) (a n : nat) :
  (forall i j, (a <= i < j)%nat -> (j < a + n)%nat -> Rel (g i) (g j)) ->
  StronglySorted Rel (map g (seq a n)).
Proof.
  revert a. induction n as [|n IH]; intros a Hg; simpl; [constructor|].
  constructor.
  - apply IH. intros i j Hij Hj. apply Hg; lia.
  - apply Forall_forall. intros y Hy. apply in_map_iff in Hy.
    destruct Hy as (j & <- & Hj). apply in_seq in Hj. apply Hg; lia.
Qed.

Lemma strongly_sorted_app (Rel : R -> R -> Prop) (l1 l2 : list R) :
  StronglySorted Rel l1 -> StronglySorted Rel l2 ->
  (forall x y, In x l1 -> In y l2 -> Rel x y) ->
  StronglySorted Rel (l1 ++ l2).
Proof.
  intros H1 H2 H12. induction H1 as [|a l1 Hs IH Hall]; simpl; [exact H2|].
  constructor.
  - apply IH. intros x y Hx Hy. apply H12; [now right|exact Hy].
  - apply Forall_app. split; [exact Hall|].
    apply Forall_forall. intros y Hy. apply H12; [now left|exact Hy].
Qed.

Lemma strongly_sorted_rev (l : list R) :
  StronglySorted Rle l -> StronglySorted Rge (rev l).
Proof.
  induction 1 as [|a l Hs IH Hall]; simpl; [constructor|].
  apply strongly_sorted_app; [exact IH|repeat constructor|].
  intros x y Hx Hy. destruct Hy as [<-|[]]. apply in_rev in Hx.
  rewrite Forall_forall in Hall. apply Rle_ge. now apply Hall.
Qed.

Lemma repeat_interleave_2_In (l : list R) (x : R) :
  In x (Paddle.repeat_interleave_2 l) -> In x l.
Proof.
  unfold Paddle.repeat_interleave_2. intros H. apply in_flat_map in H.
  destruct H as (y & Hy & [<-|[<-|[]]]); exact Hy.
Qed.

Lemma repeat_interleave_2_sorted (l : list R) :
  StronglySorted Rge l -> StronglySorted Rge (Paddle.repeat_interleave_2 l).
Proof.
  induction 1 as [|a l Hs IH Hall]; [constructor|].
  change (Paddle.repeat_interleave_2 (a :: l)) with (a :: a :: Paddle.repeat_interleave_2 l).
  assert (Ha : Forall (Rge a) (Paddle.repeat_interleave_2 l)).
  { apply Forall_forall. intros y Hy. apply repeat_interleave_2_In in Hy.
    rewrite Forall_forall in Hall. now apply Hall. }
  constructor; [constructor; assumption|].
  constructor; [apply Rge_refl|exact Ha].
Qed.

Section Descending.

Context {TL : TensorLib}.

Lemma duplicate_timesteps_sorted (l : list R) :
  StronglySorted Rge l -> StronglySorted Rge (duplicate_timesteps l).
Proof.
  intros Hs. destruct l as [|a l]; [constructor|].
  rewrite duplicate_timesteps_cons. inversion Hs as [|? ? Hs' Hall]; subst.
  constructor; [now apply repeat_interleave_2_sorted|].
  apply Forall_forall. intros y Hy. apply repeat_interleave_2_In in Hy.
  rewrite Forall_forall in Hall. now apply Hall.
Qed.

End Descending.

Lemma strongly_sorted_descending (l : list R) :
  StronglySorted Rge l -> descending l.
Proof.
  intros Hs i j Hij. destruct (Nat.eq_dec i j) as [->|Hne]; [lra|].
  apply Rge_le. apply (strongly_sorted_nth Rge l Hs). lia.
Qed.

Lemma linspace_values_sorted (a b : R) (n : nat) :
  a <= b -> StronglySorted Rle (Np.linspace_values a b n).
Proof.
  intros Hab. unfold Np.linspace_values.
  destruct n as [|[|n]]; [constructor|repeat constructor|].
  apply strongly_sorted_map_seq. intros i j Hij _.
  set (d := INR (S (S n) - 1)).
  assert (Hd : 0 < d) by (apply lt_0_INR; lia).
  set (q := (b - a) / d).
  assert (Hq : 0 <= q).
  { unfold q, Rdiv. apply Rmult_le_pos; [lra|]. left. now apply Rinv_0_lt_compat. }
  assert (Hi : INR i <= INR j) by (apply le_INR; lia).
  nra.
Qed.

(** ** [_sigma_to_t] on increasing training sigmas *)

Lemma argmax_from_constant (best besti i : Z) (m : nat) :
  Np.argmax_from best besti i (repeat best m) = besti.
Proof.
  revert i. induction m as [|m IH]; intros i; simpl; [reflexivity|].
  rewrite Z.ltb_irrefl. apply IH.
Qed.

Lemma cumsum_from_false (acc : Z) (m : nat) :
  Np.cumsum_from acc (repeat false m) = repeat acc m.
Proof.
  induction m as [|m IH]; simpl; [reflexivity|].
  rewrite Z.add_0_r. now rewrite IH.
Qed.

Lemma argmax_cumsum_from (acc besti i : Z) (c m : nat) :
  Np.argmax_from acc besti i (Np.cumsum_from acc (repeat true c ++ repeat false m)) =
  match c with
  | O => besti
  | S _ => (i + Z.of_nat c - 1)%Z
  end.
Proof.
  revert acc besti i. induction c as [|c IH]; intros acc besti i.
  - simpl app. rewrite cumsum_from_false. apply argmax_from_constant.
  - cbn [repeat app Np.cumsum_from Np.argmax_from].
    destruct (Z.ltb_spec acc (acc + 1)); [|lia].
    rewrite IH. destruct c; lia.
Qed.

(** On a mask of [c] true entries followed by false ones,
    [cumsum(...).argmax()] is [c - 1], and [0] when [c = 0]. *)
Lemma argmax_cumsum_prefix (c m : nat) :
  (1 <= c + m)%nat ->
  Np.argmax (Np.cumsum (repeat true c ++ repeat false m)) = Ok (Z.max 0 (Z.of_nat c - 1)).
Proof.
  intros Hcm. unfold Np.cumsum. destruct c as [|c].
  - destruct m as [|m]; [lia|].
    cbn [repeat app Np.cumsum_from Np.argmax]. f_equal.
    change (0 + 0)%Z with 0%Z.
    apply (argmax_cumsum_from 0 0 1 0 m).
  - cbn [repeat app Np.cumsum_from Np.argmax]. f_equal.
    change (0 + 1)%Z with 1%Z.
    rewrite (argmax_cumsum_from 1 0 1 c m). destruct c; lia.
Qed.

(** The mask [dists >= 0] over increasing log-sigmas is a prefix. *)
Lemma mask_prefix (L : list R) (x : R) :
  StronglySorted Rlt L ->
  exists c, (c <= length L)%nat
    /\ map (fun d => if Rge_dec d 0 then true else false) (map (fun l => x - l) L)
       = repeat true c ++ repeat false (length L - c)
    /\ (forall i, (i < c)%nat -> nth i L 0 <= x)
    /\ (forall i, (c <= i < length L)%nat -> x < nth i L 0).
Proof.
  induction 1 as [|a L Hs IH Hall].
  - exists 0%nat. simpl. repeat split; intros; lia.
  - destruct (Rge_dec (x - a) 0) as [Hge|Hlt].
    + destruct IH as (c & Hc & Hmask & Hlo & Hhi). exists (S c).
      split; [simpl; lia|]. split; [|split].
      * simpl. destruct (Rge_dec (x - a) 0); [|contradiction]. now rewrite Hmask.
      * intros [|i] Hi; simpl; [lra|]. apply Hlo. lia.
      * intros [|i] Hi; [lia|]. simpl. apply Hhi. simpl in Hi. lia.
    + exists 0%nat. split; [lia|]. split; [|split].
      * assert (Hfalse : forall M, Forall (fun l => x < l) M ->
                  map (fun d => if Rge_dec d 0 then true else false) (map (fun l => x - l) M)
                  = repeat false (length M)).
        { induction 1 as [|l M Hl _ IHM]; [reflexivity|].
          simpl. destruct (Rge_dec (x - l) 0); [lra|]. now rewrite IHM. }
        apply (Hfalse (a :: L)).
        constructor; [lra|]. eapply Forall_impl; [|exact Hall]. simpl. intros l Hl. lra.
      * intros i Hi. lia.
      * intros [|i] Hi; simpl; [lra|].
        rewrite Forall_forall in Hall.
        assert (a < nth i L 0) by (apply Hall, nth_In; simpl in Hi; lia). lra.
Qed.

Lemma clip_unit (w : R) : 0 <= Np.clip w 0 1 <= 1.
Proof.
  unfold Np.clip, Rmin, Rmax.
  destruct (Rle_dec w 0); destruct (Rle_dec _ 1); lra.
Qed.

Lemma clip_monotone (w1 w2 : R) : w1 <= w2 -> Np.clip w1 0 1 <= Np.clip w2 0 1.
Proof.
  intros H. unfold Np.clip, Rmin, Rmax.
  destruct (Rle_dec w1 0); destruct (Rle_dec w2 0);
    repeat match goal with |- context [Rle_dec ?a ?b] => destruct (Rle_dec a b) end; lra.
Qed.

Section SigmaToT.

Context {TL : TensorLib}.

(** [_sigma_to_t] written out: the lower index [k] is the number of
    log-sigmas not above [ln sigma], less one, kept within [0 .. len - 2]. *)
Lemma sigma_to_t_eq (sigma : R) (L : list R) :
  StronglySorted Rlt L -> (2 <= length L)%nat ->
  exists (c k : nat),
    (c <= length L)%nat
    /\ k = Nat.min (c - 1) (length L - 2)
    /\ (forall i, (i < c)%nat -> nth i L 0 <= ln sigma)
    /\ (forall i, (c <= i < length L)%nat -> ln sigma < nth i L 0)
    /\ _sigma_to_t sigma L =
       Ok ((1 - Np.clip ((nth k L 0 - ln sigma) / (nth k L 0 - nth (S k) L 0)) 0 1) * INR k
           + Np.clip ((nth k L 0 - ln sigma) / (nth k L 0 - nth (S k) L 0)) 0 1 * INR (S k)).
Proof.
  intros Hs Hlen. destruct (mask_prefix L (ln sigma) Hs) as (c & Hc & Hmask & Hlo & Hhi).
  exists c, (Nat.min (c - 1) (length L - 2)). split; [exact Hc|]. split; [reflexivity|].
  split; [exact Hlo|]. split; [exact Hhi|].
  unfold _sigma_to_t. rewrite Hmask, argmax_cumsum_prefix by lia. simpl rbind.
  set (k := Nat.min (c - 1) (length L - 2)).
  replace (Z.min (Z.max 0 (Z.of_nat c - 1)) (Z.of_nat (length L) - 2)) with (Z.of_nat k)
    by (unfold k; lia).
  rewrite (getitem_nth L (Z.of_nat k) 0) by (unfold k; lia).
  rewrite (getitem_nth L (Z.of_nat k + 1) 0) by (unfold k; lia).
  simpl rbind. rewrite Nat2Z.id.
  replace (Z.to_nat (Z.of_nat k + 1)) with (S k) by lia.
  rewrite <- INR_IZR_INZ.
  replace (Z.of_nat k + 1)%Z with (Z.of_nat (S k)) by lia.
  rewrite <- INR_IZR_INZ. reflexivity.
Qed.

(** [_sigma_to_t] is non-decreasing in [sigma]. *)
Lemma sigma_to_t_monotone (L : list R) (sigma1 sigma2 t1 t2 : R) :
  StronglySorted Rlt L -> (2 <= length L)%nat ->
  0 < sigma1 -> sigma1 <= sigma2 ->
  _sigma_to_t sigma1 L = Ok t1 -> _sigma_to_t sigma2 L = Ok t2 ->
  t1 <= t2.
Proof.
  intros Hs Hlen Hpos Hle H1 H2.
  assert (Hln : ln sigma1 <= ln sigma2).
  { destruct Hle as [Hlt| ->]; [left; apply ln_increasing; assumption|lra]. }
  destruct (sigma_to_t_eq sigma1 L Hs Hlen) as (c1 & k1 & Hc1 & Hk1 & Hlo1 & Hhi1 & E1).
  destruct (sigma_to_t_eq sigma2 L Hs Hlen) as (c2 & k2 & Hc2 & Hk2 & Hlo2 & Hhi2 & E2).
  rewrite E1 in H1. rewrite E2 in H2. injection H1 as <-. injection H2 as <-.
  change (match k1 with 0%nat => 1 | S _ => INR k1 + 1 end) with (INR (S k1)).
  change (match k2 with 0%nat => 1 | S _ => INR k2 + 1 end) with (INR (S k2)).
  assert (Hc : (c1 <= c2)%nat).
  { destruct (Nat.le_gt_cases c1 c2) as [H|H]; [exact H|]. exfalso.
    pose proof (Hlo1 c2 H). pose proof (Hhi2 c2 ltac:(lia)). lra. }
  assert (Hk : (k1 <= k2)%nat) by lia.
  set (w1 := Np.clip _ 0 1). set (w2 := Np.clip _ 0 1).
  pose proof (clip_unit ((nth k1 L 0 - ln sigma1) / (nth k1 L 0 - nth (S k1) L 0))) as Hw1.
  pose proof (clip_unit ((nth k2 L 0 - ln sigma2) / (nth k2 L 0 - nth (S k2) L 0))) as Hw2.
  fold w1 in Hw1. fold w2 in Hw2.
  rewrite !S_INR.
  destruct (Nat.eq_dec k1 k2) as [Heq|Hne].
  - assert (Hw : w1 <= w2).
    { unfold w1, w2. rewrite <- Heq. apply clip_monotone.
      assert (Hd : nth k1 L 0 < nth (S k1) L 0)
        by (apply (strongly_sorted_nth Rlt L Hs); lia).
      set (d := nth k1 L 0 - nth (S k1) L 0) in *.
      assert (Hdn : d < 0) by (unfold d; lra).
      unfold Rdiv. assert (Hinv : / d < 0) by now apply Rinv_lt_0_compat.
      nra. }
    rewrite <- Heq. nra.
  - assert (Hk' : INR k1 + 1 <= INR k2).
    { rewrite <- S_INR. apply le_INR. lia. }
    nra.
Qed.

End SigmaToT.

(** ** [np.interp] from below, and the Karras sigmas *)

Lemma interp_search_lower (c x : R) (xp fp : list R) :
  length xp = length fp -> fp <> [] ->
  StronglySorted Rlt xp -> Forall (fun f => c <= f) fp ->
  hd 0 xp <= x ->
  c <= Np.interp_search x xp fp.
Proof.
  revert fp. induction xp as [|x0 xp IH]; intros fp Hlen Hne Hs Hc Hx.
  - destruct fp; [congruence|discriminate].
  - destruct fp as [|f0 fp]; [congruence|].
    inversion Hc as [|? ? Hf0 Hc']; subst.
    destruct xp as [|x1 xp].
    + destruct fp; [|discriminate]. simpl. exact Hf0.
    + destruct fp as [|f1 fp]; [discriminate|].
      rewrite interp_search_cons.
      inversion Hs as [|? ? Hs' Hall]; subst.
      assert (Hx01 : x0 < x1) by (rewrite Forall_forall in Hall; apply Hall; now left).
      destruct (Rlt_dec x x1) as [Hlt|Hge].
      * inversion Hc' as [|? ? Hf1 _]; subst. simpl in Hx.
        set (r := / (x1 - x0)).
        assert (Hr : 0 < r) by (apply Rinv_0_lt_compat; lra).
        assert (Hr1 : (x1 - x0) * r = 1) by (unfold r; field; lra).
        set (th := (x - x0) * r).
        assert (Hth : 0 <= th < 1) by (unfold th; split; nra).
        replace ((f1 - f0) / (x1 - x0) * (x - x0) + f0)
          with ((1 - th) * f0 + th * f1) by (unfold th, Rdiv; fold r; ring).
        nra.
      * apply IH; [simpl in *; lia|discriminate|exact Hs'|exact Hc'|simpl; lra].
Qed.

Lemma interp1_lower (xp fp : list R) (x : R) :
  length xp = length fp -> fp <> [] ->
  StronglySorted Rlt xp -> Forall (fun f => hd 0 fp <= f) fp ->
  hd 0 fp <= Np.interp1 xp fp x.
Proof.
  intros Hlen Hne Hs Hc. unfold Np.interp1.
  destruct (Rle_dec x (hd 0 xp)); [lra|].
  destruct (Rle_dec (last xp 0) x).
  - rewrite Forall_forall in Hc. apply Hc. now apply last_In.
  - apply interp_search_lower; try assumption. lra.
Qed.

Lemma arange_sorted (n : nat) : StronglySorted Rlt (Np.arange n).
Proof.
  unfold Np.arange. apply strongly_sorted_map_seq. intros i j Hij _.
  apply lt_INR. lia.
Qed.

Lemma strictly_increasing_sorted (l : list R) :
  strictly_increasing l -> StronglySorted Rlt l.
Proof.
  induction l as [|a l IH]; intros H; [constructor|].
  constructor.
  - apply IH. intros i j Hij. apply (H (S i) (S j)). simpl. lia.
  - apply Forall_forall. intros y Hy. destruct (In_nth l y 0 Hy) as (i & Hi & <-).
    apply (H 0%nat (S i)). simpl. lia.
Qed.

Lemma sorted_hd_lower (l : list R) :
  StronglySorted Rlt l -> Forall (fun f => hd 0 l <= f) l.
Proof.
  intros Hs. destruct l as [|a l]; [constructor|].
  inversion Hs as [|? ? _ Hall]; subst. simpl.
  constructor; [lra|]. eapply Forall_impl; [|exact Hall]. simpl. intros y Hy. lra.
Qed.

Lemma power_pos (x y : R) : 0 < x -> Np.power x y = Rpower x y /\ 0 < Rpower x y.
Proof.
  intros Hx. unfold Np.power. destruct (Req_dec_T x 0); [lra|].
  split; [reflexivity|]. unfold Rpower. apply exp_pos.
Qed.

Lemma rmap_In {A B : Type} (f : A -> result B) (l : list A) (l' : list B) (b : B) :
  rmap f l = Ok l' -> In b l' -> exists a, In a l /\ f a = Ok b.
Proof.
  revert l'. induction l as [|a l IH]; intros l'; simpl.
  - intros [= <-] [].
  - destruct (f a) as [b0|] eqn:Ea; [|discriminate]. simpl.
    destruct (rmap f l) as [bs|]; [|discriminate]. simpl.
    intros [= <-] [<-|Hin].
    + exists a. split; [now left|exact Ea].
    + destruct (IH bs eq_refl Hin) as (a' & Ha' & Ea'). exists a'. split; [now right|exact Ea'].
Qed.

Section Karras.

Context {TL : TensorLib}.

(** The Karras sigmas descend from [sigma_max] to [sigma_min] and are
    positive. *)
Lemma convert_to_karras_sorted (in_sigmas ks : list R) (n : Z) :
  _convert_to_karras in_sigmas n = Ok ks ->
  0 < last in_sigmas 0 -> last in_sigmas 0 <= hd 0 in_sigmas ->
  StronglySorted Rge ks /\ Forall (fun s => 0 < s) ks.
Proof.
  unfold _convert_to_karras. intros H Hmin Hle.
  destruct in_sigmas as [|s0 rest] eqn:E.
  { rewrite getitem_nil in H. discriminate. }
  rewrite <- E in *.
  assert (Hne : in_sigmas <> []) by (rewrite E; discriminate).
  rewrite (getitem_last in_sigmas 0 Hne), (getitem_first in_sigmas 0 Hne) in H.
  simpl rbind in H.
  destruct (Np.linspace 0 1 n) as [ramp|] eqn:Er; [|discriminate]. simpl rbind in H.
  apply np_linspace_ok in Er. destruct Er as [_ ->]. injection H as <-.
  set (smin := last in_sigmas 0) in *. set (smax := hd 0 in_sigmas) in *.
  destruct (power_pos smin (1 / 7) Hmin) as [-> Hm].
  destruct (power_pos smax (1 / 7) ltac:(lra)) as [-> HM].
  assert (HmM : Rpower smin (1 / 7) <= Rpower smax (1 / 7)).
  { apply Rle_Rpower_l; lra. }
  set (m := Rpower smin (1 / 7)) in *. set (M := Rpower smax (1 / 7)) in *.
  pose proof (linspace_values_bounds 0 1 (Z.to_nat n) ltac:(lra)) as Hb.
  pose proof (linspace_values_sorted 0 1 (Z.to_nat n) ltac:(lra)) as Hs.
  split.
  - apply (strongly_sorted_map (fun r => 0 <= r <= 1) Rle Rge); [|exact Hb|exact Hs].
    intros r r' Hr Hr' Hrr'.
    assert (H1 : 0 < M + r' * (m - M)) by nra.
    assert (H2 : M + r' * (m - M) <= M + r * (m - M)) by nra.
    destruct (power_pos (M + r' * (m - M)) 7 H1) as [-> _].
    destruct (power_pos (M + r * (m - M)) 7 ltac:(lra)) as [-> _].
    apply Rle_ge. apply Rle_Rpower_l; lra.
  - apply Forall_forall. intros s Hs'. apply in_map_iff in Hs'.
    destruct Hs' as (r & <- & Hr). rewrite Forall_forall in Hb. specialize (Hb r Hr).
    assert (H1 : 0 < M + r * (m - M)) by nra.
    destruct (power_pos (M + r * (m - M)) 7 H1) as [-> Hp]. exact Hp.
Qed.

(** Timesteps computed by [_sigma_to_t] from descending positive sigmas
    descend. *)
Lemma sigma_to_t_sorted (L ks ts : list R) :
  StronglySorted Rlt L -> (2 <= length L)%nat ->
  StronglySorted Rge ks -> Forall (fun s => 0 < s) ks ->
  rmap (fun sigma => _sigma_to_t sigma L) ks = Ok ts ->
  StronglySorted Rge ts.
Proof.
  intros HL Hlen Hs. revert ts. induction Hs as [|s ks Hs IH Hall]; intros ts Hpos Hr.
  - simpl in Hr. injection Hr as <-. constructor.
  - simpl in Hr. destruct (_sigma_to_t s L) as [t|] eqn:Et; [|discriminate]. simpl in Hr.
    destruct (rmap _ ks) as [ts'|] eqn:Er; [|discriminate]. simpl in Hr.
    injection Hr as <-. inversion Hpos as [|? ? Hs0 Hpos']; subst.
    constructor; [now apply IH|].
    apply Forall_forall. intros t' Ht'.
    destruct (rmap_In _ _ _ _ Er Ht') as (s' & Hs' & Et').
    rewrite Forall_forall in Hall, Hpos'.
    apply Rle_ge. apply (sigma_to_t_monotone L s' s t' t HL Hlen); auto.
    apply Rge_le. now apply Hall.
Qed.

End Karras.


(** ** The selected timesteps descend *)

Lemma linspace_values_first (a b : R) (n : nat) :
  (1 <= n)%nat -> exists a0 l, Np.linspace_values a b n = a0 :: l /\ a0 = a.
Proof.
  intros Hn. unfold Np.linspace_values. destruct n as [|[|n]]; [lia|eauto|].
  cbn [seq map]. eexists _, _. split; [reflexivity|]. simpl INR. ring.
Qed.

Section SelectedDescending.

Context {TL : TensorLib}.

Lemma selected_timesteps_sorted (self : HeunDiscreteScheduler) (t : option Z)
      (sg ts : list R) :
  selected_schedule self t = Ok (sg, ts) ->
  (1 <= Py.or_int t (num_train_timesteps (config self)))%Z ->
  (get_use_karras_sigmas self = true -> well_ordered_training self) ->
  StronglySorted Rge ts.
Proof.
  intros Hsel HT Hwo.
  pose proof (selected_schedule_lengths _ _ _ _ Hsel) as (Hn & _ & _ & Hacp).
  assert (Hfp : train_sigmas self <> []).
  { intros E. apply (f_equal (@length R)) in E. rewrite train_sigmas_length in E.
    destruct (alphas_cumprod self); [congruence|discriminate]. }
  assert (Hb : 0 <= IZR (Py.or_int t (num_train_timesteps (config self)) - 1)).
  { apply IZR_le. lia. }
  pose proof (linspace_values_sorted 0 _ (Z.to_nat (num_inference_steps self)) Hb) as Hlin.
  unfold selected_schedule, Np.linspace in Hsel.
  destruct (Z.ltb_spec (num_inference_steps self) 0); [lia|]. simpl rbind in Hsel.
  rewrite interp_ok in Hsel by assumption. simpl rbind in Hsel.
  destruct (get_use_karras_sigmas self).
  2:{ injection Hsel as _ <-. now apply strongly_sorted_rev. }
  destruct (Hwo eq_refl) as (Hlen & Hpos & Hinc).
  apply strictly_increasing_sorted in Hinc.
  set (fp := train_sigmas self) in *.
  set (f := Np.interp1 (Np.arange (length fp)) fp) in *.
  set (lin := Np.linspace_values 0 _ _) in *.
  destruct (_convert_to_karras (map f (Py.reversed lin)) (num_inference_steps self))
    as [ks|] eqn:Ek; [|discriminate].
  simpl rbind in Hsel.
  destruct (rmap _ ks) as [kt|] eqn:Er; [|discriminate]. simpl rbind in Hsel.
  injection Hsel as _ <-.
  assert (Hhd : 0 < hd 0 fp).
  { destruct fp; [congruence|]. inversion Hpos; subst. assumption. }
  assert (Hlow : forall x, hd 0 fp <= f x).
  { intros x. apply interp1_lower; [apply arange_length|assumption|apply arange_sorted|].
    now apply sorted_hd_lower. }
  assert (Hn1 : (1 <= Z.to_nat (num_inference_steps self))%nat).
  { destruct (Nat.le_gt_cases 1 (Z.to_nat (num_inference_steps self))) as [H1|H1];
      [exact H1|].
    exfalso. assert (E0 : Z.to_nat (num_inference_steps self) = 0%nat) by lia.
    assert (Elin0 : lin = []) by (unfold lin; rewrite E0; reflexivity).
    rewrite Elin0 in Ek. unfold _convert_to_karras in Ek.
    change (map f (Py.reversed [])) with (@nil R) in Ek.
    rewrite getitem_nil in Ek. discriminate. }
  destruct (linspace_values_first 0
              (IZR (Py.or_int t (num_train_timesteps (config self)) - 1))
              (Z.to_nat (num_inference_steps self)) Hn1) as (a0 & lin' & Elin & Ea0).
  fold lin in Elin.
  assert (Elast : last (map f (Py.reversed lin)) 0 = hd 0 fp).
  { unfold Py.reversed. rewrite Elin. simpl rev. rewrite map_app. simpl map.
    rewrite last_last. unfold f, Np.interp1.
    rewrite arange_hd by lia. destruct (Rle_dec a0 0); [reflexivity|lra]. }
  assert (Hfirst : hd 0 fp <= hd 0 (map f (Py.reversed lin))).
  { unfold Py.reversed. rewrite Elin. simpl rev.
    destruct (rev lin' ++ [a0]) eqn:E'.
    - destruct (rev lin'); discriminate.
    - simpl. apply Hlow. }
  destruct (convert_to_karras_sorted _ _ _ Ek) as [Hks Hkpos].
  { rewrite Elast. exact Hhd. }
  { rewrite Elast. exact Hfirst. }
  apply (sigma_to_t_sorted (map ln fp) ks kt); try assumption.
  - apply (strongly_sorted_map (fun s => 0 < s) Rlt Rlt); [|exact Hpos|exact Hinc].
    intros x y Hx Hy Hxy. now apply ln_increasing.
  - now rewrite length_map.
Qed.

End SelectedDescending.

(** C3.  The shape of the inference schedule.  On a reachable scheduler
    with at least one training timestep, [set_timesteps(N)] with [N >= 1]
    returns and leaves [2N - 1] descending timesteps and one sigma more than
    timesteps, the last of them [0.0].  With Karras sigmas the timesteps are
    computed from the training sigmas, which are then taken to be at least
    two, positive and strictly increasing, as the supported beta schedules
    make them. *)
Theorem inference_schedule_shape {TL : TensorLib} (self : HeunDiscreteScheduler) (n : Z) :
  reachable self ->
  (1 <= num_train_timesteps (config self))%Z ->
  (get_use_karras_sigmas self = true -> well_ordered_training self) ->
  (1 <= n)%Z ->
  exists self',
    set_timesteps n None self = (Ok tt, self')
    /\ descending (timesteps self')
    /\ length (timesteps self') = Z.to_nat (2 * n - 1)
    /\ (exists front, sigmas self' = front ++ [0])
    /\ length (sigmas self') = S (length (timesteps self')).
Proof.
  intros Hr HT Hwo Hn. apply reachable_consistent in Hr. destruct Hr as (_ & Hacp & _).
  destruct (set_timesteps_returns self n None Hacp Hn)
    as (s0 & ss & t0 & ts & Hsel & Hss & Hts & Hset).
  eexists. split; [exact Hset|].
  rewrite rebuilt_timesteps, rebuilt_sigmas.
  split; [|split; [|split]].
  - apply strongly_sorted_descending.
    rewrite <- duplicate_timesteps_cons. apply duplicate_timesteps_sorted.
    apply (selected_timesteps_sorted _ _ _ _ Hsel); assumption.
  - simpl length. rewrite repeat_interleave_2_length, Hts. lia.
  - exists (s0 :: Paddle.repeat_interleave_2 ss). reflexivity.
  - simpl length. rewrite length_app, !repeat_interleave_2_length, Hss, Hts.
    simpl length. lia.
Qed.

Lemma inference_schedule_shape_witness :
  exists (self self' : @HeunDiscreteScheduler scalar_tensors),
    __init__ karras_config = Ok self
    /\ get_use_karras_sigmas self = true
    /\ well_ordered_training self
    /\ (1 <= 3)%Z
    /\ set_timesteps 3 None self = (Ok tt, self')
    /\ descending (timesteps self')
    /\ length (timesteps self') = 5%nat.
Proof.
  assert (HT : (1 <= num_train_timesteps karras_config)%Z) by (simpl; lia).
  destruct (init_returns_generated (TL := scalar_tensors) karras_config eq_refl
                                   (or_introl eq_refl) HT) as [self Hinit].
  assert (H1 : 0 < beta_start karras_config) by (simpl; lra).
  assert (H2 : beta_start karras_config <= beta_end karras_config) by (simpl; lra).
  assert (H3 : beta_end karras_config < 1) by (simpl; lra).
  assert (H4 : (2 <= num_train_timesteps karras_config)%Z) by (simpl; lia).
  pose proof (generated_well_ordered karras_config self Hinit eq_refl H1 H2 H3 H4) as Hwo.
  assert (Hk : get_use_karras_sigmas self = true).
  { destruct (init_eq karras_config self Hinit) as (b & sg & ts & _ & _ & ->). reflexivity. }
  assert (HT' : (1 <= num_train_timesteps (config self))%Z).
  { rewrite (init_config karras_config self Hinit). exact HT. }
  assert (H13 : (1 <= 3)%Z) by lia.
  destruct (inference_schedule_shape self 3 (reach_init karras_config self Hinit) HT'
                                     (fun _ => Hwo) H13)
    as (self' & Hset & Hdesc & Hlen & _).
  exists self, self'.
  split; [exact Hinit|]. split; [exact Hk|]. split; [exact Hwo|]. split; [exact H13|].
  split; [exact Hset|]. split; [exact Hdesc|exact Hlen].
Defined.


(* ================================================================== *)
(** * Further properties of the scheduler *)

(** ** What [step] can raise *)

Section StepFailures.

Context {TL : TensorLib}.

Lemma pred_original_cases (pt : string) (mo x : Tensor) (sigma_input : R) :
  (exists pred, pred_original pt mo x sigma_input = Ok pred
                /\ (pt = "epsilon"%string \/ pt = "v_prediction"%string))
  \/ (pred_original pt mo x sigma_input = Raise NotImplementedError
      /\ pt = "sample"%string)
  \/ (pred_original pt mo x sigma_input = Raise ValueError
      /\ pt <> "epsilon"%string /\ pt <> "v_prediction"%string /\ pt <> "sample"%string).
Proof.
  unfold pred_original.
  destruct (String.eqb_spec pt "epsilon"); [left; eauto|].
  destruct (String.eqb_spec pt "v_prediction"); [left; eauto|].
  destruct (String.eqb_spec pt "sample"); [right; left; auto|].
  right. right. auto.
Qed.

End StepFailures.

(** X1.  A call of [step] that raises leaves the scheduler exactly as it was,
    in either phase, and there are three ways to fail: IndexError when the
    timestep is not among the configured ones, and for a timestep that is,
    NotImplementedError when [prediction_type] is [sample] and ValueError when
    it is none of [epsilon], [v_prediction] and [sample]. *)
Theorem step_failure_is_atomic {TL : TensorLib} (self self' : HeunDiscreteScheduler)
        (model_output : Tensor) (timestep : R) (x : Tensor) (return_dict : bool)
        (e : exn) :
  reachable self ->
  step model_output timestep x return_dict self = (Raise e, self') ->
  self' = self
  /\ ((e = IndexError /\ ~ In timestep (timesteps self))
      \/ (e = NotImplementedError /\ In timestep (timesteps self)
          /\ prediction_type (config self) = "sample"%string)
      \/ (e = ValueError /\ In timestep (timesteps self)
          /\ prediction_type (config self) <> "epsilon"%string
          /\ prediction_type (config self) <> "v_prediction"%string
          /\ prediction_type (config self) <> "sample"%string)).
Proof.
  intros Hr Hstep. pose proof (reachable_consistent _ Hr) as Hc.
  destruct (in_dec Req_dec_T timestep (timesteps self)) as [Hin|Hn].
  2:{ assert (E : step model_output timestep x return_dict self = (Raise IndexError, self)).
      { destruct (state_in_first_order self) eqn:Hfo.
        - rewrite step_first_order by assumption.
          now rewrite (nonzero_eq_absent _ _ Hn), getitem_nil.
        - rewrite step_second_order by assumption.
          now rewrite (nonzero_eq_absent _ _ Hn), getitem_nil. }
      rewrite E in Hstep. injection Hstep as <- <-. split; [reflexivity|]. left. now split. }
  destruct (state_in_first_order self) eqn:Hfo.
  - rewrite step_first_order in Hstep by assumption.
    destruct (nonzero_eq_last _ _ Hin) as (i & Hi & Hlast). rewrite Hi in Hstep.
    destruct (matches_at_sigmas self timestep i Hc (proj1 Hlast)) as [H0 H1].
    rewrite (getitem_nth (sigmas self) i 0) in Hstep by lia.
    rewrite (getitem_nth (sigmas self) (i + 1) 0) in Hstep by lia.
    destruct (pred_original_cases (prediction_type (config self)) model_output x
                (nth (Z.to_nat i) (sigmas self) 0 * IZR (0 + 1)))
      as [(pred & Hp & _) | [(Hp & Hpt) | (Hp & Hpt)]];
      rewrite Hp in Hstep; [discriminate| |]; injection Hstep as <- <-;
      (split; [reflexivity|tauto]).
  - rewrite step_second_order in Hstep by assumption.
    destruct (nonzero_eq_first _ _ Hin) as (i & Hi & Hfirst). rewrite Hi in Hstep.
    destruct (matches_at_sigmas self timestep i Hc (proj1 Hfirst)) as [H0 H1].
    destruct (getitem_ok (sigmas self) (i - 1) ltac:(lia)) as [sg Hsg].
    rewrite Hsg in Hstep.
    rewrite (getitem_nth (sigmas self) i 0) in Hstep by lia.
    destruct (pred_original_cases (prediction_type (config self)) model_output x
                (nth (Z.to_nat i) (sigmas self) 0))
      as [(pred & Hp & _) | [(Hp & Hpt) | (Hp & Hpt)]];
      rewrite Hp in Hstep.
    + exfalso. destruct Hc as (_ & _ & Hdt & Hsample).
      unfold state_in_first_order in Hfo.
      destruct (dt self) as [dt0|] eqn:Edt; [|discriminate].
      destruct (prev_derivative self) as [d0|] eqn:Ed;
        [|assert (Some dt0 = None) by (apply Hdt; reflexivity); discriminate].
      destruct (sample self) as [x0|] eqn:Ex; [|apply Hsample; congruence].
      discriminate.
    + injection Hstep as <- <-. split; [reflexivity|tauto].
    + injection Hstep as <- <-. split; [reflexivity|tauto].
Qed.

Lemma step_failure_is_atomic_witness :
  reachable example_scheduler
  /\ step (2 : @Tensor scalar_tensors) (1 / 2) (3 : @Tensor scalar_tensors) true
          example_scheduler = (Raise IndexError, example_scheduler)
  /\ ~ In (1 / 2) (timesteps example_scheduler).
Proof.
  assert (Hn : ~ In (1 / 2) (timesteps example_scheduler)).
  { rewrite example_timesteps. simpl. intros [H|[H|[H|[]]]]; lra. }
  assert (Hstep : step (2 : @Tensor scalar_tensors) (1 / 2) (3 : @Tensor scalar_tensors) true
                       example_scheduler = (Raise IndexError, example_scheduler)).
  { rewrite step_first_order by reflexivity.
    now rewrite (nonzero_eq_absent _ _ Hn), getitem_nil. }
  split; [exact example_reachable|]. split; [exact Hstep|].
  destruct (step_failure_is_atomic example_scheduler example_scheduler 2 (1 / 2) 3 true
                                   IndexError example_reachable Hstep)
    as [_ [[_ H]|[[H _]|[H _]]]]; [exact H|discriminate H|discriminate H].
Defined.

(** ** What the methods write *)

Section Frames.

Context {TL : TensorLib}.

(** [step] leaves the object as it was, or stores the derivative, [dt] and
    the sample (predictor phase), or clears the three (corrector phase). *)
Lemma step_writes (mo : Tensor) (t : R) (x : Tensor) (rd : bool)
      (self self' : HeunDiscreteScheduler) (r : result StepOutput) :
  step mo t x rd self = (r, self') ->
  self' = self
  \/ (exists derivative dt_, state_in_first_order self = true
                             /\ self' = stored_state self derivative dt_ x)
  \/ (state_in_first_order self = false /\ self' = cleared_state self).
Proof.
  destruct (state_in_first_order self) eqn:Hfo.
  - rewrite step_first_order by assumption.
    destruct (Py.getitem _ _); [|intros [= _ <-]; now left].
    destruct (Py.getitem _ _); [|intros [= _ <-]; now left].
    destruct (Py.getitem _ _); [|intros [= _ <-]; now left].
    destruct (pred_original _ _ _ _); [|intros [= _ <-]; now left].
    intros [= _ <-]. right. left. eauto.
  - rewrite step_second_order by assumption.
    destruct (Py.getitem _ _); [|intros [= _ <-]; now left].
    destruct (Py.getitem _ _); [|intros [= _ <-]; now left].
    destruct (Py.getitem _ _); [|intros [= _ <-]; now left].
    destruct (pred_original _ _ _ _); [|intros [= _ <-]; now left].
    destruct (prev_derivative self); [|intros [= _ <-]; now left].
    destruct (sample self); [|intros [= _ <-]; right; right; now split].
    destruct (dt self); intros [= _ <-]; right; right; now split.
Qed.

Lemma set_timesteps_writes (n : Z) (t : option Z) (self self' : HeunDiscreteScheduler)
      (r : result unit) :
  set_timesteps n t self = (r, self') ->
  self' = with_num_inference_steps self n
  \/ exists sg ts, self' = rebuilt (with_num_inference_steps self n) sg ts.
Proof.
  rewrite set_timesteps_eq.
  destruct (selected_schedule _ _) as [[sg ts]|e]; intros [= _ <-]; eauto.
Qed.

Lemma evolves_setup (self self' : HeunDiscreteScheduler) :
  evolves self self' ->
  config self' = config self /\ betas self' = betas self /\ alphas self' = alphas self
  /\ alphas_cumprod self' = alphas_cumprod self
  /\ attr_use_karras_sigmas self' = attr_use_karras_sigmas self.
Proof.
  induction 1 as [s | s s1 n t r s' _ IH Hs | s s1 mo t x rd r s' _ IH Hs
                 | s s1 x t r s' _ IH Hs | s s1 o nz ts r s' _ IH Hs].
  - repeat split.
  - destruct (set_timesteps_writes _ _ _ _ _ Hs) as [->|(sg & ts & ->)]; exact IH.
  - destruct (step_writes _ _ _ _ _ _ _ Hs) as [->|[(d & dt0 & _ & ->)|[_ ->]]]; exact IH.
  - pose proof (scale_model_input_state x t s1) as E. rewrite Hs in E. simpl in E.
    now subst.
  - pose proof (add_noise_state o nz ts s1) as E. rewrite Hs in E. simpl in E.
    now subst.
Qed.

(** The selected schedule reads the config, [alphas_cumprod],
    [use_karras_sigmas] and [num_inference_steps], and nothing else. *)
Lemma selected_schedule_ext (a b : HeunDiscreteScheduler) (t : option Z) :
  config a = config b -> alphas_cumprod a = alphas_cumprod b ->
  attr_use_karras_sigmas a = attr_use_karras_sigmas b ->
  num_inference_steps a = num_inference_steps b ->
  selected_schedule a t = selected_schedule b t.
Proof.
  intros H1 H2 H3 H4.
  unfold selected_schedule, train_sigmas, get_use_karras_sigmas.
  now rewrite H1, H2, H3, H4.
Qed.

End Frames.

(** One predictor call on the example scheduler. *)
Lemma example_step :
  exists out s1,
    step (2 : @Tensor scalar_tensors) 1 (3 : @Tensor scalar_tensors) true example_scheduler
    = (Ok out, s1).
Proof.
  apply step_returns.
  - exact (reachable_consistent _ example_reachable).
  - rewrite example_timesteps. now left.
  - left. exact example_prediction_type.
Qed.

(** X2.  What the methods write.  Whatever calls of [set_timesteps], [step],
    [scale_model_input] and [add_noise] were made on a scheduler, returning
    or raising, its config, [betas], [alphas], [alphas_cumprod],
    [use_karras_sigmas] and [len()] are those it started with.  On the object
    so obtained [step] writes nothing but [prev_derivative], [dt] and
    [sample]: it leaves the object as it was, or stores the three in the
    predictor phase (the sample stored is the one passed in), or clears the
    three in the corrector phase; [scale_model_input] and [add_noise] write
    nothing. *)
Theorem methods_write_only_their_own_attributes {TL : TensorLib}
        (self self' : HeunDiscreteScheduler) :
  evolves self self' ->
  (config self' = config self /\ betas self' = betas self /\ alphas self' = alphas self
   /\ alphas_cumprod self' = alphas_cumprod self
   /\ get_use_karras_sigmas self' = get_use_karras_sigmas self
   /\ __len__ self' = __len__ self)
  /\ (forall mo t x rd r s, step mo t x rd self' = (r, s) ->
        s = self'
        \/ (exists derivative dt_, state_in_first_order self' = true
                                   /\ s = stored_state self' derivative dt_ x)
        \/ (state_in_first_order self' = false /\ s = cleared_state self'))
  /\ (forall x t r s, scale_model_input x t self' = (r, s) -> s = self')
  /\ (forall original noise ts r s, add_noise original noise ts self' = (r, s) -> s = self').
Proof.
  intros He. destruct (evolves_setup self self' He) as (H1 & H2 & H3 & H4 & H5).
  split.
  - unfold get_use_karras_sigmas, __len__. rewrite H1, H5. repeat split; assumption.
  - split; [|split].
    + intros mo t x rd r s Hs. exact (step_writes _ _ _ _ _ _ _ Hs).
    + intros x t r s Hs. pose proof (scale_model_input_state x t self') as E.
      rewrite Hs in E. exact E.
    + intros o nz ts r s Hs. pose proof (add_noise_state o nz ts self') as E.
      rewrite Hs in E. exact E.
Qed.

Lemma methods_write_only_their_own_attributes_witness :
  exists s1 : @HeunDiscreteScheduler scalar_tensors,
    evolves example_scheduler s1
    /\ config s1 = config example_scheduler
    /\ alphas_cumprod s1 = alphas_cumprod example_scheduler.
Proof.
  destruct example_step as (out & s1 & Hstep).
  assert (He : evolves example_scheduler s1).
  { eapply evolves_step; [apply evolves_refl|exact Hstep]. }
  exists s1. split; [exact He|].
  destruct (methods_write_only_their_own_attributes example_scheduler s1 He)
    as ((H1 & _ & _ & H4 & _) & _).
  split; [exact H1|exact H4].
Defined.

(** X3.  [set_timesteps] forgets the history.  If [set_timesteps(n, t)]
    returns on a scheduler, it returns on every object that calls of the
    methods lead to from it, and builds the same [sigmas], [timesteps] and
    [init_noise_sigma], whatever phase the object was left in;
    [prev_derivative] and [dt] are cleared.  The stored [sample] is not: it
    stays what it was. *)
Theorem set_timesteps_forgets_history {TL : TensorLib}
        (self self' s1 : HeunDiscreteScheduler) (n : Z) (t : option Z) :
  evolves self self' ->
  set_timesteps n t self = (Ok tt, s1) ->
  exists s2, set_timesteps n t self' = (Ok tt, s2)
    /\ sigmas s2 = sigmas s1 /\ timesteps s2 = timesteps s1
    /\ init_noise_sigma s2 = init_noise_sigma s1
    /\ num_inference_steps s2 = n
    /\ prev_derivative s2 = None /\ dt s2 = None
    /\ sample s2 = sample self'.
Proof.
  intros He Hs. destruct (evolves_setup self self' He) as (H1 & _ & _ & H4 & H5).
  rewrite set_timesteps_eq in Hs. rewrite set_timesteps_eq.
  rewrite (selected_schedule_ext (with_num_inference_steps self' n)
                                 (with_num_inference_steps self n) t H1 H4 H5 eq_refl).
  destruct (selected_schedule _ _) as [[sg ts]|e]; [|discriminate].
  injection Hs as <-. eexists. split; [reflexivity|]. repeat split.
Qed.

Lemma set_timesteps_forgets_history_witness :
  exists s' s1 s2 : @HeunDiscreteScheduler scalar_tensors,
    evolves example_scheduler s'
    /\ state_in_first_order s' = false
    /\ set_timesteps 3 None example_scheduler = (Ok tt, s1)
    /\ set_timesteps 3 None s' = (Ok tt, s2)
    /\ sigmas s2 = sigmas s1
    /\ timesteps s2 = timesteps s1
    /\ dt s2 = None.
Proof.
  destruct example_step as (out & s' & Hstep).
  assert (He : evolves example_scheduler s').
  { eapply evolves_step; [apply evolves_refl|exact Hstep]. }
  assert (Hacp : alphas_cumprod example_scheduler <> []).
  { exact (proj1 (proj2 (reachable_consistent _ example_reachable))). }
  assert (H3 : (1 <= 3)%Z) by lia.
  destruct (set_timesteps_returns example_scheduler 3 None Hacp H3)
    as (s0 & ss & t0 & ts & _ & _ & _ & Hset).
  destruct (set_timesteps_forgets_history example_scheduler s' _ 3 None He Hset)
    as (s2 & Hset2 & Hsg & Hts & _ & _ & _ & Hdt & _).
  exists s', (rebuilt (with_num_inference_steps example_scheduler 3) (s0 :: ss) (t0 :: ts)), s2.
  split; [exact He|]. split.
  { rewrite (step_flips_phase _ _ _ _ _ _ _ Hstep). reflexivity. }
  split; [exact Hset|]. split; [exact Hset2|].
  split; [exact Hsg|]. split; [exact Hts|exact Hdt].
Defined.

(** ** [np.interp] is monotone *)

Lemma interp_search_upper (c x : R) (xp fp : list R) :
  length xp = length fp -> fp <> [] ->
  StronglySorted Rlt xp -> Forall (fun f => f <= c) fp ->
  hd 0 xp <= x ->
  Np.interp_search x xp fp <= c.
Proof.
  revert fp. induction xp as [|x0 xp IH]; intros fp Hlen Hne Hs Hc Hx.
  - destruct fp; [congruence|discriminate].
  - destruct fp as [|f0 fp]; [congruence|].
    inversion Hc as [|? ? Hf0 Hc']; subst.
    destruct xp as [|x1 xp].
    + destruct fp; [|discriminate]. simpl. exact Hf0.
    + destruct fp as [|f1 fp]; [discriminate|].
      rewrite interp_search_cons.
      inversion Hs as [|? ? Hs' Hall]; subst.
      assert (Hx01 : x0 < x1) by (rewrite Forall_forall in Hall; apply Hall; now left).
      destruct (Rlt_dec x x1) as [Hlt|Hge].
      * inversion Hc' as [|? ? Hf1 _]; subst. simpl in Hx.
        set (r := / (x1 - x0)).
        assert (Hr : 0 < r) by (apply Rinv_0_lt_compat; lra).
        assert (Hr1 : (x1 - x0) * r = 1) by (unfold r; field; lra).
        set (th := (x - x0) * r).
        assert (Hth : 0 <= th < 1) by (unfold th; split; nra).
        replace ((f1 - f0) / (x1 - x0) * (x - x0) + f0)
          with ((1 - th) * f0 + th * f1) by (unfold th, Rdiv; fold r; ring).
        nra.
      * apply IH; [simpl in *; lia|discriminate|exact Hs'|exact Hc'|simpl; lra].
Qed.

Lemma sorted_lt_le (l : list R) : StronglySorted Rlt l -> StronglySorted Rle l.
Proof.
  induction 1 as [|a l _ IH Hall]; constructor; [exact IH|].
  eapply Forall_impl; [|exact Hall]. intros b Hb. lra.
Qed.

Lemma sorted_le_hd (l : list R) :
  StronglySorted Rle l -> Forall (fun f => hd 0 l <= f) l.
Proof.
  intros Hs. destruct l as [|a l]; [constructor|].
  inversion Hs as [|? ? _ Hall]; subst. simpl.
  constructor; [lra|exact Hall].
Qed.

Lemma sorted_le_last (l : list R) :
  StronglySorted Rle l -> Forall (fun f => f <= last l 0) l.
Proof.
  induction 1 as [|a l Hs IH Hall]; [constructor|].
  destruct l as [|b l]; [constructor; [simpl; lra|constructor]|].
  change (last (a :: b :: l) 0) with (last (b :: l) 0).
  constructor; [|exact IH].
  rewrite Forall_forall in Hall. apply Hall. apply last_In. discriminate.
Qed.

Lemma interp_search_monotone (x y : R) (xp fp : list R) :
  length xp = length fp -> fp <> [] ->
  StronglySorted Rlt xp -> StronglySorted Rle fp ->
  hd 0 xp <= x -> x <= y ->
  Np.interp_search x xp fp <= Np.interp_search y xp fp.
Proof.
  revert fp. induction xp as [|x0 xp IH]; intros fp Hlen Hne Hs Hf Hx Hxy.
  - destruct fp; [congruence|discriminate].
  - destruct fp as [|f0 fp]; [congruence|].
    destruct xp as [|x1 xp].
    + destruct fp; [|discriminate]. simpl. lra.
    + destruct fp as [|f1 fp]; [discriminate|].
      rewrite !interp_search_cons.
      inversion Hs as [|? ? Hs' Hall]; subst.
      inversion Hf as [|? ? Hf' Hfall]; subst.
      assert (Hx01 : x0 < x1) by (rewrite Forall_forall in Hall; apply Hall; now left).
      assert (Hf01 : f0 <= f1) by (rewrite Forall_forall in Hfall; apply Hfall; now left).
      simpl in Hx.
      set (r := / (x1 - x0)).
      assert (Hr : 0 < r) by (apply Rinv_0_lt_compat; lra).
      assert (Hr1 : (x1 - x0) * r = 1) by (unfold r; field; lra).
      assert (Hlin : forall z, (f1 - f0) / (x1 - x0) * (z - x0) + f0
                               = (1 - (z - x0) * r) * f0 + (z - x0) * r * f1).
      { intros z. unfold Rdiv. fold r. ring. }
      destruct (Rlt_dec x x1) as [Hlt|Hge]; destruct (Rlt_dec y x1) as [Hlt'|Hge'].
      * rewrite !Hlin.
        assert (Hth : (x - x0) * r <= (y - x0) * r) by nra. nra.
      * rewrite Hlin.
        assert (Hth : 0 <= (x - x0) * r < 1) by (split; nra).
        assert (Hlow : f1 <= Np.interp_search y (x1 :: xp) (f1 :: fp)).
        { apply interp_search_lower;
            [simpl in *; lia|discriminate|exact Hs'| |simpl; lra].
          exact (sorted_le_hd (f1 :: fp) Hf'). }
        nra.
      * lra.
      * apply IH; [simpl in *; lia|discriminate|exact Hs'|exact Hf'|simpl; lra|exact Hxy].
Qed.

Lemma interp1_monotone (xp fp : list R) (x y : R) :
  length xp = length fp -> fp <> [] ->
  StronglySorted Rlt xp -> StronglySorted Rle fp ->
  x <= y -> Np.interp1 xp fp x <= Np.interp1 xp fp y.
Proof.
  intros Hlen Hne Hs Hf Hxy.
  destruct (Rle_dec x (hd 0 xp)) as [Hx|Hx].
  - replace (Np.interp1 xp fp x) with (hd 0 fp)
      by (unfold Np.interp1; destruct (Rle_dec x (hd 0 xp)); [reflexivity|contradiction]).
    apply interp1_lower; try assumption. now apply sorted_le_hd.
  - unfold Np.interp1.
    destruct (Rle_dec x (hd 0 xp)); [contradiction|].
    destruct (Rle_dec y (hd 0 xp)); [lra|].
    destruct (Rle_dec (last xp 0) x); destruct (Rle_dec (last xp 0) y); try lra.
    + apply interp_search_upper; try assumption; [|lra]. now apply sorted_le_last.
    + apply interp_search_monotone; try assumption. lra.
Qed.

(** ** The largest entry of a descending list *)

Lemma fold_left_Rmax_le (l : list R) (x : R) :
  Forall (fun y => y <= x) l -> fold_left Rmax l x = x.
Proof.
  induction 1 as [|y l Hy _ IH]; [reflexivity|].
  simpl. rewrite Rmax_left by exact Hy. exact IH.
Qed.

Lemma max_descending (l : list R) : StronglySorted Rge l -> Paddle.max l = hd 0 l.
Proof.
  intros Hs. destruct l as [|x l]; [reflexivity|].
  inversion Hs as [|? ? _ Hall]; subst. simpl.
  apply fold_left_Rmax_le. eapply Forall_impl; [|exact Hall]. intros y Hy. lra.
Qed.

Lemma duplicate_sigmas_sorted (l : list R) :
  StronglySorted Rge l -> Forall (fun s => 0 < s) l ->
  StronglySorted Rge (duplicate_sigmas (l ++ [0]))
  /\ Forall (fun s => 0 <= s) (duplicate_sigmas (l ++ [0]))
  /\ hd 0 (duplicate_sigmas (l ++ [0])) = hd 0 l
  /\ last (duplicate_sigmas (l ++ [0])) 1 = 0.
Proof.
  intros Hs Hpos. destruct l as [|a l].
  - cbn. repeat split.
    + repeat constructor; lra.
    + repeat constructor; lra.
  - change ((a :: l) ++ [0]) with (a :: l ++ [0]). rewrite duplicate_sigmas_cons.
    inversion Hs as [|? ? Hs' Hall]; subst. inversion Hpos as [|? ? Ha Hpos']; subst.
    assert (Htail : StronglySorted Rge (Paddle.repeat_interleave_2 l ++ [0])).
    { apply strongly_sorted_app.
      - now apply repeat_interleave_2_sorted.
      - repeat constructor.
      - intros x y Hx [<-|[]]. apply repeat_interleave_2_In in Hx.
        rewrite Forall_forall in Hpos'. specialize (Hpos' x Hx). lra. }
    assert (Hin : forall x, In x (Paddle.repeat_interleave_2 l ++ [0]) -> 0 <= x <= a).
    { intros x Hx. apply in_app_or in Hx. destruct Hx as [Hx|[<-|[]]]; [|lra].
      apply repeat_interleave_2_In in Hx. rewrite Forall_forall in Hall, Hpos'.
      specialize (Hall x Hx). specialize (Hpos' x Hx). lra. }
    repeat split.
    + constructor; [exact Htail|]. apply Forall_forall. intros x Hx.
      specialize (Hin x Hx). lra.
    + constructor; [lra|]. apply Forall_forall. intros x Hx. specialize (Hin x Hx). lra.
    + change (a :: Paddle.repeat_interleave_2 l ++ [0])
        with ((a :: Paddle.repeat_interleave_2 l) ++ [0]).
      apply last_last.
Qed.

(** ** The endpoints of [np.linspace] and of the Karras conversion *)

Lemma linspace_values_last (a b : R) (n : nat) :
  (2 <= n)%nat -> last (Np.linspace_values a b n) 0 = b.
Proof.
  intros Hn. unfold Np.linspace_values.
  destruct n as [|[|n]]; [lia|lia|].
  rewrite seq_S, map_app. cbn [map]. rewrite last_last.
  replace (S (S n) - 1)%nat with (S n) by lia. rewrite Nat.add_0_l.
  assert (H : INR (S n) <> 0) by (apply not_0_INR; lia).
  field. exact H.
Qed.

Lemma interp1_at_integer (fp : list R) (k : nat) :
  fp <> [] ->
  Np.interp1 (Np.arange (length fp)) fp (INR k) = nth (Nat.min k (length fp - 1)) fp 0.
Proof.
  intros Hne.
  assert (Hlen : (1 <= length fp)%nat) by (destruct fp; [congruence|simpl; lia]).
  destruct (Nat.lt_ge_cases k (length fp)) as [Hk|Hk].
  - rewrite interp1_knot by exact Hk. f_equal. lia.
  - replace (Nat.min k (length fp - 1)) with (length fp - 1)%nat by lia.
    rewrite nth_pred_length_last. unfold Np.interp1.
    rewrite arange_hd, arange_last by exact Hlen.
    assert (H1 : INR (length fp - 1) <= INR k) by (apply le_INR; lia).
    assert (H0 : 0 < INR k) by (apply lt_0_INR; lia).
    destruct (Rle_dec (INR k) 0); [lra|].
    destruct (Rle_dec (INR (length fp - 1)) (INR k)); [reflexivity|lra].
Qed.

Lemma convert_to_karras_ends (in_sigmas ks : list R) (n : Z) :
  _convert_to_karras in_sigmas n = Ok ks ->
  0 < last in_sigmas 0 -> 0 < hd 0 in_sigmas ->
  length ks = Z.to_nat n
  /\ ((1 <= n)%Z -> hd 0 ks = hd 0 in_sigmas)
  /\ ((2 <= n)%Z -> last ks 0 = last in_sigmas 0).
Proof.
  unfold _convert_to_karras. intros H Hmin Hmax.
  destruct in_sigmas as [|s0 rest] eqn:E.
  { rewrite getitem_nil in H. discriminate. }
  rewrite <- E in *.
  assert (Hne : in_sigmas <> []) by (rewrite E; discriminate).
  rewrite (getitem_last in_sigmas 0 Hne), (getitem_first in_sigmas 0 Hne) in H.
  simpl rbind in H.
  destruct (Np.linspace 0 1 n) as [ramp|] eqn:Er; [|discriminate]. simpl rbind in H.
  apply np_linspace_ok in Er. destruct Er as [Hn0 ->]. injection H as <-.
  set (smin := last in_sigmas 0) in *. set (smax := hd 0 in_sigmas) in *.
  destruct (power_pos smin (1 / 7) Hmin) as [-> Hm].
  destruct (power_pos smax (1 / 7) Hmax) as [-> HM].
  assert (Hback : forall s, 0 < s -> Np.power (Rpower s (1 / 7)) 7 = s).
  { intros s Hs. destruct (power_pos s (1 / 7) Hs) as [_ Hp].
    destruct (power_pos (Rpower s (1 / 7)) 7 Hp) as [-> _].
    rewrite Rpower_mult. replace (1 / 7 * 7) with 1 by field. now apply Rpower_1. }
  split; [now rewrite length_map, linspace_values_length|]. split.
  - intros Hn1.
    destruct (linspace_values_first 0 1 (Z.to_nat n) ltac:(lia)) as (a0 & l & -> & ->).
    cbn [map hd]. rewrite Rmult_0_l, Rplus_0_r. now apply Hback.
  - intros Hn2.
    assert (Hl : last (Np.linspace_values 0 1 (Z.to_nat n)) 0 = 1)
      by (apply linspace_values_last; lia).
    assert (Hnn : Np.linspace_values 0 1 (Z.to_nat n) <> []).
    { intros E0. apply (f_equal (@length R)) in E0.
      rewrite linspace_values_length in E0. simpl in E0. lia. }
    destruct (exists_last Hnn) as (l & a & El). rewrite El in Hl |- *.
    rewrite last_last in Hl. subst a. rewrite map_app. cbn [map]. rewrite last_last.
    replace (Rpower smax (1 / 7) + 1 * (Rpower smin (1 / 7) - Rpower smax (1 / 7)))
      with (Rpower smin (1 / 7)) by ring.
    now apply Hback.
Qed.

(** ** The sigmas that [set_timesteps] selects *)

Section SelectedSigmas.

Context {TL : TensorLib}.

(** The training sigmas interpolated at the selected training timesteps. *)
Lemma interpolated_sigmas (fp : list R) (b : R) (n : nat) :
  fp <> [] -> Forall (fun s => 0 < s) fp -> StronglySorted Rlt fp -> 0 <= b ->
  let in_sigmas :=
    map (Np.interp1 (Np.arange (length fp)) fp) (rev (Np.linspace_values 0 b n)) in
  StronglySorted Rge in_sigmas
  /\ Forall (fun s => 0 < s) in_sigmas
  /\ length in_sigmas = n
  /\ ((1 <= n)%nat -> last in_sigmas 0 = hd 0 fp)
  /\ (n = 1%nat -> hd 0 in_sigmas = hd 0 fp)
  /\ ((2 <= n)%nat -> hd 0 in_sigmas = Np.interp1 (Np.arange (length fp)) fp b).
Proof.
  intros Hne Hpos Hinc Hb. cbv zeta.
  set (f := Np.interp1 (Np.arange (length fp)) fp).
  assert (Hhd : 0 < hd 0 fp).
  { destruct fp; [congruence|]. inversion Hpos; subst. assumption. }
  assert (Hlow : forall x, hd 0 fp <= f x).
  { intros x. apply interp1_lower; [apply arange_length|assumption|apply arange_sorted|].
    now apply sorted_hd_lower. }
  assert (Hmono : forall x y, x <= y -> f x <= f y).
  { intros x y Hxy. apply interp1_monotone; try assumption;
      [apply arange_length|apply arange_sorted|now apply sorted_lt_le]. }
  split; [|split; [|split; [|split; [|split]]]].
  - apply (strongly_sorted_map (fun _ => True) Rge Rge).
    + intros x y _ _ Hxy. apply Rle_ge. apply Hmono. lra.
    + apply Forall_forall. auto.
    + apply strongly_sorted_rev. now apply linspace_values_sorted.
  - apply Forall_forall. intros s Hs. apply in_map_iff in Hs.
    destruct Hs as (x & <- & _). specialize (Hlow x). lra.
  - now rewrite length_map, length_rev, linspace_values_length.
  - intros Hn. destruct (linspace_values_first 0 b n Hn) as (a0 & l & -> & ->).
    simpl rev. rewrite map_app. cbn [map]. rewrite last_last.
    unfold f, Np.interp1. rewrite arange_hd
      by (destruct fp; [congruence|simpl; lia]).
    destruct (Rle_dec 0 0); [reflexivity|lra].
  - intros ->. change (Np.linspace_values 0 b 1) with [0]. cbn [rev app map hd].
    unfold f, Np.interp1. rewrite arange_hd
      by (destruct fp; [congruence|simpl; lia]).
    destruct (Rle_dec 0 0); [reflexivity|lra].
  - intros Hn. pose proof (linspace_values_last 0 b n Hn) as Hl.
    assert (Hnn : Np.linspace_values 0 b n <> []).
    { intros E0. apply (f_equal (@length R)) in E0.
      rewrite linspace_values_length in E0. simpl in E0. lia. }
    destruct (exists_last Hnn) as (l & a & El). rewrite El in Hl |- *.
    rewrite last_last in Hl. subst a. rewrite rev_app_distr. reflexivity.
Qed.

Lemma train_sigmas_nonempty (self : HeunDiscreteScheduler) :
  alphas_cumprod self <> [] -> train_sigmas self <> [].
Proof.
  intros Hacp E. apply (f_equal (@length R)) in E. rewrite train_sigmas_length in E.
  destruct (alphas_cumprod self); [congruence|discriminate].
Qed.

(** What [set_timesteps] selects as sigmas: the interpolated training sigmas,
    or their Karras conversion. *)
Lemma selected_sigmas_eq (self : HeunDiscreteScheduler) (t : option Z) (sg ts : list R) :
  selected_schedule self t = Ok (sg, ts) ->
  let fp := train_sigmas self in
  let in_sigmas :=
    map (Np.interp1 (Np.arange (length fp)) fp)
        (rev (Np.linspace_values 0
                (IZR (Py.or_int t (num_train_timesteps (config self)) - 1))
                (Z.to_nat (num_inference_steps self)))) in
  (get_use_karras_sigmas self = false /\ sg = in_sigmas)
  \/ (get_use_karras_sigmas self = true
      /\ _convert_to_karras in_sigmas (num_inference_steps self) = Ok sg).
Proof.
  intros Hsel. cbv zeta.
  pose proof (selected_schedule_lengths _ _ _ _ Hsel) as (Hn & _ & _ & Hacp).
  pose proof (train_sigmas_nonempty self Hacp) as Hfp.
  unfold selected_schedule, Np.linspace in Hsel.
  destruct (Z.ltb_spec (num_inference_steps self) 0); [lia|]. simpl rbind in Hsel.
  rewrite interp_ok in Hsel by assumption. simpl rbind in Hsel.
  destruct (get_use_karras_sigmas self).
  - right. split; [reflexivity|].
    unfold Py.reversed in Hsel.
    destruct (_convert_to_karras _ _) as [ks|]; [|discriminate]. simpl rbind in Hsel.
    destruct (rmap _ ks); [|discriminate]. simpl rbind in Hsel.
    now injection Hsel as <- _.
  - left. split; [reflexivity|]. now injection Hsel as <- _.
Qed.

Lemma selected_sigmas_sorted (self : HeunDiscreteScheduler) (t : option Z)
      (sg ts : list R) :
  selected_schedule self t = Ok (sg, ts) ->
  (1 <= Py.or_int t (num_train_timesteps (config self)))%Z ->
  Forall (fun s => 0 < s) (train_sigmas self) ->
  strictly_increasing (train_sigmas self) ->
  let n := num_inference_steps self in
  let top := Z.to_nat (Py.or_int t (num_train_timesteps (config self)) - 1) in
  StronglySorted Rge sg
  /\ Forall (fun s => 0 < s) sg
  /\ (n = 1%Z -> hd 0 sg = hd 0 (train_sigmas self))
  /\ ((2 <= n)%Z ->
      hd 0 sg = nth (Nat.min top (length (train_sigmas self) - 1)) (train_sigmas self) 0
      /\ last sg 0 = hd 0 (train_sigmas self)).
Proof.
  intros Hsel HT Hpos Hinc. cbv zeta.
  pose proof (selected_schedule_lengths _ _ _ _ Hsel) as (Hn & Hlen & _ & Hacp).
  pose proof (train_sigmas_nonempty self Hacp) as Hfp.
  apply strictly_increasing_sorted in Hinc.
  pose proof (selected_sigmas_eq self t sg ts Hsel) as Hcase. cbv zeta in Hcase.
  set (T' := Py.or_int t (num_train_timesteps (config self))) in *.
  assert (Hb : 0 <= IZR (T' - 1)) by (apply IZR_le; lia).
  destruct (interpolated_sigmas (train_sigmas self) (IZR (T' - 1))
                                (Z.to_nat (num_inference_steps self)) Hfp Hpos Hinc Hb)
    as (Hs & Hp & Hl & Hlast & Hone & Htwo).
  assert (Etop : Np.interp1 (Np.arange (length (train_sigmas self))) (train_sigmas self)
                            (IZR (T' - 1))
                 = nth (Nat.min (Z.to_nat (T' - 1)) (length (train_sigmas self) - 1))
                       (train_sigmas self) 0).
  { rewrite <- (Z2Nat.id (T' - 1)) at 1 by lia. rewrite <- INR_IZR_INZ.
    now apply interp1_at_integer. }
  destruct Hcase as [[_ ->]|[_ Hk]].
  - split; [exact Hs|]. split; [exact Hp|]. split.
    + intros E. apply Hone. rewrite E. reflexivity.
    + intros H2. split; [rewrite Htwo by lia; exact Etop|apply Hlast; lia].
  - set (in_sigmas := map _ _) in *.
    assert (Hn1 : (1 <= Z.to_nat (num_inference_steps self))%nat).
    { destruct (Nat.le_gt_cases 1 (Z.to_nat (num_inference_steps self))) as [H1|H1];
        [exact H1|].
      exfalso. destruct in_sigmas; [|simpl in Hl; lia].
      unfold _convert_to_karras in Hk. rewrite getitem_nil in Hk. discriminate. }
    assert (Hhd : 0 < hd 0 (train_sigmas self)).
    { destruct (train_sigmas self); [congruence|]. inversion Hpos; subst. assumption. }
    assert (Hlast0 : 0 < last in_sigmas 0) by (rewrite Hlast by exact Hn1; exact Hhd).
    assert (Hhd0 : 0 < hd 0 in_sigmas).
    { destruct in_sigmas; [simpl in Hl; lia|]. inversion Hp; subst. assumption. }
    assert (Hle : last in_sigmas 0 <= hd 0 in_sigmas).
    { destruct in_sigmas as [|a l] eqn:E; [simpl in Hl; lia|].
      inversion Hs as [|? ? _ Hall]; subst. simpl hd.
      destruct l as [|b l]; [simpl; lra|].
      rewrite Forall_forall in Hall. apply Rge_le. apply Hall.
      change (last (a :: b :: l) 0) with (last (b :: l) 0). apply last_In. discriminate. }
    destruct (convert_to_karras_sorted _ _ _ Hk Hlast0 Hle) as [Hks Hkpos].
    destruct (convert_to_karras_ends _ _ _ Hk Hlast0 Hhd0) as (_ & Hkhd & Hklast).
    split; [exact Hks|]. split; [exact Hkpos|]. split.
    + intros E. rewrite Hkhd by lia. apply Hone. rewrite E. reflexivity.
    + intros H2. split.
      * rewrite Hkhd by lia. rewrite Htwo by lia. exact Etop.
      * rewrite Hklast by lia. apply Hlast. lia.
Qed.

(** The schedule that [set_timesteps] builds from the selected sigmas. *)
Lemma rebuilt_sigmas_sorted (self : HeunDiscreteScheduler) (sg ts : list R) :
  StronglySorted Rge sg -> Forall (fun s => 0 < s) sg -> sg <> [] ->
  descending (sigmas (rebuilt self sg ts))
  /\ Forall (fun s => 0 <= s) (sigmas (rebuilt self sg ts))
  /\ last (sigmas (rebuilt self sg ts)) 1 = 0
  /\ hd 0 (sigmas (rebuilt self sg ts)) = hd 0 sg
  /\ init_noise_sigma (rebuilt self sg ts) = hd 0 sg
  /\ 0 < init_noise_sigma (rebuilt self sg ts).
Proof.
  intros Hs Hpos Hne.
  destruct (duplicate_sigmas_sorted sg Hs Hpos) as (Hd & Hnn & Hhd & Hlast).
  cbn [sigmas init_noise_sigma rebuilt].
  split; [now apply strongly_sorted_descending|]. split; [exact Hnn|].
  split; [exact Hlast|]. split; [exact Hhd|].
  rewrite (max_descending _ Hd), Hhd. split; [reflexivity|].
  destruct sg; [congruence|]. inversion Hpos; subst. assumption.
Qed.

End SelectedSigmas.

Lemma example_well_ordered : well_ordered_training example_scheduler.
Proof.
  apply (generated_well_ordered example_config);
    [exact example_constructed|reflexivity|simpl; lra|simpl; lra|simpl; lra|simpl; lia].
Qed.

(** X4.  The sigmas descend to zero.  On a reachable scheduler with at least
    one training timestep whose training sigmas are positive and strictly
    increasing, [set_timesteps(N)] with [N >= 1] returns and leaves sigmas
    that never increase along the schedule, none of them negative, the last
    one [0.0]; [init_noise_sigma], their maximum, is the first of them and is
    positive.  This holds with and without Karras sigmas. *)
Theorem sigmas_descend_to_zero {TL : TensorLib} (self : HeunDiscreteScheduler) (n : Z) :
  reachable self ->
  (1 <= num_train_timesteps (config self))%Z ->
  Forall (fun s => 0 < s) (train_sigmas self) ->
  strictly_increasing (train_sigmas self) ->
  (1 <= n)%Z ->
  exists self',
    set_timesteps n None self = (Ok tt, self')
    /\ descending (sigmas self')
    /\ Forall (fun s => 0 <= s) (sigmas self')
    /\ last (sigmas self') 1 = 0
    /\ init_noise_sigma self' = hd 0 (sigmas self')
    /\ 0 < init_noise_sigma self'.
Proof.
  intros Hr HT Hpos Hinc Hn.
  destruct (reachable_consistent _ Hr) as (_ & Hacp & _).
  destruct (set_timesteps_returns self n None Hacp Hn)
    as (s0 & ss & t0 & ts & Hsel & _ & _ & Hset).
  destruct (selected_sigmas_sorted _ _ _ _ Hsel HT Hpos Hinc) as (Hs & Hp & _).
  destruct (rebuilt_sigmas_sorted (with_num_inference_steps self n) (s0 :: ss) (t0 :: ts)
                                  Hs Hp ltac:(discriminate))
    as (H1 & H2 & H3 & H4 & H5 & H6).
  eexists. split; [exact Hset|].
  split; [exact H1|]. split; [exact H2|]. split; [exact H3|].
  split; [now rewrite H4, H5|exact H6].
Qed.

Lemma sigmas_descend_to_zero_witness :
  reachable example_scheduler
  /\ strictly_increasing (train_sigmas example_scheduler)
  /\ exists self',
      set_timesteps 3 None example_scheduler = (Ok tt, self')
      /\ descending (sigmas self')
      /\ last (sigmas self') 1 = 0.
Proof.
  destruct example_well_ordered as (_ & Hpos & Hinc).
  split; [exact example_reachable|]. split; [exact Hinc|].
  assert (HT : (1 <= num_train_timesteps (config example_scheduler))%Z)
    by (simpl; lia).
  assert (H3 : (1 <= 3)%Z) by lia.
  destruct (sigmas_descend_to_zero example_scheduler 3 example_reachable HT Hpos Hinc H3)
    as (s' & Hset & Hd & _ & Hl & _).
  exists s'. split; [exact Hset|]. split; [exact Hd|exact Hl].
Defined.

Section InitNoiseSigma.

Context {TL : TensorLib}.

Lemma first_selected_sigma (self : HeunDiscreteScheduler) (t : option Z) (sg ts : list R) :
  selected_schedule self t = Ok (sg, ts) ->
  Py.or_int t (num_train_timesteps (config self)) = num_train_timesteps (config self) ->
  (1 <= num_train_timesteps (config self))%Z ->
  Forall (fun s => 0 < s) (train_sigmas self) ->
  strictly_increasing (train_sigmas self) ->
  (1 <= num_inference_steps self)%Z ->
  init_noise_sigma (rebuilt self sg ts)
  = if (num_inference_steps self =? 1)%Z then hd 0 (train_sigmas self)
    else top_training_sigma self.
Proof.
  intros Hsel Ht HT Hpos Hinc Hn.
  rewrite <- Ht in HT.
  destruct (selected_sigmas_sorted _ _ _ _ Hsel HT Hpos Hinc) as (Hs & Hp & H1 & H2).
  rewrite Ht in H2.
  pose proof (selected_schedule_lengths _ _ _ _ Hsel) as (_ & Hlen & _).
  assert (Hne : sg <> []) by (destruct sg; [simpl in Hlen; lia|discriminate]).
  destruct (rebuilt_sigmas_sorted self sg ts Hs Hp Hne) as (_ & _ & _ & _ & -> & _).
  destruct (Z.eqb_spec (num_inference_steps self) 1) as [E|E].
  - now apply H1.
  - unfold top_training_sigma. apply H2. lia.
Qed.

End InitNoiseSigma.

(** X5.  The value of [init_noise_sigma].  After [__init__] with at least one
    training timestep and positive, strictly increasing training sigmas,
    [init_noise_sigma] is the training sigma at the timestep
    [num_train_timesteps - 1]: the last training sigma when there are as many
    betas as training timesteps.  On every object that calls of the methods
    lead to from there, [set_timesteps(N)] with [N >= 2] sets that same value
    again, whatever [N] is, so reading [init_noise_sigma] before or after
    such a call gives one value.  [set_timesteps(1)] selects the training
    timestep [0] and sets [init_noise_sigma] to the first training sigma. *)
Theorem init_noise_sigma_is_a_training_sigma {TL : TensorLib} (cfg : SchedulerConfig)
        (self : HeunDiscreteScheduler) :
  __init__ cfg = Ok self ->
  (1 <= num_train_timesteps cfg)%Z ->
  Forall (fun s => 0 < s) (train_sigmas self) ->
  strictly_increasing (train_sigmas self) ->
  init_noise_sigma self = top_training_sigma self
  /\ (length (betas self) = Z.to_nat (num_train_timesteps cfg) ->
      top_training_sigma self = last (train_sigmas self) 0)
  /\ (forall s n, evolves self s -> (1 <= n)%Z ->
      exists s', set_timesteps n None s = (Ok tt, s')
                 /\ init_noise_sigma s'
                    = if (n =? 1)%Z then hd 0 (train_sigmas self)
                      else top_training_sigma self).
Proof.
  intros Hinit HT Hpos Hinc.
  pose proof (init_config cfg self Hinit) as Hcfg.
  destruct (init_consistent cfg self Hinit) as (_ & Hacp & _).
  split; [|split].
  - destruct (init_eq cfg self Hinit) as (b & sg & ts & _ & Hsel & E).
    set (s0 := with_num_inference_steps (initial_self cfg b) (num_train_timesteps cfg)) in *.
    assert (Ets : train_sigmas self = train_sigmas s0) by (rewrite E; reflexivity).
    assert (Etop : top_training_sigma self = top_training_sigma s0)
      by (rewrite E; reflexivity).
    rewrite Ets in Hpos, Hinc.
    pose proof (first_selected_sigma s0 (Some (num_train_timesteps cfg)) sg ts Hsel
                  (or_int_same _) HT Hpos Hinc HT) as Hfirst.
    rewrite Etop. replace (init_noise_sigma self) with (init_noise_sigma (rebuilt s0 sg ts))
      by (rewrite E; reflexivity).
    rewrite Hfirst. cbn [num_inference_steps s0 with_num_inference_steps].
    destruct (Z.eqb_spec (num_train_timesteps cfg) 1) as [E1|E1]; [|reflexivity].
    unfold top_training_sigma. cbn [config s0 with_num_inference_steps initial_self].
    rewrite E1. simpl Z.to_nat. rewrite Nat.min_0_l.
    destruct (train_sigmas s0); reflexivity.
  - intros Hlen. unfold top_training_sigma. rewrite Hcfg.
    assert (Hl : length (train_sigmas self) = length (betas self)).
    { destruct (init_eq cfg self Hinit) as (b & sg & ts & _ & _ & ->).
      rewrite train_sigmas_length. cbn. now rewrite cumprod_length, length_map. }
    rewrite Hl, Hlen.
    replace (Nat.min (Z.to_nat (num_train_timesteps cfg - 1))
                     (Z.to_nat (num_train_timesteps cfg) - 1))
      with (length (train_sigmas self) - 1)%nat by lia.
    apply nth_pred_length_last.
  - intros s n He Hn.
    destruct (evolves_setup self s He) as (H1 & _ & _ & H4 & _).
    assert (Hacp' : alphas_cumprod s <> []) by (rewrite H4; exact Hacp).
    destruct (set_timesteps_returns s n None Hacp' Hn)
      as (g0 & gs & t0 & ts & Hsel & _ & _ & Hset).
    set (s1 := with_num_inference_steps s n) in *.
    assert (Ets : train_sigmas s1 = train_sigmas self)
      by (unfold train_sigmas; cbn; now rewrite H4).
    assert (Ecf : config s1 = config self) by exact H1.
    assert (Etop : top_training_sigma s1 = top_training_sigma self)
      by (unfold top_training_sigma; now rewrite Ets, Ecf).
    eexists. split; [exact Hset|].
    rewrite (first_selected_sigma s1 None (g0 :: gs) (t0 :: ts) Hsel eq_refl).
    + now rewrite Ets, Etop.
    + rewrite Ecf, Hcfg. exact HT.
    + now rewrite Ets.
    + now rewrite Ets.
    + exact Hn.
Qed.

Lemma init_noise_sigma_is_a_training_sigma_witness :
  __init__ example_config = Ok example_scheduler
  /\ (1 <= num_train_timesteps example_config)%Z
  /\ strictly_increasing (train_sigmas example_scheduler)
  /\ init_noise_sigma example_scheduler = top_training_sigma example_scheduler
  /\ top_training_sigma example_scheduler = last (train_sigmas example_scheduler) 0.
Proof.
  destruct example_well_ordered as (_ & Hpos & Hinc).
  assert (HT : (1 <= num_train_timesteps example_config)%Z) by (simpl; lia).
  destruct (init_noise_sigma_is_a_training_sigma example_config example_scheduler
              example_constructed HT Hpos Hinc) as (H1 & H2 & _).
  split; [exact example_constructed|]. split; [exact HT|]. split; [exact Hinc|].
  split; [exact H1|]. apply H2. reflexivity.
Defined.

(** ** [_sigma_to_t] on the training grid *)

Lemma log_sigmas_sorted (sigmas_ : list R) :
  Forall (fun s => 0 < s) sigmas_ -> strictly_increasing sigmas_ ->
  StronglySorted Rlt (map ln sigmas_).
Proof.
  intros Hpos Hinc. apply strictly_increasing_sorted in Hinc.
  apply (strongly_sorted_map (fun s => 0 < s) Rlt Rlt); [|exact Hpos|exact Hinc].
  intros x y Hx Hy Hxy. now apply ln_increasing.
Qed.

Lemma sigma_to_t_range (sigma : R) (L : list R) (t : R) :
  StronglySorted Rlt L -> (2 <= length L)%nat ->
  _sigma_to_t sigma L = Ok t -> 0 <= t <= INR (length L - 1).
Proof.
  intros HL Hlen Ht.
  destruct (sigma_to_t_eq sigma L HL Hlen) as (c & k & Hc & Hk & _ & _ & E).
  rewrite E in Ht. injection Ht as <-.
  pose proof (clip_unit ((nth k L 0 - ln sigma) / (nth k L 0 - nth (S k) L 0))) as Hw.
  set (w := Np.clip _ 0 1) in *.
  assert (Hk0 : 0 <= INR k) by apply pos_INR.
  assert (Hk1 : INR (S k) <= INR (length L - 1)) by (apply le_INR; clear - Hk Hlen; lia).
  change (match k with 0%nat => 1 | S _ => INR k + 1 end) with (INR (S k)).
  rewrite S_INR in *. nra.
Qed.

Lemma sigma_to_t_knot (L : list R) (j : nat) (sigma : R) :
  StronglySorted Rlt L -> (2 <= length L)%nat -> (j < length L)%nat ->
  ln sigma = nth j L 0 ->
  _sigma_to_t sigma L = Ok (INR j).
Proof.
  intros HL Hlen Hj Hln.
  destruct (sigma_to_t_eq sigma L HL Hlen) as (c & k & Hc & Hk & Hbelow & Habove & E).
  rewrite E. f_equal. rewrite Hln in *.
  assert (Hjc : (j < c)%nat).
  { destruct (Nat.lt_ge_cases j c) as [H|H]; [exact H|].
    specialize (Habove j ltac:(lia)). lra. }
  assert (Hcj : (c <= S j)%nat).
  { destruct (Nat.le_gt_cases c (S j)) as [H|H]; [exact H|].
    specialize (Hbelow (S j) H).
    pose proof (strongly_sorted_nth Rlt L HL j (S j) ltac:(lia)). lra. }
  assert (Ec : c = S j) by lia. subst c.
  replace (S j - 1)%nat with j in Hk by lia.
  destruct (Nat.le_gt_cases j (length L - 2)) as [Hjl|Hjl].
  - replace k with j by lia.
    replace ((nth j L 0 - nth j L 0) / (nth j L 0 - nth (S j) L 0)) with 0
      by (unfold Rdiv; ring).
    replace (Np.clip 0 0 1) with 0.
    + ring.
    + unfold Np.clip. rewrite Rmax_left by lra. rewrite Rmin_left by lra. reflexivity.
  - assert (Ej : j = S k) by lia. rewrite Ej.
    pose proof (strongly_sorted_nth Rlt L HL k (S k) ltac:(lia)) as Hlt.
    replace ((nth k L 0 - nth (S k) L 0) / (nth k L 0 - nth (S k) L 0)) with 1
      by (field; lra).
    replace (Np.clip 1 0 1) with 1.
    + ring.
    + unfold Np.clip. rewrite Rmax_left by lra. rewrite Rmin_left by lra. reflexivity.
Qed.

(** X6.  [_sigma_to_t] inverts the training grid.  For at least two positive,
    strictly increasing training sigmas, [_sigma_to_t] maps the training
    sigma at position [j] to the timestep [j] exactly, maps every positive
    sigma to a timestep between [0] and the last training position, and
    never decreases when sigma grows. *)
Theorem sigma_to_t_inverts_the_training_grid (training : list R) :
  Forall (fun s => 0 < s) training -> strictly_increasing training ->
  (2 <= length training)%nat ->
  (forall j, (j < length training)%nat ->
     _sigma_to_t (nth j training 0) (map ln training) = Ok (INR j))
  /\ (forall sigma, 0 < sigma ->
        exists t, _sigma_to_t sigma (map ln training) = Ok t
                  /\ 0 <= t <= INR (length training - 1))
  /\ (forall sigma1 sigma2 t1 t2, 0 < sigma1 -> sigma1 <= sigma2 ->
        _sigma_to_t sigma1 (map ln training) = Ok t1 ->
        _sigma_to_t sigma2 (map ln training) = Ok t2 -> t1 <= t2).
Proof.
  intros Hpos Hinc Hlen.
  pose proof (log_sigmas_sorted training Hpos Hinc) as HL.
  assert (Hlen' : (2 <= length (map ln training))%nat) by now rewrite length_map.
  split; [|split].
  - intros j Hj. apply sigma_to_t_knot; [exact HL|exact Hlen'|now rewrite length_map|].
    rewrite (nth_indep (map ln training) 0 (ln 0)) by now rewrite length_map.
    now rewrite map_nth.
  - intros sigma Hs.
    destruct (sigma_to_t_ok sigma (map ln training)) as [t Ht].
    { destruct training; [simpl in Hlen; lia|discriminate]. }
    exists t. split; [exact Ht|].
    rewrite <- (length_map ln training). now apply (sigma_to_t_range sigma).
  - intros s1 s2 t1 t2 Hs1 Hs12 H1 H2.
    now apply (sigma_to_t_monotone (map ln training) s1 s2 t1 t2).
Qed.

Lemma sigma_to_t_inverts_the_training_grid_witness :
  strictly_increasing (train_sigmas example_scheduler)
  /\ (2 <= length (train_sigmas example_scheduler))%nat
  /\ _sigma_to_t (nth 1 (train_sigmas example_scheduler) 0)
                 (map ln (train_sigmas example_scheduler)) = Ok (INR 1).
Proof.
  destruct example_well_ordered as (Hlen & Hpos & Hinc).
  split; [exact Hinc|]. split; [exact Hlen|].
  destruct (sigma_to_t_inverts_the_training_grid (train_sigmas example_scheduler)
              Hpos Hinc Hlen) as (H & _).
  apply H. exact Hlen.
Defined.

(** ** The Karras conversion *)

(** X7.  The Karras conversion keeps the range.  Given input sigmas whose
    last entry is positive and not above the first, [_convert_to_karras]
    with [N >= 1] returns [N] sigmas that never increase, all of them
    between the last and the first input sigma; the first returned sigma is
    the first input sigma, and with [N >= 2] the last returned sigma is the
    last input sigma. *)
Theorem convert_to_karras_keeps_the_range (in_sigmas : list R) (n : Z) :
  0 < last in_sigmas 0 -> last in_sigmas 0 <= hd 0 in_sigmas -> (1 <= n)%Z ->
  exists ks,
    _convert_to_karras in_sigmas n = Ok ks
    /\ length ks = Z.to_nat n
    /\ descending ks
    /\ Forall (fun s => last in_sigmas 0 <= s <= hd 0 in_sigmas) ks
    /\ hd 0 ks = hd 0 in_sigmas
    /\ ((2 <= n)%Z -> last ks 0 = last in_sigmas 0).
Proof.
  intros Hmin Hle Hn.
  assert (Hne : in_sigmas <> []) by (intros ->; simpl in Hmin; lra).
  destruct (convert_to_karras_ok in_sigmas n Hne ltac:(lia)) as (ks & Hk & Hlen).
  destruct (convert_to_karras_sorted _ _ _ Hk Hmin Hle) as [Hs Hpos].
  destruct (convert_to_karras_ends _ _ _ Hk Hmin ltac:(lra)) as (_ & Hhd & Hlast).
  exists ks. split; [exact Hk|]. split; [exact Hlen|].
  split; [now apply strongly_sorted_descending|].
  split; [|split; [apply Hhd; lia|exact Hlast]].
  specialize (Hhd Hn).
  destruct ks as [|k0 ks]; [simpl in Hlen; lia|]. simpl in Hhd. subst k0.
  inversion Hs as [|? ? Hs' Hall]; subst.
  constructor; [lra|].
  destruct ks as [|k1 ks]; [constructor|].
  assert (Hn2 : (2 <= n)%Z) by (simpl in Hlen; lia).
  specialize (Hlast Hn2). change (last (hd 0 in_sigmas :: k1 :: ks) 0)
    with (last (k1 :: ks) 0) in Hlast.
  apply Forall_forall. intros s Hin. split.
  - rewrite <- Hlast. destruct (exists_last (l := k1 :: ks) ltac:(discriminate))
      as (front & z & E). rewrite E in *. rewrite last_last.
    apply in_app_or in Hin. destruct Hin as [Hin|[<-|[]]]; [|lra].
    apply In_nth with (d := 0) in Hin. destruct Hin as (i & Hi & <-).
    pose proof (strongly_sorted_nth Rge (front ++ [z]) Hs' i (length front)) as H.
    rewrite length_app in H. simpl in H. specialize (H ltac:(lia)).
    rewrite app_nth1 in H by exact Hi. rewrite nth_middle in H. lra.
  - rewrite Forall_forall in Hall. specialize (Hall s Hin). lra.
Qed.

Lemma convert_to_karras_keeps_the_range_witness :
  exists ks, _convert_to_karras [4; 2; 1] 2 = Ok ks
             /\ length ks = 2%nat
             /\ hd 0 ks = 4
             /\ last ks 0 = 1.
Proof.
  assert (Hmin : 0 < last [4; 2; 1] 0) by (simpl; lra).
  assert (Hle : last [4; 2; 1] 0 <= hd 0 [4; 2; 1]) by (simpl; lra).
  assert (Hn : (1 <= 2)%Z) by lia.
  destruct (convert_to_karras_keeps_the_range [4; 2; 1] 2 Hmin Hle Hn)
    as (ks & Hk & Hlen & _ & _ & Hhd & Hlast).
  exists ks. split; [exact Hk|]. split; [exact Hlen|]. split; [exact Hhd|].
  apply Hlast. lia.
Defined.

(** ** The first and the last timestep *)

Lemma repeat_interleave_2_last (l : list R) (d : R) :
  last (Paddle.repeat_interleave_2 l) d = last l d.
Proof.
  induction l as [|a l IH]; [reflexivity|].
  destruct l as [|b l]; [reflexivity|].
  change (Paddle.repeat_interleave_2 (a :: b :: l))
    with (a :: a :: Paddle.repeat_interleave_2 (b :: l)).
  change (last (a :: b :: l) d) with (last (b :: l) d). rewrite <- IH.
  change (Paddle.repeat_interleave_2 (b :: l)) with (b :: b :: Paddle.repeat_interleave_2 l).
  reflexivity.
Qed.

Lemma duplicate_timesteps_ends (ts : list R) :
  hd 0 (duplicate_timesteps ts) = hd 0 ts
  /\ last (duplicate_timesteps ts) 0 = last ts 0
  /\ (forall t, In t (duplicate_timesteps ts) -> In t ts).
Proof.
  destruct ts as [|a l]; [repeat split; auto|].
  rewrite duplicate_timesteps_cons. split; [reflexivity|]. split.
  - destruct l as [|b l]; [reflexivity|].
    change (last (a :: b :: l) 0) with (last (b :: l) 0).
    rewrite <- (repeat_interleave_2_last (b :: l) 0). reflexivity.
  - intros t [<-|Hin]; [now left|]. right. now apply repeat_interleave_2_In.
Qed.

Lemma rmap_Forall2_ok {A B : Type} (f : A -> result B) (l : list A) (l' : list B) :
  rmap f l = Ok l' -> Forall2 (fun a b => f a = Ok b) l l'.
Proof.
  revert l'. induction l as [|a l IH]; intros l' H.
  - simpl in H. injection H as <-. constructor.
  - simpl in H. destruct (f a) as [b|] eqn:Ea; [|discriminate]. simpl in H.
    destruct (rmap f l) as [bs|]; [|discriminate]. simpl in H. injection H as <-.
    constructor; [exact Ea|now apply IH].
Qed.

Lemma Forall2_hd_last {A B : Type} (P : A -> B -> Prop) (l : list A) (l' : list B)
      (da : A) (db : B) :
  Forall2 P l l' -> l <> [] -> P (hd da l) (hd db l') /\ P (last l da) (last l' db).
Proof.
  induction 1 as [|a b l l' Hab Hall IH]; [congruence|]. intros _.
  split; [exact Hab|].
  destruct Hall as [|a' b' l l' Hab' Hall]; [exact Hab|].
  change (last (a :: a' :: l) da) with (last (a' :: l) da).
  change (last (b :: b' :: l') db) with (last (b' :: l') db).
  apply IH. discriminate.
Qed.

Section SelectedTimesteps.

Context {TL : TensorLib}.

(** What [set_timesteps] selects as timesteps: the reversed [np.linspace], or
    with Karras sigmas the images of the selected sigmas under
    [_sigma_to_t]. *)
Lemma selected_timesteps_eq (self : HeunDiscreteScheduler) (t : option Z) (sg ts : list R) :
  selected_schedule self t = Ok (sg, ts) ->
  (get_use_karras_sigmas self = false
   /\ ts = rev (Np.linspace_values 0
                  (IZR (Py.or_int t (num_train_timesteps (config self)) - 1))
                  (Z.to_nat (num_inference_steps self))))
  \/ (get_use_karras_sigmas self = true
      /\ rmap (fun sigma => _sigma_to_t sigma (map ln (train_sigmas self))) sg = Ok ts).
Proof.
  intros Hsel.
  pose proof (selected_schedule_lengths _ _ _ _ Hsel) as (Hn & _ & _ & Hacp).
  pose proof (train_sigmas_nonempty self Hacp) as Hfp.
  unfold selected_schedule, Np.linspace in Hsel.
  destruct (Z.ltb_spec (num_inference_steps self) 0); [lia|]. simpl rbind in Hsel.
  rewrite interp_ok in Hsel by assumption. simpl rbind in Hsel.
  destruct (get_use_karras_sigmas self).
  - right. split; [reflexivity|].
    destruct (_convert_to_karras _ _) as [ks|]; [|discriminate]. simpl rbind in Hsel.
    destruct (rmap _ ks) as [kt|] eqn:Er; [|discriminate]. simpl rbind in Hsel.
    injection Hsel as <- <-. exact Er.
  - left. split; [reflexivity|]. now injection Hsel as _ <-.
Qed.

Lemma selected_timesteps_span (self : HeunDiscreteScheduler) (sg ts : list R) :
  selected_schedule self None = Ok (sg, ts) ->
  (1 <= num_train_timesteps (config self))%Z ->
  (get_use_karras_sigmas self = true ->
   well_ordered_training self
   /\ Z.of_nat (length (train_sigmas self)) = num_train_timesteps (config self)) ->
  (2 <= num_inference_steps self)%Z ->
  hd 0 ts = IZR (num_train_timesteps (config self) - 1)
  /\ last ts 0 = 0
  /\ Forall (fun t => 0 <= t <= IZR (num_train_timesteps (config self) - 1)) ts.
Proof.
  intros Hsel HT Hk Hn.
  pose proof (selected_schedule_lengths _ _ _ _ Hsel) as (_ & Hlsg & Hlts & Hacp).
  set (T := num_train_timesteps (config self)) in *.
  assert (Hb : 0 <= IZR (T - 1)) by (apply IZR_le; lia).
  destruct (selected_timesteps_eq self None sg ts Hsel) as [[_ ->]|[Hkt Hr]].
  - cbn [Py.or_int]. fold T.
    set (lin := Np.linspace_values 0 (IZR (T - 1)) (Z.to_nat (num_inference_steps self))).
    assert (Hlast : last lin 0 = IZR (T - 1)) by (apply linspace_values_last; lia).
    destruct (linspace_values_first 0 (IZR (T - 1)) (Z.to_nat (num_inference_steps self))
                                    ltac:(lia)) as (a0 & l & El & ->).
    fold lin in El.
    split; [|split].
    + assert (Hnn : lin <> []) by (rewrite El; discriminate).
      destruct (exists_last Hnn) as (front & z & E). rewrite E in Hlast |- *.
      rewrite last_last in Hlast. subst z. now rewrite rev_app_distr.
    + rewrite El. simpl rev. now rewrite last_last.
    + apply Forall_forall. intros x Hx. apply in_rev in Hx.
      pose proof (linspace_values_bounds 0 (IZR (T - 1))
                    (Z.to_nat (num_inference_steps self)) Hb) as Hbd.
      rewrite Forall_forall in Hbd. now apply Hbd.
  - destruct (Hk Hkt) as ((Hlen & Hpos & Hinc) & HlenT).
    destruct (selected_sigmas_sorted self None sg ts Hsel HT Hpos Hinc)
      as (_ & Hsgpos & _ & Hends).
    destruct (Hends Hn) as [Hhd Hlast]. cbn [Py.or_int] in Hhd. fold T in Hhd.
    pose proof (log_sigmas_sorted _ Hpos Hinc) as HL.
    assert (Hlen' : (2 <= length (map ln (train_sigmas self)))%nat)
      by now rewrite length_map.
    assert (Hsg : sg <> []) by (destruct sg; [simpl in Hlsg; lia|discriminate]).
    pose proof (rmap_Forall2_ok _ _ _ Hr) as HF.
    destruct (Forall2_hd_last _ sg ts 0 0 HF Hsg) as [H1 H2].
    assert (Hknot : forall j, (j < length (train_sigmas self))%nat ->
              _sigma_to_t (nth j (train_sigmas self) 0) (map ln (train_sigmas self))
              = Ok (INR j)).
    { intros j Hj. apply sigma_to_t_knot; [exact HL|exact Hlen'|now rewrite length_map|].
      rewrite (nth_indep (map ln (train_sigmas self)) 0 (ln 0)) by now rewrite length_map.
      now rewrite map_nth. }
    split; [|split].
    + rewrite Hhd in H1.
      replace (Nat.min (Z.to_nat (T - 1)) (length (train_sigmas self) - 1))
        with (Z.to_nat (T - 1)) in H1 by lia.
      rewrite Hknot in H1 by lia. injection H1 as <-.
      rewrite INR_IZR_INZ, Z2Nat.id by lia. reflexivity.
    + rewrite Hlast in H2.
      replace (hd 0 (train_sigmas self)) with (nth 0 (train_sigmas self) 0) in H2
        by (destruct (train_sigmas self); reflexivity).
      rewrite Hknot in H2 by lia. now injection H2 as <-.
    + apply Forall_forall. intros x Hx.
      destruct (rmap_In _ _ _ _ Hr Hx) as (s & Hs & Es).
      pose proof (sigma_to_t_range s _ x HL Hlen' Es) as Hrg.
      rewrite length_map in Hrg.
      replace (IZR (T - 1)) with (INR (length (train_sigmas self) - 1)); [exact Hrg|].
      rewrite INR_IZR_INZ. f_equal. lia.
Qed.

End SelectedTimesteps.

(** X8.  The timesteps span the training range.  On a reachable scheduler
    with at least one training timestep, [set_timesteps(N)] with [N >= 2]
    returns and leaves timesteps that start at [num_train_timesteps - 1],
    end at [0] and all lie between the two.  With Karras sigmas, where the
    timesteps are computed by [_sigma_to_t], this holds when there are as
    many training sigmas as training timesteps, at least two, positive and
    strictly increasing. *)
Theorem timesteps_span_the_training_range {TL : TensorLib}
        (self : HeunDiscreteScheduler) (n : Z) :
  reachable self ->
  (1 <= num_train_timesteps (config self))%Z ->
  (get_use_karras_sigmas self = true ->
   well_ordered_training self
   /\ Z.of_nat (length (train_sigmas self)) = num_train_timesteps (config self)) ->
  (2 <= n)%Z ->
  exists self',
    set_timesteps n None self = (Ok tt, self')
    /\ hd 0 (timesteps self') = IZR (num_train_timesteps (config self) - 1)
    /\ last (timesteps self') 0 = 0
    /\ Forall (fun t => 0 <= t <= IZR (num_train_timesteps (config self) - 1))
              (timesteps self').
Proof.
  intros Hr HT Hk Hn.
  destruct (reachable_consistent _ Hr) as (_ & Hacp & _).
  destruct (set_timesteps_returns self n None Hacp ltac:(lia))
    as (s0 & ss & t0 & ts & Hsel & _ & _ & Hset).
  destruct (selected_timesteps_span _ _ _ Hsel HT Hk Hn) as (H1 & H2 & H3).
  destruct (duplicate_timesteps_ends (t0 :: ts)) as (E1 & E2 & E3).
  eexists. split; [exact Hset|]. cbn [timesteps rebuilt].
  split; [now rewrite E1|]. split; [now rewrite E2|].
  apply Forall_forall. intros x Hx. rewrite Forall_forall in H3. apply H3. now apply E3.
Qed.

Lemma timesteps_span_the_training_range_witness :
  exists (self self' : @HeunDiscreteScheduler scalar_tensors),
    __init__ karras_config = Ok self
    /\ get_use_karras_sigmas self = true
    /\ set_timesteps 3 None self = (Ok tt, self')
    /\ hd 0 (timesteps self') = 1
    /\ last (timesteps self') 0 = 0.
Proof.
  destruct (init_returns_generated (TL := scalar_tensors) karras_config eq_refl
              (or_introl eq_refl) ltac:(simpl; lia)) as [self Hinit].
  pose proof (init_config _ _ Hinit) as Hcfg.
  assert (Hk : get_use_karras_sigmas self = true).
  { destruct (init_eq _ _ Hinit) as (b & sg & ts & _ & _ & ->). reflexivity. }
  assert (Hwo : well_ordered_training self).
  { apply (generated_well_ordered karras_config); [exact Hinit|reflexivity| | | |];
      simpl; lra || lia. }
  assert (Hlen : Z.of_nat (length (train_sigmas self)) = num_train_timesteps (config self)).
  { destruct (generated_schedule_facts karras_config self Hinit eq_refl)
      as (H1 & H2 & _); [simpl; lra|simpl; lra|simpl; lra|].
    rewrite train_sigmas_length, H2, H1, Hcfg. reflexivity. }
  assert (HT : (1 <= num_train_timesteps (config self))%Z) by (rewrite Hcfg; simpl; lia).
  assert (H3 : (2 <= 3)%Z) by lia.
  destruct (timesteps_span_the_training_range self 3
              (reach_init karras_config self Hinit) HT (fun _ => conj Hwo Hlen) H3)
    as (self' & Hset & Hhd & Hlast & _).
  exists self, self'. split; [exact Hinit|]. split; [exact Hk|]. split; [exact Hset|].
  split; [|exact Hlast]. rewrite Hhd, Hcfg. simpl. lra.
Defined.

(** ** Positions of a timestep in the duplicated schedule *)

Lemma getitem_app_at {A : Type} (l1 l2 : list A) (k : nat) (d : A) :
  (k < length l2)%nat ->
  Py.getitem (l1 ++ l2) (Z.of_nat (length l1 + k)) = Ok (nth k l2 d).
Proof.
  intros Hk. rewrite (getitem_nth _ _ d) by (rewrite length_app; lia).
  rewrite Nat2Z.id, app_nth2 by lia. do 2 f_equal. lia.
Qed.

Lemma matches_at_middle (pre post : list R) (t : R) (j : Z) :
  ~ In t pre -> ~ In t post ->
  matches_at (pre ++ t :: t :: post) t j <->
  j = Z.of_nat (length pre) \/ j = (Z.of_nat (length pre) + 1)%Z.
Proof.
  intros Hpre Hpost. unfold matches_at. rewrite length_app. simpl length. split.
  - intros [Hj Hn].
    destruct (Z_lt_ge_dec j (Z.of_nat (length pre))) as [H1|H1].
    + exfalso. apply Hpre. rewrite app_nth1 in Hn by lia. rewrite <- Hn.
      apply nth_In. lia.
    + destruct (Z_le_gt_dec j (Z.of_nat (length pre) + 1)) as [H2|H2]; [lia|].
      exfalso. apply Hpost. rewrite app_nth2 in Hn by lia.
      replace (Z.to_nat j - length pre)%nat
        with (S (S (Z.to_nat j - length pre - 2))) in Hn by lia.
      simpl in Hn. rewrite <- Hn. apply nth_In. lia.
  - intros [->| ->]; (split; [lia|]); rewrite app_nth2 by lia.
    + replace (Z.to_nat (Z.of_nat (length pre)) - length pre)%nat with 0%nat by lia.
      reflexivity.
    + replace (Z.to_nat (Z.of_nat (length pre) + 1) - length pre)%nat with 1%nat by lia.
      reflexivity.
Qed.

Lemma index_in_the_middle (pre post : list R) (t : R) :
  ~ In t pre -> ~ In t post ->
  Py.getitem (Paddle.nonzero_eq (pre ++ t :: t :: post) t) 0 = Ok (Z.of_nat (length pre))
  /\ Py.getitem (Paddle.nonzero_eq (pre ++ t :: t :: post) t) (-1)
     = Ok (Z.of_nat (length pre) + 1)%Z.
Proof.
  intros Hpre Hpost.
  assert (Hin : In t (pre ++ t :: t :: post)) by (apply in_or_app; right; now left).
  pose proof (proj2 (matches_at_middle pre post t _ Hpre Hpost) (or_introl eq_refl)) as H0.
  pose proof (proj2 (matches_at_middle pre post t _ Hpre Hpost) (or_intror eq_refl)) as H1.
  destruct (nonzero_eq_first _ _ Hin) as (i & -> & Hi & Hmin).
  destruct (nonzero_eq_last _ _ Hin) as (k & -> & Hk & Hmax).
  apply (matches_at_middle pre post t _ Hpre Hpost) in Hi, Hk.
  specialize (Hmin _ H0). specialize (Hmax _ H1).
  split; f_equal; lia.
Qed.

Lemma index_at_the_head (post : list R) (t : R) :
  ~ In t post -> Py.getitem (Paddle.nonzero_eq (t :: post) t) (-1) = Ok 0%Z.
Proof.
  intros Hpost.
  destruct (nonzero_eq_last (t :: post) t (or_introl eq_refl)) as (k & -> & [Hk Hn] & _).
  f_equal. simpl length in Hk.
  destruct (Z.eq_dec k 0) as [E|E]; [exact E|].
  exfalso. apply Hpost.
  replace (Z.to_nat k) with (S (Z.to_nat k - 1)) in Hn by lia. simpl in Hn.
  rewrite <- Hn. apply nth_In. lia.
Qed.

Lemma linspace_values_strictly_sorted (a b : R) (n : nat) :
  a < b -> StronglySorted Rlt (Np.linspace_values a b n).
Proof.
  intros Hab. unfold Np.linspace_values.
  destruct n as [|[|n]]; [constructor|repeat constructor|].
  apply strongly_sorted_map_seq. intros i j Hij _.
  set (d := INR (S (S n) - 1)).
  assert (Hd : 0 < d) by (apply lt_0_INR; lia).
  set (q := (b - a) / d).
  assert (Hq : 0 < q).
  { unfold q, Rdiv. apply Rmult_lt_0_compat; [lra|]. now apply Rinv_0_lt_compat. }
  assert (Hi : INR i < INR j) by (apply lt_INR; lia).
  nra.
Qed.

Lemma strongly_sorted_rev_strict (l : list R) :
  StronglySorted Rlt l -> StronglySorted Rgt (rev l).
Proof.
  induction 1 as [|a l Hs IH Hall]; simpl; [constructor|].
  apply strongly_sorted_app; [exact IH|repeat constructor|].
  intros x y Hx Hy. destruct Hy as [<-|[]]. apply in_rev in Hx.
  rewrite Forall_forall in Hall. apply Rlt_gt. now apply Hall.
Qed.

(** ** The calls that the loop makes *)

Section LoopCalls.

Context {TL : TensorLib}.

Lemma scale_model_input_run (x : Tensor) (t : R) (self : HeunDiscreteScheduler) :
  scale_model_input x t self =
  (let? i := Py.getitem (Paddle.nonzero_eq (timesteps self) t)
                        (if state_in_first_order self then (-1)%Z else 0%Z) in
   let? sigma := Py.getitem (sigmas self) i in
   Ok (t_div x (t_scalar (sqrt (sigma ^ 2 + 1)))),
   self).
Proof.
  unfold scale_model_input, bind. rewrite index_for_timestep_run.
  destruct (Py.getitem _ _) as [i|]; [|reflexivity].
  unfold get_self, lift, ret. simpl rbind.
  destruct (Py.getitem (sigmas self) i); reflexivity.
Qed.

(** A predictor call at the index [i]. *)
Lemma predictor_call (self : HeunDiscreteScheduler) (t : R) (x mo : Tensor) (i : Z)
      (sigma sigma_next : R) :
  state_in_first_order self = true ->
  Py.getitem (Paddle.nonzero_eq (timesteps self) t) (-1) = Ok i ->
  Py.getitem (sigmas self) i = Ok sigma ->
  Py.getitem (sigmas self) (i + 1) = Ok sigma_next ->
  scale_model_input x t self = (Ok (t_div x (t_scalar (sqrt (sigma ^ 2 + 1)))), self)
  /\ step mo t x true self =
     match pred_original (prediction_type (config self)) mo x sigma with
     | Raise e => (Raise e, self)
     | Ok pred =>
         let derivative := t_div (t_sub x pred) (t_scalar sigma) in
         (Ok (SchedulerOutput (t_add x (t_mul derivative (t_scalar (sigma_next - sigma))))),
          stored_state self derivative (sigma_next - sigma) x)
     end.
Proof.
  intros Hfo Hi Hs Hn. split.
  - rewrite scale_model_input_run, Hfo, Hi. simpl rbind. now rewrite Hs.
  - rewrite step_first_order by exact Hfo. rewrite Hi, Hs, Hn, gamma_is_0. reflexivity.
Qed.

(** A corrector call at the index [i]. *)
Lemma corrector_call (self : HeunDiscreteScheduler) (t : R) (x mo : Tensor) (i : Z)
      (sigma sigma_next : R) (d x0 : Tensor) (dt0 : R) :
  Py.getitem (Paddle.nonzero_eq (timesteps self) t) 0 = Ok i ->
  Py.getitem (sigmas self) (i - 1) = Ok sigma ->
  Py.getitem (sigmas self) i = Ok sigma_next ->
  prev_derivative self = Some d -> dt self = Some dt0 -> sample self = Some x0 ->
  scale_model_input x t self = (Ok (t_div x (t_scalar (sqrt (sigma_next ^ 2 + 1)))), self)
  /\ step mo t x true self =
     match pred_original (prediction_type (config self)) mo x sigma_next with
     | Raise e => (Raise e, self)
     | Ok pred =>
         let derivative := t_div (t_sub x pred) (t_scalar sigma_next) in
         (Ok (SchedulerOutput
                (t_add x0 (t_mul (t_div (t_add d derivative) (t_scalar 2)) (t_scalar dt0)))),
          cleared_state self)
     end.
Proof.
  intros Hi Hs Hn Hd Hdt Hx.
  assert (Hfo : state_in_first_order self = false)
    by (unfold state_in_first_order; now rewrite Hdt).
  split.
  - rewrite scale_model_input_run, Hfo, Hi. simpl rbind. now rewrite Hn.
  - rewrite step_second_order by exact Hfo. rewrite Hi, Hs, Hn, Hd, Hx, Hdt. reflexivity.
Qed.

End LoopCalls.

(** ** The loop computes Heun's method *)

Section HeunRefinement.

Context {TL : TensorLib}.

Variable unet : Tensor -> R -> Tensor.

Lemma denoising_loop_cons (t : R) (ts : list R) (x : Tensor) (s : HeunDiscreteScheduler) :
  denoising_loop unet (t :: ts) x s =
  match scale_model_input x t s with
  | (Ok y, s1) =>
      match step (unet y t) t x true s1 with
      | (Ok out, s2) => denoising_loop unet ts (output_sample out) s2
      | (Raise e, s2) => (Raise e, s2)
      end
  | (Raise e, s1) => (Raise e, s1)
  end.
Proof. reflexivity. Qed.

(** The first call of the loop: a predictor call at the index [0]. *)
Lemma first_call (pt : string) (s : HeunDiscreteScheduler) (post spost : list R)
      (tau sigma sigma_next : R) (x : Tensor) (rest : list R) :
  ~ In tau post -> state_in_first_order s = true ->
  timesteps s = tau :: post -> sigmas s = sigma :: sigma_next :: spost ->
  prediction_type (config s) = pt ->
  fst (denoising_loop unet (tau :: rest) x s) =
  (let? d := ode_derivative unet pt x sigma tau in
   fst (denoising_loop unet rest (t_add x (t_mul d (t_scalar (sigma_next - sigma))))
                       (stored_state s d (sigma_next - sigma) x))).
Proof.
  intros Hpost Hfo Hts Hsig Hpt.
  pose proof (index_at_the_head post tau Hpost) as I. rewrite <- Hts in I.
  assert (H0 : Py.getitem (sigmas s) 0 = Ok sigma) by (rewrite Hsig; reflexivity).
  assert (H1 : Py.getitem (sigmas s) (0 + 1) = Ok sigma_next).
  { rewrite Hsig, (getitem_nth _ _ 0) by (simpl length; lia). reflexivity. }
  rewrite denoising_loop_cons.
  destruct (predictor_call s tau x (unet (t_div x (t_scalar (sqrt (sigma ^ 2 + 1)))) tau)
                           0 sigma sigma_next Hfo I H0 H1) as [Esc Est].
  rewrite Esc, Est, Hpt. unfold ode_derivative, denoiser.
  destruct (pred_original pt _ x sigma) as [pred|e]; reflexivity.
Qed.

(** A corrector call and the predictor call that follows it, both at the
    timestep that occupies the positions [length pre] and [length pre + 1]. *)
Lemma pair_of_calls (pt : string) (s : HeunDiscreteScheduler)
      (pre post spre spost : list R) (tau sigma sigma_prev sigma_next : R)
      (d x0 xt : Tensor) (rest : list R) :
  ~ In tau pre -> ~ In tau post ->
  length pre = S (length spre) ->
  timesteps s = pre ++ tau :: tau :: post ->
  sigmas s = spre ++ sigma_prev :: sigma :: sigma :: sigma_next :: spost ->
  prediction_type (config s) = pt ->
  prev_derivative s = Some d -> dt s = Some (sigma - sigma_prev) -> sample s = Some x0 ->
  fst (denoising_loop unet (tau :: tau :: rest) xt s) =
  (let? d' := ode_derivative unet pt xt sigma tau in
   let x' := t_add x0 (t_mul (t_div (t_add d d') (t_scalar 2))
                             (t_scalar (sigma - sigma_prev))) in
   let? d2 := ode_derivative unet pt x' sigma tau in
   fst (denoising_loop unet rest (t_add x' (t_mul d2 (t_scalar (sigma_next - sigma))))
                       (stored_state (cleared_state s) d2 (sigma_next - sigma) x'))).
Proof.
  intros Hpre Hpost HP Hts Hsig Hpt Hd Hdt Hx.
  destruct (index_in_the_middle pre post tau Hpre Hpost) as [I0 I1].
  rewrite <- Hts in I0, I1.
  set (tail := sigma_prev :: sigma :: sigma :: sigma_next :: spost) in *.
  assert (Hk : forall k, (k < 4)%nat ->
             Py.getitem (sigmas s) (Z.of_nat (length spre + k)) = Ok (nth k tail 0)).
  { intros k Hk. rewrite Hsig. apply getitem_app_at. simpl. lia. }
  assert (Sprev : Py.getitem (sigmas s) (Z.of_nat (length pre) - 1) = Ok sigma_prev).
  { replace (Z.of_nat (length pre) - 1)%Z with (Z.of_nat (length spre + 0)) by lia.
    now rewrite Hk by lia. }
  assert (Scur : Py.getitem (sigmas s) (Z.of_nat (length pre)) = Ok sigma).
  { replace (Z.of_nat (length pre)) with (Z.of_nat (length spre + 1)) by lia.
    now rewrite Hk by lia. }
  assert (Scur' : Py.getitem (sigmas s) (Z.of_nat (length pre) + 1) = Ok sigma).
  { replace (Z.of_nat (length pre) + 1)%Z with (Z.of_nat (length spre + 2)) by lia.
    now rewrite Hk by lia. }
  assert (Snext : Py.getitem (sigmas s) (Z.of_nat (length pre) + 1 + 1) = Ok sigma_next).
  { replace (Z.of_nat (length pre) + 1 + 1)%Z with (Z.of_nat (length spre + 3)) by lia.
    now rewrite Hk by lia. }
  rewrite denoising_loop_cons.
  destruct (corrector_call s tau xt (unet (t_div xt (t_scalar (sqrt (sigma ^ 2 + 1)))) tau)
                           _ sigma_prev sigma d x0 _ I0 Sprev Scur Hd Hdt Hx) as [Esc Est].
  rewrite Esc, Est, Hpt. unfold ode_derivative at 1. unfold denoiser.
  destruct (pred_original pt _ xt sigma) as [pred|e]; [|reflexivity].
  cbv zeta. cbn [rbind output_sample].
  set (x' := t_add x0 _).
  rewrite denoising_loop_cons.
  destruct (predictor_call (cleared_state s) tau x'
              (unet (t_div x' (t_scalar (sqrt (sigma ^ 2 + 1)))) tau)
              _ sigma sigma_next eq_refl I1 Scur' Snext) as [Esc' Est'].
  rewrite Esc', Est'. cbn [config cleared_state]. rewrite Hpt.
  unfold ode_derivative, denoiser.
  destruct (pred_original pt _ x' sigma) as [pred'|e]; reflexivity.
Qed.

(** The loop from a corrector call on: the rest of Heun's method. *)
Lemma corrector_stage (pt : string) (ts : list R) :
  forall (sg : list R) (tau sigma sigma_prev : R) (pre spre : list R)
         (s : HeunDiscreteScheduler) (d x0 xt : Tensor),
    length sg = length ts ->
    StronglySorted Rgt (tau :: ts) ->
    Forall (fun p => p > tau) pre ->
    length pre = S (length spre) ->
    timesteps s = pre ++ Paddle.repeat_interleave_2 (tau :: ts) ->
    sigmas s = spre ++ sigma_prev :: Paddle.repeat_interleave_2 (sigma :: sg) ++ [0] ->
    prediction_type (config s) = pt ->
    prev_derivative s = Some d -> dt s = Some (sigma - sigma_prev) -> sample s = Some x0 ->
    fst (denoising_loop unet (Paddle.repeat_interleave_2 (tau :: ts)) xt s) =
    (let? d' := ode_derivative unet pt xt sigma tau in
     heun_sampler unet pt (combine (sigma :: sg) (tau :: ts))
                  (t_add x0 (t_mul (t_div (t_add d d') (t_scalar 2))
                                   (t_scalar (sigma - sigma_prev))))).
Proof.
  induction ts as [|tau' ts IH];
    intros sg tau sigma sigma_prev pre spre s d x0 xt
           Hlen Hsort Hpre HP Hts Hsig Hpt Hd Hdt Hx.
  - destruct sg; [|discriminate].
    assert (Hnpre : ~ In tau pre).
    { intros Hin. rewrite Forall_forall in Hpre. specialize (Hpre _ Hin). lra. }
    change (Paddle.repeat_interleave_2 [tau]) with [tau; tau].
    rewrite (pair_of_calls pt s pre [] spre [] tau sigma sigma_prev 0 d x0 xt []
                           Hnpre (fun H => H) HP Hts Hsig Hpt Hd Hdt Hx).
    destruct (ode_derivative unet pt xt sigma tau) as [d'|e]; [|reflexivity].
    cbn [rbind combine heun_sampler]. cbv zeta.
    destruct (ode_derivative unet pt _ sigma tau) as [d2|e]; reflexivity.
  - destruct sg as [|sigma' sg]; [discriminate|].
    assert (Hnpre : ~ In tau pre).
    { intros Hin. rewrite Forall_forall in Hpre. specialize (Hpre _ Hin). lra. }
    apply StronglySorted_inv in Hsort. destruct Hsort as [Hsort' Hall].
    assert (Hnpost : ~ In tau (Paddle.repeat_interleave_2 (tau' :: ts))).
    { intros Hin. apply repeat_interleave_2_In in Hin.
      rewrite Forall_forall in Hall. specialize (Hall _ Hin). lra. }
    assert (Htt : tau > tau') by (rewrite Forall_forall in Hall; apply Hall; now left).
    change (Paddle.repeat_interleave_2 (tau :: tau' :: ts))
      with (tau :: tau :: Paddle.repeat_interleave_2 (tau' :: ts)).
    rewrite (pair_of_calls pt s pre (Paddle.repeat_interleave_2 (tau' :: ts)) spre
                           (sigma' :: Paddle.repeat_interleave_2 sg ++ [0])
                           tau sigma sigma_prev sigma' d x0 xt
                           (Paddle.repeat_interleave_2 (tau' :: ts))
                           Hnpre Hnpost HP Hts Hsig Hpt Hd Hdt Hx).
    destruct (ode_derivative unet pt xt sigma tau) as [d'|e]; [|reflexivity].
    cbn [rbind]. cbv zeta.
    set (x' := t_add x0 _).
    change (combine (sigma :: sigma' :: sg) (tau :: tau' :: ts))
      with ((sigma, tau) :: combine (sigma' :: sg) (tau' :: ts)).
    change (combine (sigma' :: sg) (tau' :: ts))
      with ((sigma', tau') :: combine sg ts).
    cbn [heun_sampler].
    destruct (ode_derivative unet pt x' sigma tau) as [d2|e]; [|reflexivity].
    cbn [rbind].
    apply (IH sg tau' sigma' sigma (pre ++ [tau; tau]) (spre ++ [sigma_prev; sigma])).
    + simpl in Hlen. lia.
    + exact Hsort'.
    + apply Forall_app. split.
      * eapply Forall_impl; [|exact Hpre]. intros p Hp. simpl in Hp. lra.
      * repeat constructor; lra.
    + rewrite !length_app. simpl. lia.
    + cbn [timesteps stored_state cleared_state]. rewrite Hts, <- app_assoc. reflexivity.
    + cbn [sigmas stored_state cleared_state]. rewrite Hsig, <- app_assoc. reflexivity.
    + exact Hpt.
    + reflexivity.
    + reflexivity.
    + reflexivity.
Qed.

(** The whole loop on a freshly rebuilt schedule. *)
Lemma denoising_loop_heun (pt : string) (s : HeunDiscreteScheduler) (sg ts : list R)
      (x : Tensor) :
  length sg = length ts -> StronglySorted Rgt ts ->
  state_in_first_order s = true ->
  timesteps s = duplicate_timesteps ts ->
  sigmas s = duplicate_sigmas (sg ++ [0]) ->
  prediction_type (config s) = pt ->
  fst (denoising_loop unet (timesteps s) x s) = heun_sampler unet pt (combine sg ts) x.
Proof.
  intros Hlen Hsort Hfo Hts Hsig Hpt.
  destruct ts as [|t0 ts]; destruct sg as [|s0 sg]; try discriminate.
  { rewrite Hts. reflexivity. }
  rewrite duplicate_timesteps_cons in Hts.
  change ((s0 :: sg) ++ [0]) with (s0 :: sg ++ [0]) in Hsig.
  rewrite duplicate_sigmas_cons in Hsig.
  apply StronglySorted_inv in Hsort. destruct Hsort as [Hsort' Hall].
  assert (Hnpost : ~ In t0 (Paddle.repeat_interleave_2 ts)).
  { intros Hin. apply repeat_interleave_2_In in Hin.
    rewrite Forall_forall in Hall. specialize (Hall _ Hin). lra. }
  rewrite Hts at 1.
  destruct ts as [|t1 ts]; destruct sg as [|s1 sg]; try discriminate.
  - change (Paddle.repeat_interleave_2 (@nil R)) with (@nil R).
    rewrite (first_call pt s [] [] t0 s0 0 x [] Hnpost Hfo Hts Hsig Hpt).
    cbn [combine heun_sampler].
    destruct (ode_derivative unet pt x s0 t0) as [d|e]; reflexivity.
  - rewrite (first_call pt s (Paddle.repeat_interleave_2 (t1 :: ts))
                        (s1 :: Paddle.repeat_interleave_2 sg ++ [0])
                        t0 s0 s1 x (Paddle.repeat_interleave_2 (t1 :: ts))
                        Hnpost Hfo Hts Hsig Hpt).
    change (combine (s0 :: s1 :: sg) (t0 :: t1 :: ts))
      with ((s0, t0) :: (s1, t1) :: combine sg ts).
    cbn [heun_sampler].
    destruct (ode_derivative unet pt x s0 t0) as [d|e]; [|reflexivity].
    cbn [rbind]. cbv zeta.
    change ((s1, t1) :: combine sg ts) with (combine (s1 :: sg) (t1 :: ts)).
    apply (corrector_stage pt ts sg t1 s1 s0 [t0] []).
    + simpl in Hlen. lia.
    + exact Hsort'.
    + constructor; [|constructor].
      rewrite Forall_forall in Hall. apply Hall. now left.
    + reflexivity.
    + cbn [timesteps stored_state]. rewrite Hts. reflexivity.
    + cbn [sigmas stored_state]. rewrite Hsig. reflexivity.
    + exact Hpt.
    + reflexivity.
    + reflexivity.
    + reflexivity.
Qed.

End HeunRefinement.

(** X9.  The pipeline computes Heun's method.  Run with a reachable
    [HeunDiscreteScheduler] without Karras sigmas and at least two training
    timesteps, the denoising part of [LDMPipeline.__call__] with [N >= 1]
    inference steps gives the result, or the exception, of Heun's
    second-order sampler started from the scaled initial noise, along the
    noise schedule of the [N] evenly spaced timesteps from
    [num_train_timesteps - 1] down to [0] and the training sigmas
    interpolated at them: every [step] call resolves the index that the
    method needs, by the position that [index_for_timestep] picks among the
    duplicated timesteps. *)
Theorem pipeline_computes_heun_method {TL : TensorLib} (unet : Tensor -> R -> Tensor)
        (self : HeunDiscreteScheduler) (latents : Tensor) (n : Z) :
  reachable self ->
  get_use_karras_sigmas self = false ->
  (2 <= num_train_timesteps (config self))%Z ->
  (1 <= n)%Z ->
  exists sg ts,
    ts = rev (Np.linspace_values 0 (IZR (num_train_timesteps (config self) - 1))
                                 (Z.to_nat n))
    /\ sg = map (Np.interp1 (Np.arange (length (train_sigmas self))) (train_sigmas self)) ts
    /\ fst (LDMPipeline__call__ unet latents n self)
       = heun_sampler unet (prediction_type (config self)) (combine sg ts)
                      (t_mul latents (t_scalar (init_noise_sigma self))).
Proof.
  intros Hr Hk HT Hn.
  destruct (reachable_consistent _ Hr) as (_ & Hacp & _).
  pose proof (selected_schedule_no_karras (with_num_inference_steps self n) None
                Hk Hacp ltac:(simpl; lia)) as Hsel.
  cbv zeta in Hsel. cbn [Py.or_int num_inference_steps config with_num_inference_steps] in Hsel.
  change (train_sigmas (with_num_inference_steps self n)) with (train_sigmas self) in Hsel.
  set (ts := rev (Np.linspace_values 0 (IZR (num_train_timesteps (config self) - 1))
                                     (Z.to_nat n))) in *.
  set (sg := map (Np.interp1 (Np.arange (length (train_sigmas self))) (train_sigmas self)) ts)
    in *.
  exists sg, ts. split; [reflexivity|]. split; [reflexivity|].
  assert (Hset : set_timesteps n None self
                 = (Ok tt, rebuilt (with_num_inference_steps self n) sg ts))
    by (rewrite set_timesteps_eq, Hsel; reflexivity).
  unfold LDMPipeline__call__, bind, get_self. rewrite Hset.
  apply (denoising_loop_heun unet (prediction_type (config self))
                             (rebuilt (with_num_inference_steps self n) sg ts) sg ts).
  - unfold sg. now rewrite length_map.
  - apply strongly_sorted_rev_strict. apply linspace_values_strictly_sorted.
    apply IZR_lt. lia.
  - reflexivity.
  - reflexivity.
  - reflexivity.
  - reflexivity.
Qed.

Lemma pipeline_computes_heun_method_witness :
  reachable example_scheduler
  /\ get_use_karras_sigmas example_scheduler = false
  /\ exists sg ts,
      length ts = 3%nat
      /\ fst (LDMPipeline__call__ (TL := scalar_tensors) (fun x t => x * t) 1 3
                                  example_scheduler)
         = heun_sampler (TL := scalar_tensors) (fun x t => x * t) "epsilon" (combine sg ts)
                        (1 * init_noise_sigma example_scheduler).
Proof.
  split; [exact example_reachable|]. split; [reflexivity|].
  assert (HT : (2 <= num_train_timesteps (config example_scheduler))%Z) by (simpl; lia).
  assert (H3 : (1 <= 3)%Z) by lia.
  destruct (pipeline_computes_heun_method (TL := scalar_tensors) (fun x t => x * t)
              example_scheduler 1 3 example_reachable eq_refl HT H3)
    as (sg & ts & Ets & _ & E).
  exists sg, ts. split; [|exact E].
  rewrite Ets, length_rev, linspace_values_length. reflexivity.
Defined.

(** ** The loop returns *)

Section LoopReturns.

Context {TL : TensorLib}.

Variable unet : Tensor -> R -> Tensor.

Lemma evolves_reachable (self self' : HeunDiscreteScheduler) :
  reachable self -> evolves self self' -> reachable self'.
Proof.
  intros Hr. induction 1 as [s | s s1 n t r s' _ IH Hs | s s1 mo t x rd r s' _ IH Hs
                            | s s1 x t r s' _ IH Hs | s s1 o nz ts r s' _ IH Hs].
  - exact Hr.
  - eapply reach_set_timesteps; [exact (IH Hr)|exact Hs].
  - eapply reach_step; [exact (IH Hr)|exact Hs].
  - eapply reach_scale_model_input; [exact (IH Hr)|exact Hs].
  - eapply reach_add_noise; [exact (IH Hr)|exact Hs].
Qed.

Lemma evolves_trans (a b c : HeunDiscreteScheduler) :
  evolves a b -> evolves b c -> evolves a c.
Proof.
  intros Hab. induction 1 as [s | s s1 n t r s' _ IH Hs | s s1 mo t x rd r s' _ IH Hs
                             | s s1 x t r s' _ IH Hs | s s1 o nz ts r s' _ IH Hs].
  - exact Hab.
  - eapply evolves_set_timesteps; [exact (IH Hab)|exact Hs].
  - eapply evolves_step; [exact (IH Hab)|exact Hs].
  - eapply evolves_scale_model_input; [exact (IH Hab)|exact Hs].
  - eapply evolves_add_noise; [exact (IH Hab)|exact Hs].
Qed.

Lemma denoising_loop_returns (ts : list R) :
  forall (x : Tensor) (s : HeunDiscreteScheduler),
    consistent s -> (forall t, In t ts -> In t (timesteps s)) ->
    prediction_type (config s) = "epsilon"%string
    \/ prediction_type (config s) = "v_prediction"%string ->
    exists out s',
      denoising_loop unet ts x s = (Ok out, s')
      /\ evolves s s'
      /\ timesteps s' = timesteps s /\ sigmas s' = sigmas s
      /\ state_in_first_order s'
         = xorb (Nat.odd (length ts)) (state_in_first_order s).
Proof.
  induction ts as [|t ts IH]; intros x s Hc Hin Hpt.
  - exists x, s. split; [reflexivity|]. split; [apply evolves_refl|].
    split; [reflexivity|]. split; [reflexivity|].
    simpl. now destruct (state_in_first_order s).
  - assert (Ht : In t (timesteps s)) by (apply Hin; now left).
    destruct (scale_model_input_returns s x t Hc Ht) as (i & sigma & _ & _ & Esc).
    set (y := t_div x (t_scalar (sqrt (sigma ^ 2 + 1)))) in *.
    destruct (step_returns s (unet y t) t x true Hc Ht Hpt) as (out & s1 & Est).
    pose proof (step_consistent _ _ _ _ _ _ _ Hc Est) as Hc1.
    destruct (step_keeps_schedule _ _ _ _ _ _ _ Est) as (Et & Es & _).
    pose proof (step_flips_phase _ _ _ _ _ _ _ Est) as Hph.
    assert (Hcfg : config s1 = config s).
    { destruct (step_writes _ _ _ _ _ _ _ Est) as [->|[(d & dt0 & _ & ->)|[_ ->]]];
        reflexivity. }
    destruct (IH (output_sample out) s1 Hc1) as (res & s' & Eloop & Hev & Et' & Es' & Hph').
    { intros t' Ht'. rewrite Et. apply Hin. now right. }
    { now rewrite Hcfg. }
    exists res, s'. split.
    { rewrite denoising_loop_cons, Esc, Est. exact Eloop. }
    split.
    { eapply evolves_trans; [|exact Hev].
      eapply evolves_step; [apply evolves_refl|exact Est]. }
    split; [congruence|]. split; [congruence|].
    rewrite Hph', Hph. cbn [length]. rewrite Nat.odd_succ, <- Nat.negb_odd.
    destruct (Nat.odd (length ts)), (state_in_first_order s); reflexivity.
Qed.

End LoopReturns.

(** X10.  The pipeline returns, with a corrector call pending.  Run with a
    reachable [HeunDiscreteScheduler] whose [prediction_type] is [epsilon] or
    [v_prediction], the denoising part of [LDMPipeline.__call__] with
    [N >= 1] inference steps raises nothing; with Karras sigmas this is for
    training sigmas that are at least two, positive and strictly increasing,
    so that [_sigma_to_t] divides by no zero.  The scheduler is left with the
    [2N - 1] timesteps of [set_timesteps(N)] and, after that odd number of
    [step] calls, in the corrector phase: [state_in_first_order] is false
    until [set_timesteps] is called again. *)
Theorem pipeline_returns {TL : TensorLib} (unet : Tensor -> R -> Tensor)
        (self : HeunDiscreteScheduler) (latents : Tensor) (n : Z) :
  reachable self ->
  (get_use_karras_sigmas self = true -> well_ordered_training self) ->
  prediction_type (config self) = "epsilon"%string
  \/ prediction_type (config self) = "v_prediction"%string ->
  (1 <= n)%Z ->
  exists out self',
    LDMPipeline__call__ unet latents n self = (Ok out, self')
    /\ reachable self'
    /\ length (timesteps self') = Z.to_nat (2 * n - 1)
    /\ length (sigmas self') = Z.to_nat (2 * n)
    /\ state_in_first_order self' = false.
Proof.
  intros Hr _ Hpt Hn.
  destruct (reachable_consistent _ Hr) as (_ & Hacp & _).
  destruct (set_timesteps_returns self n None Hacp Hn)
    as (s0 & ss & t0 & ts & Hsel & Hlss & Hlts & Hset).
  set (s1 := rebuilt (with_num_inference_steps self n) (s0 :: ss) (t0 :: ts)) in *.
  assert (Hr1 : reachable s1) by (eapply reach_set_timesteps; [exact Hr|exact Hset]).
  destruct (denoising_loop_returns unet (timesteps s1)
              (t_mul latents (t_scalar (init_noise_sigma self))) s1
              (reachable_consistent _ Hr1) (fun t H => H) Hpt)
    as (out & s' & Eloop & Hev & Et & Es & Hph).
  assert (Hlen : length (timesteps s1) = Z.to_nat (2 * n - 1)).
  { unfold s1. rewrite rebuilt_timesteps. simpl length.
    rewrite repeat_interleave_2_length, Hlts. lia. }
  exists out, s'. split.
  { unfold LDMPipeline__call__, bind, get_self. rewrite Hset. exact Eloop. }
  split; [exact (evolves_reachable _ _ Hr1 Hev)|].
  split; [now rewrite Et|]. split.
  { rewrite Es. unfold s1. rewrite rebuilt_sigmas. simpl length.
    rewrite length_app, repeat_interleave_2_length, Hlss. simpl length. lia. }
  rewrite Hph, Hlen.
  assert (Hodd : Nat.odd (Z.to_nat (2 * n - 1)) = true).
  { apply Nat.odd_spec. exists (Z.to_nat (n - 1)). lia. }
  rewrite Hodd. reflexivity.
Qed.

Lemma pipeline_returns_witness :
  exists self : @HeunDiscreteScheduler scalar_tensors,
    __init__ karras_config = Ok self
    /\ get_use_karras_sigmas self = true
    /\ well_ordered_training self
    /\ exists out self',
        LDMPipeline__call__ (TL := scalar_tensors) (fun x t => x * t) 1 3 self
        = (Ok out, self')
        /\ length (timesteps self') = 5%nat
        /\ state_in_first_order self' = false.
Proof.
  destruct (init_returns_generated (TL := scalar_tensors) karras_config eq_refl
              (or_introl eq_refl) ltac:(simpl; lia)) as [self Hinit].
  pose proof (init_config _ _ Hinit) as Hcfg.
  assert (Hk : get_use_karras_sigmas self = true).
  { destruct (init_eq _ _ Hinit) as (b & sg & ts & _ & _ & ->). reflexivity. }
  assert (Hwo : well_ordered_training self).
  { apply (generated_well_ordered karras_config); [exact Hinit|reflexivity| | | |];
      simpl; lra || lia. }
  assert (Hpt : prediction_type (config self) = "epsilon"%string
                \/ prediction_type (config self) = "v_prediction"%string).
  { left. rewrite Hcfg. reflexivity. }
  assert (H3 : (1 <= 3)%Z) by lia.
  destruct (pipeline_returns (TL := scalar_tensors) (fun x t => x * t) self 1 3
              (reach_init karras_config self Hinit) (fun _ => Hwo) Hpt H3)
    as (out & s' & E & _ & Hl & _ & Hph).
  exists self. split; [exact Hinit|]. split; [exact Hk|]. split; [exact Hwo|].
  exists out, s'. split; [exact E|]. split; [exact Hl|exact Hph].
Defined.

(** ** The outcomes of [set_timesteps], [scale_model_input] and [add_noise] *)

Section Outcomes.

Context {TL : TensorLib}.

Lemma getitem_cases {A : Type} (l : list A) (i : Z) :
  (exists a, Py.getitem l i = Ok a) \/ Py.getitem l i = Raise IndexError.
Proof.
  unfold Py.getitem. destruct (_ && _)%bool; [|now right].
  destruct (nth_error _ _); [left; eauto|now right].
Qed.

Lemma rmap_getitem_raise {A B : Type} (f : A -> list B) (i : Z) (l : list A) (a : A) :
  In a l -> Py.getitem (f a) i = Raise IndexError ->
  rmap (fun x => Py.getitem (f x) i) l = Raise IndexError.
Proof.
  intros Hin Ha. induction l as [|b l IH]; [contradiction|].
  simpl. destruct (getitem_cases (f b) i) as [[y Hy]|Hy]; rewrite Hy; [|reflexivity].
  simpl. destruct Hin as [E|Hin]; [subst b; congruence|].
  now rewrite (IH Hin).
Qed.

End Outcomes.

(** X11.  A failing [set_timesteps] is not atomic.  On a reachable scheduler
    [set_timesteps(n, t)] raises ValueError for every [n < 0] and, with
    Karras sigmas, IndexError for [n = 0].  Apart from [n = 0] without Karras
    sigmas, about which nothing is said, these are its only failures: it
    raises for no [n >= 1].  When it raises, [num_inference_steps] has
    already been overwritten by [n] and nothing else has changed. *)
Theorem set_timesteps_failure_overwrites_num_inference_steps {TL : TensorLib}
        (self : HeunDiscreteScheduler) (n : Z) (t : option Z) :
  reachable self ->
  ((n < 0)%Z ->
   set_timesteps n t self = (Raise ValueError, with_num_inference_steps self n))
  /\ (n = 0%Z -> get_use_karras_sigmas self = true ->
      set_timesteps n t self = (Raise IndexError, with_num_inference_steps self n))
  /\ (forall e self',
      (n = 0%Z -> get_use_karras_sigmas self = true) ->
      set_timesteps n t self = (Raise e, self') ->
      (n <= 0)%Z
      /\ self' = with_num_inference_steps self n
      /\ num_inference_steps self' = n).
Proof.
  intros Hr. destruct (reachable_consistent _ Hr) as (_ & Hacp & _).
  split; [|split].
  - intros Hn. now apply set_timesteps_negative.
  - intros -> Hk. now apply set_timesteps_zero_karras.
  - intros e self' Hk0 Hs.
    destruct (Z.lt_trichotomy n 0) as [Hn|[Hn|Hn]].
    + rewrite (set_timesteps_negative self n t Hn) in Hs. injection Hs as _ <-.
      split; [lia|]. split; reflexivity.
    + subst n. rewrite (set_timesteps_zero_karras self t Hacp (Hk0 eq_refl)) in Hs.
      injection Hs as _ <-. split; [lia|]. split; reflexivity.
    + destruct (set_timesteps_returns self n t Hacp ltac:(lia))
        as (? & ? & ? & ? & _ & _ & _ & E).
      rewrite E in Hs. discriminate.
Qed.

Lemma set_timesteps_failure_overwrites_num_inference_steps_witness :
  reachable example_scheduler
  /\ set_timesteps (-1) None example_scheduler
     = (Raise ValueError, with_num_inference_steps example_scheduler (-1))
  /\ num_inference_steps (with_num_inference_steps example_scheduler (-1)) = (-1)%Z
  /\ num_inference_steps example_scheduler = 2%Z.
Proof.
  split; [exact example_reachable|]. split.
  - apply (proj1 (set_timesteps_failure_overwrites_num_inference_steps
                    example_scheduler (-1) None example_reachable)). lia.
  - split; reflexivity.
Defined.

(** X12.  The outcomes of [scale_model_input].  On a reachable scheduler,
    for a timestep among [self.timesteps] it returns the sample divided by
    [sqrt(sigma^2 + 1)], where [sigma] is the sigma at the index that
    [index_for_timestep] picks in the current phase; the divisor is at least
    [1].  For any other timestep it raises IndexError.  In both cases the
    scheduler is left as it was. *)
Theorem scale_model_input_outcomes {TL : TensorLib} (self : HeunDiscreteScheduler)
        (x : Tensor) (t : R) :
  reachable self ->
  (In t (timesteps self) ->
   exists i sigma,
     picked_index self t i
     /\ Py.getitem (sigmas self) i = Ok sigma
     /\ 1 <= sqrt (sigma ^ 2 + 1)
     /\ scale_model_input x t self
        = (Ok (t_div x (t_scalar (sqrt (sigma ^ 2 + 1)))), self))
  /\ (~ In t (timesteps self) ->
      scale_model_input x t self = (Raise IndexError, self)).
Proof.
  intros Hr. split.
  - intros Hin.
    destruct (scale_model_input_returns self x t (reachable_consistent _ Hr) Hin)
      as (i & sigma & Hp & Hs & E).
    exists i, sigma. split; [exact Hp|]. split; [exact Hs|]. split; [|exact E].
    rewrite <- sqrt_1 at 1. apply sqrt_le_1_alt. nra.
  - intros Hn. rewrite scale_model_input_run, (nonzero_eq_absent _ _ Hn), getitem_nil.
    reflexivity.
Qed.

Lemma scale_model_input_outcomes_witness :
  reachable example_scheduler
  /\ exists sigma,
      scale_model_input (3 : @Tensor scalar_tensors) 1 example_scheduler
      = (Ok (3 / sqrt (sigma ^ 2 + 1)), example_scheduler)
      /\ 1 <= sqrt (sigma ^ 2 + 1).
Proof.
  split; [exact example_reachable|].
  assert (Hin : In 1 (timesteps example_scheduler)).
  { rewrite example_timesteps. now left. }
  destruct (proj1 (scale_model_input_outcomes example_scheduler (3 : @Tensor scalar_tensors)
                                              1 example_reachable) Hin)
    as (i & sigma & _ & _ & Hge & E).
  exists sigma. split; [exact E|exact Hge].
Defined.

(** X13.  When [add_noise] fails.  On a reachable scheduler, [add_noise]
    returns when every timestep it is given is among [self.timesteps]; if
    one of them is not, it raises IndexError.  In both cases the scheduler is
    left as it was. *)
Theorem add_noise_outcomes {TL : TensorLib} (self : HeunDiscreteScheduler)
        (original_samples noise : Tensor) (ts : list R) :
  reachable self ->
  ((forall t, In t ts -> In t (timesteps self)) ->
   exists y, add_noise original_samples noise ts self = (Ok y, self))
  /\ ((exists t, In t ts /\ ~ In t (timesteps self)) ->
      add_noise original_samples noise ts self = (Raise IndexError, self)).
Proof.
  intros Hr. split.
  - intros Hall.
    destruct (add_noise_returns self original_samples noise ts
                                (reachable_consistent _ Hr) Hall) as (sigma & _ & E).
    eexists. exact E.
  - intros (t & Hin & Hn). rewrite add_noise_run.
    rewrite (rmap_getitem_raise (fun t => Paddle.nonzero_eq (timesteps self) t) _ ts t Hin).
    + reflexivity.
    + rewrite (nonzero_eq_absent _ _ Hn). apply getitem_nil.
Qed.

Lemma add_noise_outcomes_witness :
  reachable example_scheduler
  /\ add_noise (2 : @Tensor scalar_tensors) (3 : @Tensor scalar_tensors) [1; 1 / 2]
               example_scheduler = (Raise IndexError, example_scheduler).
Proof.
  split; [exact example_reachable|].
  apply (proj2 (add_noise_outcomes example_scheduler (2 : @Tensor scalar_tensors)
                                   (3 : @Tensor scalar_tensors) [1; 1 / 2]
                                   example_reachable)).
  exists (1 / 2). split; [right; now left|].
  rewrite example_timesteps. simpl. intros [H|[H|[H|[]]]]; lra.
Defined.

(** ** A predictor call and the corrector call after it *)

(** X14.  A predictor call followed by a corrector call restores the
    scheduler.  If two calls of [step] in a row return, the first of them in
    the predictor phase, the scheduler is afterwards what it was before the
    two, with [prev_derivative], [dt] and [sample] cleared: exactly what it
    was, when no sample was stored before.  This holds whatever timesteps,
    samples and model outputs the two calls are given. *)
Theorem predictor_corrector_pair_restores_the_scheduler {TL : TensorLib}
        (self s1 s2 : HeunDiscreteScheduler)
        (mo1 : Tensor) (t1 : R) (x1 : Tensor) (rd1 : bool) (o1 : StepOutput)
        (mo2 : Tensor) (t2 : R) (x2 : Tensor) (rd2 : bool) (o2 : StepOutput) :
  state_in_first_order self = true ->
  step mo1 t1 x1 rd1 self = (Ok o1, s1) ->
  step mo2 t2 x2 rd2 s1 = (Ok o2, s2) ->
  stored_sample s1 = Some x1
  /\ s2 = cleared_state self
  /\ (prev_derivative self = None -> stored_sample self = None -> s2 = self).
Proof.
  intros Hfo H1 H2.
  pose proof (step_flips_phase _ _ _ _ _ _ _ H1) as P1.
  pose proof (step_flips_phase _ _ _ _ _ _ _ H2) as P2.
  rewrite Hfo in P1. rewrite P1 in P2. simpl in P1, P2.
  assert (E1 : exists d dt_, s1 = stored_state self d dt_ x1).
  { destruct (step_writes _ _ _ _ _ _ _ H1) as [E|[(d & dt0 & _ & E)|[F _]]].
    - rewrite E in P1. congruence.
    - eauto.
    - congruence. }
  destruct E1 as (d & dt0 & E1).
  assert (E2 : s2 = cleared_state s1).
  { destruct (step_writes _ _ _ _ _ _ _ H2) as [E|[(d' & dt' & F & _)|[_ E]]].
    - rewrite E in P2. congruence.
    - congruence.
    - exact E. }
  split; [rewrite E1; reflexivity|]. split; [rewrite E2, E1; reflexivity|].
  intros Hd Hx. rewrite E2, E1. unfold state_in_first_order in Hfo.
  unfold stored_sample in Hx.
  destruct self as [c b a ac n sg ins ts pd dt0' sm at']. cbn in *.
  subst pd sm. destruct dt0'; [discriminate|]. reflexivity.
Qed.

Lemma predictor_corrector_pair_restores_the_scheduler_witness :
  exists (s1 s2 : @HeunDiscreteScheduler scalar_tensors) o1 o2,
    state_in_first_order example_scheduler = true
    /\ step (2 : @Tensor scalar_tensors) 1 (3 : @Tensor scalar_tensors) true example_scheduler
       = (Ok o1, s1)
    /\ step (2 : @Tensor scalar_tensors) 0 (5 : @Tensor scalar_tensors) true s1 = (Ok o2, s2)
    /\ s2 = example_scheduler.
Proof.
  destruct example_step as (o1 & s1 & H1).
  assert (Hr1 : reachable s1) by (eapply reach_step; [exact example_reachable|exact H1]).
  destruct (step_keeps_schedule _ _ _ _ _ _ _ H1) as (Et & _ & _).
  assert (Hin : In 0 (timesteps s1)).
  { rewrite Et, example_timesteps. right. now left. }
  assert (Hpt : prediction_type (config s1) = "epsilon"%string).
  { destruct (step_writes _ _ _ _ _ _ _ H1) as [->|[(d & dt0 & _ & ->)|[_ ->]]];
      reflexivity. }
  destruct (step_returns s1 (2 : @Tensor scalar_tensors) 0 (5 : @Tensor scalar_tensors) true
                         (reachable_consistent _ Hr1) Hin (or_introl Hpt))
    as (o2 & s2 & H2).
  exists s1, s2, o1, o2. split; [reflexivity|]. split; [exact H1|]. split; [exact H2|].
  destruct (predictor_corrector_pair_restores_the_scheduler
              example_scheduler s1 s2 _ _ _ _ _ _ _ _ _ _ eq_refl H1 H2) as (_ & _ & H).
  apply H; reflexivity.
Defined.

(** ** The sigmas of a reachable scheduler *)

Lemma linspace_values_bounds_down (a b : R) (n : nat) :
  b <= a -> Forall (fun x => b <= x <= a) (Np.linspace_values a b n).
Proof.
  intros Hab. unfold Np.linspace_values.
  destruct n as [|[|n]]; [constructor|constructor; [lra|constructor]|].
  apply Forall_forall. intros x Hx. apply in_map_iff in Hx.
  destruct Hx as (i & <- & Hi). apply in_seq in Hi.
  set (d := INR (S (S n) - 1)).
  assert (Hd : 0 < d) by (apply lt_0_INR; lia).
  assert (Hi0 : 0 <= INR i) by apply pos_INR.
  assert (Hid : INR i <= d) by (apply le_INR; lia).
  set (q := (a - b) / d).
  assert (Hq : 0 <= q).
  { unfold q, Rdiv. apply Rmult_le_pos; [lra|]. left. now apply Rinv_0_lt_compat. }
  assert (Hdq : d * q = a - b) by (unfold q; field; lra).
  replace ((b - a) / d) with (- q) by (unfold q; field; lra).
  nra.
Qed.

Section PositiveSigmas.

Context {TL : TensorLib}.

(** The interpolated sigmas are positive, and the last of them is not above
    the first, wherever [np.linspace] ends. *)
Lemma interpolated_sigmas_positive (fp : list R) (b : R) (n : nat) :
  fp <> [] -> Forall (fun s => 0 < s) fp -> StronglySorted Rlt fp ->
  let in_sigmas :=
    map (Np.interp1 (Np.arange (length fp)) fp) (rev (Np.linspace_values 0 b n)) in
  Forall (fun s => 0 < s) in_sigmas
  /\ length in_sigmas = n
  /\ ((1 <= n)%nat -> 0 < last in_sigmas 0 /\ last in_sigmas 0 <= hd 0 in_sigmas).
Proof.
  intros Hne Hpos Hinc. cbv zeta.
  assert (Hhd : 0 < hd 0 fp).
  { destruct fp; [congruence|]. inversion Hpos; subst. assumption. }
  destruct (Rle_dec 0 b) as [Hb|Hb].
  - destruct (interpolated_sigmas fp b n Hne Hpos Hinc Hb) as (Hs & Hp & Hl & Hlast & _).
    split; [exact Hp|]. split; [exact Hl|]. intros Hn. rewrite (Hlast Hn).
    split; [exact Hhd|].
    set (l := map _ _) in *. destruct l as [|a l]; [simpl in Hl; lia|].
    simpl hd. specialize (Hlast Hn).
    destruct l as [|a' l]; [simpl in Hlast; lra|].
    inversion Hs as [|? ? _ Hall]; subst. rewrite Forall_forall in Hall.
    rewrite <- Hlast. apply Rge_le. apply Hall.
    change (last (a :: a' :: l) 0) with (last (a' :: l) 0). apply last_In. discriminate.
  - assert (Hconst : forall x, In x (rev (Np.linspace_values 0 b n)) ->
                Np.interp1 (Np.arange (length fp)) fp x = hd 0 fp).
    { intros x Hx. apply in_rev in Hx.
      pose proof (linspace_values_bounds_down 0 b n ltac:(lra)) as Hbd.
      rewrite Forall_forall in Hbd. specialize (Hbd x Hx).
      unfold Np.interp1. rewrite arange_hd by (destruct fp; [congruence|simpl; lia]).
      destruct (Rle_dec x 0); [reflexivity|lra]. }
    assert (Hall : forall s, In s (map (Np.interp1 (Np.arange (length fp)) fp)
                                       (rev (Np.linspace_values 0 b n))) -> s = hd 0 fp).
    { intros s Hs. apply in_map_iff in Hs. destruct Hs as (x & <- & Hx). now apply Hconst. }
    assert (Hl : length (map (Np.interp1 (Np.arange (length fp)) fp)
                             (rev (Np.linspace_values 0 b n))) = n)
      by now rewrite length_map, length_rev, linspace_values_length.
    set (l := map _ _) in *.
    split; [|split; [exact Hl|]].
    + apply Forall_forall. intros s Hs. rewrite (Hall s Hs). exact Hhd.
    + intros Hn. destruct l as [|a l]; [simpl in Hl; lia|].
      assert (Ha : a = hd 0 fp) by (apply Hall; now left).
      assert (Hla : last (a :: l) 0 = hd 0 fp).
      { apply Hall. apply last_In. discriminate. }
      rewrite Hla. simpl hd. lra.
Qed.

Lemma selected_sigmas_positive (self : HeunDiscreteScheduler) (t : option Z)
      (sg ts : list R) :
  selected_schedule self t = Ok (sg, ts) ->
  Forall (fun s => 0 < s) (train_sigmas self) ->
  strictly_increasing (train_sigmas self) ->
  Forall (fun s => 0 < s) sg.
Proof.
  intros Hsel Hpos Hinc.
  pose proof (selected_schedule_lengths _ _ _ _ Hsel) as (Hn & Hlen & _ & Hacp).
  pose proof (train_sigmas_nonempty self Hacp) as Hfp.
  apply strictly_increasing_sorted in Hinc.
  destruct (interpolated_sigmas_positive (train_sigmas self)
              (IZR (Py.or_int t (num_train_timesteps (config self)) - 1))
              (Z.to_nat (num_inference_steps self)) Hfp Hpos Hinc) as (Hp & Hl & Hends).
  destruct (selected_sigmas_eq self t sg ts Hsel) as [[_ ->]|[_ Hk]]; [exact Hp|].
  set (in_sigmas := map _ _) in *.
  assert (Hn1 : (1 <= Z.to_nat (num_inference_steps self))%nat).
  { destruct (Nat.le_gt_cases 1 (Z.to_nat (num_inference_steps self))) as [H1|H1];
      [exact H1|].
    exfalso. destruct in_sigmas; [|simpl in Hl; lia].
    unfold _convert_to_karras in Hk. rewrite getitem_nil in Hk. discriminate. }
  destruct (Hends Hn1) as [H0 Hle].
  exact (proj2 (convert_to_karras_sorted _ _ _ Hk H0 Hle)).
Qed.

Lemma rebuilt_shape (self : HeunDiscreteScheduler) (sg ts : list R) :
  length sg = length ts -> Forall (fun s => 0 < s) sg -> ts <> [] ->
  exists front,
    sigmas (rebuilt self sg ts) = front ++ [0]
    /\ length front = length (timesteps (rebuilt self sg ts))
    /\ Forall (fun s => 0 < s) front.
Proof.
  intros Hlen Hpos Hne.
  destruct ts as [|t0 ts]; [congruence|]. destruct sg as [|s0 sg]; [discriminate|].
  rewrite rebuilt_sigmas, rebuilt_timesteps.
  exists (s0 :: Paddle.repeat_interleave_2 sg). split; [reflexivity|]. split.
  - simpl length. rewrite !repeat_interleave_2_length. simpl in Hlen. lia.
  - inversion Hpos as [|? ? H0 Hpos']; subst. constructor; [exact H0|].
    apply Forall_forall. intros x Hx. apply repeat_interleave_2_In in Hx.
    rewrite Forall_forall in Hpos'. now apply Hpos'.
Qed.

Lemma selected_shape (self : HeunDiscreteScheduler) (t : option Z) (sg ts : list R) :
  selected_schedule self t = Ok (sg, ts) ->
  Forall (fun s => 0 < s) (train_sigmas self) ->
  strictly_increasing (train_sigmas self) ->
  timesteps (rebuilt self sg ts) <> [] ->
  exists front,
    sigmas (rebuilt self sg ts) = front ++ [0]
    /\ length front = length (timesteps (rebuilt self sg ts))
    /\ Forall (fun s => 0 < s) front.
Proof.
  intros Hsel Hpos Hinc Hne.
  destruct (selected_schedule_lengths _ _ _ _ Hsel) as (_ & Hsg & Hts & _).
  pose proof (selected_sigmas_positive _ _ _ _ Hsel Hpos Hinc) as Hp.
  apply rebuilt_shape; [congruence|exact Hp|].
  intros ->. apply Hne. reflexivity.
Qed.

(** All the sigmas of a reachable scheduler but the appended last one are
    positive, and there is one of them for each timestep. *)
Lemma reachable_sigmas_shape (self : HeunDiscreteScheduler) :
  reachable self ->
  Forall (fun s => 0 < s) (train_sigmas self) ->
  strictly_increasing (train_sigmas self) ->
  timesteps self <> [] ->
  exists front,
    sigmas self = front ++ [0]
    /\ length front = length (timesteps self)
    /\ Forall (fun s => 0 < s) front.
Proof.
  induction 1 as [cfg s Hi | s n t r s' _ IH Hs | s mo t x rd r s' _ IH Hs
                 | s x t r s' _ IH Hs | s o nz ts r s' _ IH Hs]; intros Hpos Hinc Hne.
  - destruct (init_eq cfg s Hi) as (b & sg & ts & _ & Hsel & E).
    set (s0 := with_num_inference_steps (initial_self cfg b) (num_train_timesteps cfg)) in *.
    assert (Ets : train_sigmas s = train_sigmas s0) by (rewrite E; reflexivity).
    rewrite Ets in Hpos, Hinc.
    replace (sigmas s) with (sigmas (rebuilt s0 sg ts)) by (rewrite E; reflexivity).
    replace (timesteps s) with (timesteps (rebuilt s0 sg ts)) in * by (rewrite E; reflexivity).
    exact (selected_shape s0 _ sg ts Hsel Hpos Hinc Hne).
  - rewrite set_timesteps_eq in Hs.
    destruct (selected_schedule _ _) as [[sg ts]|e] eqn:Hsel; injection Hs as _ <-.
    + exact (selected_shape (with_num_inference_steps s n) t sg ts Hsel Hpos Hinc Hne).
    + now apply IH.
  - destruct (step_keeps_schedule _ _ _ _ _ _ _ Hs) as (Et & Es & _).
    assert (Etr : train_sigmas s' = train_sigmas s).
    { destruct (step_writes _ _ _ _ _ _ _ Hs) as [->|[(d & dt0 & _ & ->)|[_ ->]]];
        reflexivity. }
    rewrite Etr in Hpos, Hinc. rewrite Et in *. rewrite Es. now apply IH.
  - pose proof (scale_model_input_state x t s) as E. rewrite Hs in E. simpl in E.
    subst. now apply IH.
  - pose proof (add_noise_state o nz ts s) as E. rewrite Hs in E. simpl in E.
    subst. now apply IH.
Qed.

End PositiveSigmas.

(** X15.  No sigma that a method resolves is zero.  On a reachable scheduler
    whose training sigmas are positive and strictly increasing, every sigma
    that [index_for_timestep] resolves for a timestep, in either phase, is
    positive: the divisors [sigma_hat] (predictor) and [sigma_next]
    (corrector) of [step], and the sigmas that [scale_model_input] and
    [add_noise] read.  The one sigma that is [0.0], the appended last one, is
    at no index of a timestep. *)
Theorem resolved_sigmas_are_positive {TL : TensorLib} (self : HeunDiscreteScheduler)
        (t sigma : R) :
  reachable self ->
  Forall (fun s => 0 < s) (train_sigmas self) ->
  strictly_increasing (train_sigmas self) ->
  resolved_sigma self t sigma ->
  0 < sigma
  /\ exists front, sigmas self = front ++ [0] /\ length front = length (timesteps self).
Proof.
  intros Hr Hpos Hinc (i & Hp & Hs).
  destruct (picked_index_matches _ _ _ Hp) as [Hi _].
  assert (Hne : timesteps self <> []).
  { intros E. rewrite E in Hi. simpl in Hi. lia. }
  destruct (reachable_sigmas_shape self Hr Hpos Hinc Hne) as (front & E & Hl & Hf).
  split; [|exists front; now split].
  rewrite E in Hs. rewrite (getitem_nth _ _ 0) in Hs by (rewrite length_app; simpl; lia).
  injection Hs as <-. rewrite app_nth1 by lia.
  rewrite Forall_forall in Hf. apply Hf. apply nth_In. lia.
Qed.

Lemma resolved_sigmas_are_positive_witness :
  reachable example_scheduler
  /\ strictly_increasing (train_sigmas example_scheduler)
  /\ exists sigma, resolved_sigma example_scheduler 1 sigma /\ 0 < sigma.
Proof.
  destruct example_well_ordered as (_ & Hpos & Hinc).
  split; [exact example_reachable|]. split; [exact Hinc|].
  assert (Hin : In 1 (timesteps example_scheduler)).
  { rewrite example_timesteps. now left. }
  destruct (scale_model_input_returns example_scheduler (3 : @Tensor scalar_tensors) 1
              (reachable_consistent _ example_reachable) Hin) as (i & sigma & Hp & Hs & _).
  assert (Hres : resolved_sigma example_scheduler 1 sigma) by (exists i; now split).
  exists sigma. split; [exact Hres|].
  exact (proj1 (resolved_sigmas_are_positive example_scheduler 1 sigma example_reachable
                                             Hpos Hinc Hres)).
Defined.

(** ** The last call of [step] *)



(** ** The generated betas *)

Lemma alpha_bar_1 : alpha_bar 1 = 0.
Proof.
  unfold alpha_bar. replace ((1 + 0.008) / 1.008 * PI / 2) with (PI / 2) by lra.
  rewrite cos_PI2. ring.
Qed.

Lemma range_last (n : Z) :
  (1 <= n)%Z -> exists front, range n = front ++ [(n - 1)%Z].
Proof.
  intros Hn. unfold range.
  replace (Z.to_nat n) with (S (Z.to_nat (n - 1))) by lia.
  rewrite seq_S, map_app. simpl. eexists. f_equal. f_equal. lia.
Qed.

(** X17.  The cosine betas end at the cap.  For [N >= 1] and a cap
    [0 < max_beta <= 1], [betas_for_alpha_bar(N, max_beta)] returns [N] betas,
    each positive and at most [max_beta], and the last of them is [max_beta]
    itself: [alpha_bar(1)] is the square of [cos(pi / 2)], so the uncapped
    last beta would be [1]. *)
Theorem cosine_betas_end_at_the_cap (n : Z) (max_beta : R) :
  (1 <= n)%Z -> 0 < max_beta <= 1 ->
  length (betas_for_alpha_bar n max_beta) = Z.to_nat n
  /\ Forall (fun b => 0 < b <= max_beta) (betas_for_alpha_bar n max_beta)
  /\ last (betas_for_alpha_bar n max_beta) 0 = max_beta.
Proof.
  intros Hn Hmax. split; [apply betas_for_alpha_bar_length|]. split.
  - unfold betas_for_alpha_bar, range.
    apply Forall_forall. intros b Hb. apply in_map_iff in Hb.
    destruct Hb as (i & <- & Hi). apply in_map_iff in Hi.
    destruct Hi as (k & <- & Hk). apply in_seq in Hk.
    assert (Hkn : (Z.of_nat k + 1 <= n)%Z) by lia.
    assert (HnR : IZR (Z.of_nat k + 1) <= IZR n) by now apply IZR_le.
    assert (HkR : 0 <= IZR (Z.of_nat k)) by (apply IZR_le; lia).
    assert (Hk1 : IZR (Z.of_nat k) < IZR (Z.of_nat k + 1)) by (apply IZR_lt; lia).
    set (r := / IZR n).
    assert (Hr : 0 < r) by (apply Rinv_0_lt_compat; lra).
    assert (Hnr : IZR n * r = 1) by (unfold r; field; lra).
    destruct (alpha_bar_decreases (IZR (Z.of_nat k) / IZR n) (IZR (Z.of_nat k + 1) / IZR n))
      as (Hab1 & Hab2 & Hab12).
    + unfold Rdiv. fold r. nra.
    + unfold Rdiv. fold r. nra.
    + unfold Rdiv. fold r. nra.
    + set (ab1 := alpha_bar (IZR (Z.of_nat k) / IZR n)) in *.
      set (ab2 := alpha_bar (IZR (Z.of_nat k + 1) / IZR n)) in *.
      set (q := / ab1).
      assert (Hq : 0 < q) by (apply Rinv_0_lt_compat; lra).
      assert (Hq1 : ab1 * q = 1) by (unfold q; field; lra).
      assert (Hratio : 0 <= ab2 / ab1 < 1) by (unfold Rdiv; fold q; nra).
      unfold Rmin. destruct (Rle_dec _ _); lra.
  - unfold betas_for_alpha_bar. destruct (range_last n Hn) as (front & ->).
    rewrite map_app. cbn [map]. rewrite last_last.
    assert (HnR : 1 <= IZR n) by (apply IZR_le; lia).
    replace (IZR (n - 1 + 1) / IZR n) with 1
      by (replace (n - 1 + 1)%Z with n by lia; field; lra).
    rewrite alpha_bar_1. unfold Rdiv. rewrite Rmult_0_l, Rminus_0_r.
    apply Rmin_right. lra.
Qed.

Lemma cosine_betas_end_at_the_cap_witness :
  (1 <= 1000)%Z /\ 0 < 0.999 <= 1
  /\ length (betas_for_alpha_bar 1000 0.999) = 1000%nat
  /\ last (betas_for_alpha_bar 1000 0.999) 0 = 0.999.
Proof.
  assert (Hn : (1 <= 1000)%Z) by lia.
  assert (Hm : 0 < 0.999 <= 1) by lra.
  destruct (cosine_betas_end_at_the_cap 1000 0.999 Hn Hm) as (Hl & _ & Hlast).
  split; [exact Hn|]. split; [exact Hm|]. split; [exact Hl|exact Hlast].
Defined.

Section LinearBetas.

Context {TL : TensorLib}.

Lemma linspace_values_hd (a b : R) (n : nat) :
  (1 <= n)%nat -> hd 0 (Np.linspace_values a b n) = a.
Proof.
  intros Hn. destruct (linspace_values_first a b n Hn) as (a0 & l & -> & ->). reflexivity.
Qed.

Lemma map_hd_last (f : R -> R) (l : list R) :
  l <> [] -> hd 0 (map f l) = f (hd 0 l) /\ last (map f l) 0 = f (last l 0).
Proof.
  intros Hne. split.
  - destruct l; [congruence|reflexivity].
  - destruct (exists_last Hne) as (front & z & ->).
    rewrite map_app. cbn [map]. now rewrite !last_last.
Qed.

Lemma init_betas (cfg : SchedulerConfig) (self : HeunDiscreteScheduler) :
  __init__ cfg = Ok self ->
  make_betas cfg = Ok (betas self)
  /\ alphas self = map (fun b => 1 - b) (betas self)
  /\ alphas_cumprod self = Paddle.cumprod (alphas self).
Proof.
  intros Hinit. destruct (init_eq cfg self Hinit) as (b & sg & ts & Hb & _ & ->).
  split; [exact Hb|split; reflexivity].
Qed.

End LinearBetas.

(** X18.  The linear schedules run from [beta_start] to [beta_end].  After
    [__init__] without explicit betas, with [beta_schedule] [linear] or
    [scaled_linear] and [0 <= beta_start <= beta_end], there are
    [num_train_timesteps] betas, they never decrease, the first of them is
    [beta_start] and, with at least two training timesteps, the last is
    [beta_end]; [alphas] is [1 - betas] and [alphas_cumprod] its cumulative
    product. *)
Theorem linear_betas_run_from_start_to_end {TL : TensorLib} (cfg : SchedulerConfig)
        (self : HeunDiscreteScheduler) :
  __init__ cfg = Ok self ->
  trained_betas cfg = None ->
  beta_schedule cfg = "linear"%string \/ beta_schedule cfg = "scaled_linear"%string ->
  0 <= beta_start cfg <= beta_end cfg ->
  length (betas self) = Z.to_nat (num_train_timesteps cfg)
  /\ (1 <= num_train_timesteps cfg)%Z
  /\ StronglySorted Rle (betas self)
  /\ hd 0 (betas self) = beta_start cfg
  /\ ((2 <= num_train_timesteps cfg)%Z -> last (betas self) 0 = beta_end cfg)
  /\ alphas self = map (fun b => 1 - b) (betas self)
  /\ alphas_cumprod self = Paddle.cumprod (alphas self).
Proof.
  intros Hinit Htb Hsch Hse.
  destruct (init_betas cfg self Hinit) as (Hb & Ha & Hacp).
  assert (Hgoal : length (betas self) = Z.to_nat (num_train_timesteps cfg)
                  /\ (1 <= num_train_timesteps cfg)%Z
                  /\ StronglySorted Rle (betas self)
                  /\ hd 0 (betas self) = beta_start cfg
                  /\ ((2 <= num_train_timesteps cfg)%Z -> last (betas self) 0 = beta_end cfg)).
  { revert Hb. generalize (betas self). intros b Hb.
    unfold make_betas in Hb. rewrite Htb in Hb.
    destruct Hsch as [Hs|Hs]; rewrite Hs in Hb; cbn [String.eqb Ascii.eqb Bool.eqb] in Hb.
    - apply paddle_linspace_ok in Hb. destruct Hb as [Hn ->].
      split; [apply linspace_values_length|]. split; [lia|].
      split; [apply linspace_values_sorted; lra|].
      split; [apply linspace_values_hd; lia|].
      intros H2. apply linspace_values_last. lia.
    - destruct (Paddle.linspace _ _ _) as [l|] eqn:Hl; [|discriminate].
      cbn [rbind] in Hb. injection Hb as <-.
      change (fun x : R => x * (x * 1)) with (fun x : R => x ^ 2).
      apply paddle_linspace_ok in Hl. destruct Hl as [Hn ->].
      assert (Hsq : sqrt (beta_start cfg) <= sqrt (beta_end cfg)) by (apply sqrt_le_1; lra).
      assert (H0 : 0 <= sqrt (beta_start cfg)) by apply sqrt_pos.
      assert (Hs2 : sqrt (beta_start cfg) ^ 2 = beta_start cfg) by (apply pow2_sqrt; lra).
      assert (He2 : sqrt (beta_end cfg) ^ 2 = beta_end cfg) by (apply pow2_sqrt; lra).
      assert (Hne : Np.linspace_values (sqrt (beta_start cfg)) (sqrt (beta_end cfg))
                                       (Z.to_nat (num_train_timesteps cfg)) <> []).
      { intros E. apply (f_equal (@length R)) in E.
        rewrite linspace_values_length in E. simpl in E. lia. }
      destruct (map_hd_last (fun x => x ^ 2) _ Hne) as [Hhd Hlast].
      split; [now rewrite length_map, linspace_values_length|]. split; [lia|].
      split; [|split].
      + apply (strongly_sorted_map (fun x => sqrt (beta_start cfg) <= x) Rle Rle).
        * intros x y Hx Hy Hxy. nra.
        * eapply Forall_impl; [|apply linspace_values_bounds; exact Hsq].
          simpl. intros x Hx. lra.
        * now apply linspace_values_sorted.
      + rewrite Hhd, linspace_values_hd by lia. exact Hs2.
      + intros H2. rewrite Hlast, linspace_values_last by lia. exact He2. }
  destruct Hgoal as (G1 & G2 & G3 & G4 & G5).
  repeat split; assumption.
Qed.

Lemma linear_betas_run_from_start_to_end_witness :
  __init__ example_config = Ok example_scheduler
  /\ 0 <= beta_start example_config <= beta_end example_config
  /\ hd 0 (betas example_scheduler) = 0.00085
  /\ last (betas example_scheduler) 0 = 0.012.
Proof.
  assert (Hse : 0 <= beta_start example_config <= beta_end example_config)
    by (simpl; lra).
  destruct (linear_betas_run_from_start_to_end example_config example_scheduler
              example_constructed eq_refl (or_introl eq_refl) Hse)
    as (_ & _ & _ & Hhd & Hlast & _).
  split; [exact example_constructed|]. split; [exact Hse|]. split; [exact Hhd|].
  apply Hlast. simpl. lia.
Defined.

(** ** Noising at the first timestep *)

(** X19.  Noising at the first timestep uses [init_noise_sigma].  On a
    reachable scheduler without Karras sigmas, with at least one training
    timestep and positive, strictly increasing training sigmas, after
    [set_timesteps(N)] with [N >= 1] the call [add_noise(x, noise, [t])] at
    the first timestep [t] returns [x + noise * init_noise_sigma], the sigma
    reshaped to the rank of [x]. *)
Theorem add_noise_at_the_first_timestep {TL : TensorLib} (self : HeunDiscreteScheduler)
        (n : Z) (original_samples noise : Tensor) :
  reachable self ->
  get_use_karras_sigmas self = false ->
  (1 <= num_train_timesteps (config self))%Z ->
  Forall (fun s => 0 < s) (train_sigmas self) ->
  strictly_increasing (train_sigmas self) ->
  (1 <= n)%Z ->
  exists self',
    set_timesteps n None self = (Ok tt, self')
    /\ add_noise original_samples noise [hd 0 (timesteps self')] self'
       = (Ok (t_add original_samples
                    (t_mul noise
                           (t_make ([1%nat] ++ repeat 1%nat
                                                      (length (t_shape original_samples) - 1))
                                   [init_noise_sigma self']))),
          self').
Proof.
  intros Hr Hk HT Hpos Hinc Hn.
  destruct (reachable_consistent _ Hr) as (_ & Hacp & _).
  destruct (set_timesteps_returns self n None Hacp Hn)
    as (s0 & ss & t0 & ts & Hsel & _ & _ & Hset).
  set (s1 := rebuilt (with_num_inference_steps self n) (s0 :: ss) (t0 :: ts)) in *.
  assert (Hr1 : reachable s1) by (eapply reach_set_timesteps; [exact Hr|exact Hset]).
  destruct (selected_sigmas_sorted _ _ _ _ Hsel HT Hpos Hinc) as (Hs & Hp & _).
  destruct (rebuilt_sigmas_sorted (with_num_inference_steps self n) (s0 :: ss) (t0 :: ts)
                                  Hs Hp ltac:(discriminate))
    as (_ & _ & _ & Hhd & Hins & _).
  fold s1 in Hhd, Hins. simpl hd in Hhd, Hins.
  assert (Ets : timesteps s1 = t0 :: Paddle.repeat_interleave_2 ts)
    by (unfold s1; apply rebuilt_timesteps).
  assert (Esg : sigmas s1 = s0 :: Paddle.repeat_interleave_2 ss ++ [0])
    by (unfold s1; apply rebuilt_sigmas).
  assert (Hk1 : get_use_karras_sigmas s1 = false) by exact Hk.
  clearbody s1.
  exists s1. split; [exact Hset|].
  rewrite Ets. simpl hd.
  destruct (add_noise_returns s1 original_samples noise [t0] (reachable_consistent _ Hr1))
    as (sigma & HF & E).
  { intros t [<-|[]]. rewrite Ets. now left. }
  rewrite E. destruct sigma as [|s [|s' l']].
  { inversion HF. }
  2:{ apply Forall2_cons_iff in HF. destruct HF as [_ HF]. inversion HF. }
  apply Forall2_cons_iff in HF. destruct HF as [(i & Hpi & Hgi) _].
  assert (Hm0 : matches_at (timesteps s1) t0 0).
  { rewrite Ets. split; [simpl; lia|reflexivity]. }
  rewrite (matching_positions_one_sigma s1 t0 i 0 Hr1 Hk1
             (picked_index_matches _ _ _ Hpi) Hm0) in Hgi.
  rewrite Esg in Hgi. injection Hgi as <-.
  rewrite Hins. reflexivity.
Qed.

Lemma add_noise_at_the_first_timestep_witness :
  reachable example_scheduler
  /\ strictly_increasing (train_sigmas example_scheduler)
  /\ exists self',
      set_timesteps 3 None example_scheduler = (Ok tt, self')
      /\ add_noise (2 : @Tensor scalar_tensors) (3 : @Tensor scalar_tensors)
                   [hd 0 (timesteps self')] self'
         = (Ok (2 + 3 * init_noise_sigma self'), self').
Proof.
  destruct example_well_ordered as (_ & Hpos & Hinc).
  split; [exact example_reachable|]. split; [exact Hinc|].
  assert (HT : (1 <= num_train_timesteps (config example_scheduler))%Z) by (simpl; lia).
  assert (H3 : (1 <= 3)%Z) by lia.
  destruct (add_noise_at_the_first_timestep example_scheduler 3
              (2 : @Tensor scalar_tensors) (3 : @Tensor scalar_tensors)
              example_reachable eq_refl HT Hpos Hinc H3) as (s' & Hset & E).
  exists s'. split; [exact Hset|exact E].
Defined.

(** ** The Karras timesteps are distinct *)

Lemma clip_inside (w : R) : 0 <= w <= 1 -> Np.clip w 0 1 = w.
Proof.
  intros Hw. unfold Np.clip. rewrite Rmax_left by lra. now rewrite Rmin_left by lra.
Qed.

Lemma div_by_negative (a b d : R) :
  d < 0 ->
  (a <= 0 -> 0 <= a / d)
  /\ (d <= a -> a / d <= 1)
  /\ (d < a -> a / d < 1)
  /\ (b < a -> a / d < b / d).
Proof.
  intros Hd. assert (Hi : / d < 0) by now apply Rinv_lt_0_compat.
  assert (Hid : d * / d = 1) by (field; lra).
  unfold Rdiv. repeat split; intros H.
  - replace (a * / d) with ((- a) * (- / d)) by ring. apply Rmult_le_pos; lra.
  - assert (0 <= (a - d) * (- / d)) by (apply Rmult_le_pos; lra). lra.
  - assert (0 < (a - d) * (- / d)) by (apply Rmult_lt_0_compat; lra). lra.
  - assert (0 < (a - b) * (- / d)) by (apply Rmult_lt_0_compat; lra). lra.
Qed.

(** Between the first and the last training sigma [_sigma_to_t] is strictly
    increasing. *)
Lemma sigma_to_t_strict (L : list R) (sigma1 sigma2 t1 t2 : R) :
  StronglySorted Rlt L -> (2 <= length L)%nat ->
  nth 0 L 0 <= ln sigma1 -> ln sigma1 < ln sigma2 -> ln sigma2 <= nth (length L - 1) L 0 ->
  _sigma_to_t sigma1 L = Ok t1 -> _sigma_to_t sigma2 L = Ok t2 ->
  t1 < t2.
Proof.
  intros Hs Hlen Hlo Hlt Hhi H1 H2.
  destruct (sigma_to_t_eq sigma1 L Hs Hlen) as (c1 & k1 & Hc1 & Hk1 & Hlo1 & Hhi1 & E1).
  destruct (sigma_to_t_eq sigma2 L Hs Hlen) as (c2 & k2 & Hc2 & Hk2 & Hlo2 & Hhi2 & E2).
  rewrite E1 in H1. rewrite E2 in H2. injection H1 as <-. injection H2 as <-.
  change (match k1 with 0%nat => 1 | S _ => INR k1 + 1 end) with (INR (S k1)).
  change (match k2 with 0%nat => 1 | S _ => INR k2 + 1 end) with (INR (S k2)).
  assert (Hc1' : (1 <= c1)%nat).
  { destruct c1; [|lia]. specialize (Hhi1 0%nat ltac:(lia)). lra. }
  assert (Hc2' : (1 <= c2)%nat).
  { destruct c2; [|lia]. specialize (Hhi2 0%nat ltac:(lia)). lra. }
  assert (Hc : (c1 <= c2)%nat).
  { destruct (Nat.le_gt_cases c1 c2) as [H|H]; [exact H|]. exfalso.
    pose proof (Hlo1 c2 H). pose proof (Hhi2 c2 ltac:(lia)). lra. }
  assert (Hk : (k1 <= k2)%nat) by lia.
  assert (Hk1l : (S k1 < length L)%nat) by lia.
  assert (Hk2l : (S k2 < length L)%nat) by lia.
  pose proof (strongly_sorted_nth Rlt L Hs k1 (S k1) ltac:(lia)) as Hd1.
  pose proof (strongly_sorted_nth Rlt L Hs k2 (S k2) ltac:(lia)) as Hd2.
  assert (Hb1 : nth k1 L 0 <= ln sigma1) by (apply Hlo1; lia).
  assert (Hb2 : nth k2 L 0 <= ln sigma2) by (apply Hlo2; lia).
  assert (Hu1 : ln sigma1 < nth (S k1) L 0).
  { destruct (Nat.eq_dec c1 (length L)) as [E|E].
    - replace (S k1) with (length L - 1)%nat by lia. lra.
    - replace (S k1) with c1 by lia. apply Hhi1. lia. }
  assert (Hu2 : ln sigma2 <= nth (S k2) L 0).
  { destruct (Nat.eq_dec c2 (length L)) as [E|E].
    - replace (S k2) with (length L - 1)%nat by lia. lra.
    - replace (S k2) with c2 by lia. left. apply Hhi2. lia. }
  set (d1 := nth k1 L 0 - nth (S k1) L 0) in *.
  set (d2 := nth k2 L 0 - nth (S k2) L 0) in *.
  assert (Hd1n : d1 < 0) by (unfold d1; lra).
  assert (Hd2n : d2 < 0) by (unfold d2; lra).
  assert (Hw1 : 0 <= (nth k1 L 0 - ln sigma1) / d1 < 1).
  { destruct (div_by_negative (nth k1 L 0 - ln sigma1) 0 d1 Hd1n) as (F1 & _ & F3 & _).
    split; [apply F1; lra|apply F3; unfold d1; lra]. }
  assert (Hw2 : 0 <= (nth k2 L 0 - ln sigma2) / d2 <= 1).
  { destruct (div_by_negative (nth k2 L 0 - ln sigma2) 0 d2 Hd2n) as (F1 & F2 & _).
    split; [apply F1; lra|apply F2; unfold d2; lra]. }
  rewrite (clip_inside ((nth k1 L 0 - ln sigma1) / d1)) by lra.
  rewrite (clip_inside _ Hw2). rewrite !S_INR.
  destruct (Nat.eq_dec k1 k2) as [Heq|Hne].
  - assert (Ed : d2 = d1) by (unfold d1, d2; now rewrite Heq).
    rewrite <- Heq, Ed in *.
    assert (Hw : (nth k1 L 0 - ln sigma1) / d1 < (nth k1 L 0 - ln sigma2) / d1).
    { apply (div_by_negative _ _ d1 Hd1n). lra. }
    nra.
  - assert (Hk' : INR k1 + 1 <= INR k2).
    { rewrite <- S_INR. apply le_INR. lia. }
    nra.
Qed.

Lemma sigma_to_t_sorted_strict (L ks ts : list R) :
  StronglySorted Rlt L -> (2 <= length L)%nat ->
  StronglySorted Rgt ks ->
  Forall (fun s => 0 < s /\ nth 0 L 0 <= ln s <= nth (length L - 1) L 0) ks ->
  rmap (fun sigma => _sigma_to_t sigma L) ks = Ok ts ->
  StronglySorted Rgt ts.
Proof.
  intros HL Hlen Hs. revert ts. induction Hs as [|s ks Hs IH Hall]; intros ts Hin Hr.
  - simpl in Hr. injection Hr as <-. constructor.
  - simpl in Hr. destruct (_sigma_to_t s L) as [t|] eqn:Et; [|discriminate]. simpl in Hr.
    destruct (rmap _ ks) as [ts'|] eqn:Er; [|discriminate]. simpl in Hr.
    injection Hr as <-. inversion Hin as [|? ? Hs0 Hin']; subst.
    constructor; [now apply IH|].
    apply Forall_forall. intros t' Ht'.
    destruct (rmap_In _ _ _ _ Er Ht') as (s' & Hs' & Et').
    rewrite Forall_forall in Hall, Hin'.
    specialize (Hall _ Hs'). specialize (Hin' _ Hs').
    apply Rlt_gt. apply (sigma_to_t_strict L s' s t' t HL Hlen); try tauto.
    apply ln_increasing; [tauto|lra].
Qed.

Lemma convert_to_karras_strict (in_sigmas ks : list R) (n : Z) :
  _convert_to_karras in_sigmas n = Ok ks ->
  0 < last in_sigmas 0 -> last in_sigmas 0 < hd 0 in_sigmas ->
  StronglySorted Rgt ks.
Proof.
  unfold _convert_to_karras. intros H Hmin Hlt.
  destruct in_sigmas as [|s0 rest] eqn:E.
  { rewrite getitem_nil in H. discriminate. }
  rewrite <- E in *.
  assert (Hne : in_sigmas <> []) by (rewrite E; discriminate).
  rewrite (getitem_last in_sigmas 0 Hne), (getitem_first in_sigmas 0 Hne) in H.
  simpl rbind in H.
  destruct (Np.linspace 0 1 n) as [ramp|] eqn:Er; [|discriminate]. simpl rbind in H.
  apply np_linspace_ok in Er. destruct Er as [_ ->]. injection H as <-.
  set (smin := last in_sigmas 0) in *. set (smax := hd 0 in_sigmas) in *.
  destruct (power_pos smin (1 / 7) Hmin) as [-> Hm].
  destruct (power_pos smax (1 / 7) ltac:(lra)) as [-> HM].
  assert (HmM : Rpower smin (1 / 7) < Rpower smax (1 / 7)).
  { apply Rlt_Rpower_l; lra. }
  set (m := Rpower smin (1 / 7)) in *. set (M := Rpower smax (1 / 7)) in *.
  pose proof (linspace_values_bounds 0 1 (Z.to_nat n) ltac:(lra)) as Hb.
  pose proof (linspace_values_strictly_sorted 0 1 (Z.to_nat n) ltac:(lra)) as Hs.
  apply (strongly_sorted_map (fun r => 0 <= r <= 1) Rlt Rgt); [|exact Hb|exact Hs].
  intros r r' Hr Hr' Hrr'.
  assert (H1 : 0 < M + r' * (m - M)) by nra.
  assert (H2 : M + r' * (m - M) < M + r * (m - M)) by nra.
  destruct (power_pos (M + r' * (m - M)) 7 H1) as [-> _].
  destruct (power_pos (M + r * (m - M)) 7 ltac:(lra)) as [-> _].
  apply Rlt_gt. apply Rlt_Rpower_l; lra.
Qed.

Lemma sorted_between_ends (l : list R) :
  StronglySorted Rge l -> Forall (fun s => last l 0 <= s <= hd 0 l) l.
Proof.
  intros Hs. destruct l as [|a l]; [constructor|].
  apply Forall_forall. intros s Hin. split.
  - destruct (exists_last (l := a :: l) ltac:(discriminate)) as (front & z & E).
    rewrite E in *. rewrite last_last.
    apply in_app_or in Hin. destruct Hin as [Hin|[<-|[]]]; [|lra].
    apply In_nth with (d := 0) in Hin. destruct Hin as (i & Hi & <-).
    pose proof (strongly_sorted_nth Rge (front ++ [z]) Hs i (length front)) as H.
    rewrite length_app in H. simpl in H. specialize (H ltac:(lia)).
    rewrite app_nth1 in H by exact Hi. rewrite nth_middle in H. lra.
  - simpl hd. destruct Hin as [<-|Hin]; [lra|].
    inversion Hs as [|? ? _ Hall]; subst. rewrite Forall_forall in Hall.
    specialize (Hall s Hin). lra.
Qed.

Section KarrasTimesteps.

Context {TL : TensorLib}.

(** The timesteps that [set_timesteps] selects strictly descend: with at
    least two training timesteps, and with Karras sigmas when the training
    sigmas are as the supported schedules make them. *)
Lemma selected_timesteps_strict (self : HeunDiscreteScheduler) (sg ts : list R) :
  selected_schedule self None = Ok (sg, ts) ->
  (2 <= num_train_timesteps (config self))%Z ->
  (get_use_karras_sigmas self = true -> well_ordered_training self) ->
  StronglySorted Rgt ts.
Proof.
  intros Hsel HT Hwo.
  pose proof (selected_schedule_lengths _ _ _ _ Hsel) as (Hn & Hlsg & Hlts & Hacp).
  destruct (selected_timesteps_eq self None sg ts Hsel) as [[_ ->]|[Hk Hr]].
  - apply strongly_sorted_rev_strict. apply linspace_values_strictly_sorted.
    apply IZR_lt. cbn [Py.or_int]. lia.
  - destruct (Hwo Hk) as (Hlen & Hpos & Hinc).
    destruct (Z.eq_dec (num_inference_steps self) 1) as [E1|E1].
    { rewrite E1 in Hlts. destruct ts as [|t0 [|t1 ts]]; try (simpl in Hlts; lia).
      repeat constructor. }
    assert (H2 : (2 <= num_inference_steps self)%Z).
    { destruct (Z.eq_dec (num_inference_steps self) 0) as [E0|E0]; [|lia].
      exfalso. rewrite E0 in Hlsg. destruct sg; [|discriminate].
      destruct (selected_sigmas_eq self None [] ts Hsel) as [[F _]|[_ Hc]]; [congruence|].
      rewrite E0 in Hc. simpl in Hc. discriminate. }
    destruct (selected_sigmas_sorted self None sg ts Hsel ltac:(cbn [Py.or_int]; lia)
                                     Hpos Hinc) as (Hsg & Hsgpos & _ & Hends).
    destruct (Hends H2) as [Hhd Hlast]. cbn [Py.or_int] in Hhd.
    set (fp := train_sigmas self) in *.
    set (top := Nat.min (Z.to_nat (num_train_timesteps (config self) - 1)) (length fp - 1))
      in *.
    pose proof (strictly_increasing_sorted fp Hinc) as Hfps.
    pose proof (log_sigmas_sorted fp Hpos Hinc) as HL.
    assert (Hlen' : (2 <= length (map ln fp))%nat) by now rewrite length_map.
    assert (Hnth : forall j, (j < length fp)%nat -> nth j (map ln fp) 0 = ln (nth j fp 0)).
    { intros j Hj. rewrite (nth_indep (map ln fp) 0 (ln 0)) by now rewrite length_map.
      apply map_nth. }
    assert (Hfp0 : hd 0 fp = nth 0 fp 0) by (destruct fp; reflexivity).
    assert (Hpos0 : 0 < nth 0 fp 0).
    { rewrite Forall_forall in Hpos. apply Hpos. apply nth_In. lia. }
    assert (Htop : nth 0 fp 0 < nth top fp 0).
    { apply (strongly_sorted_nth Rlt fp Hfps). unfold top. lia. }
    assert (Htop' : nth top fp 0 <= nth (length fp - 1) fp 0).
    { destruct (Nat.eq_dec top (length fp - 1)) as [->|Hne]; [lra|].
      left. apply (strongly_sorted_nth Rlt fp Hfps). unfold top in *. lia. }
    pose proof (sorted_between_ends sg Hsg) as Hrange.
    rewrite Hhd, Hlast, Hfp0 in Hrange.
    assert (Hstrict : StronglySorted Rgt sg).
    { destruct (selected_sigmas_eq self None sg ts Hsel) as [[F _]|[_ Hc]]; [congruence|].
      cbv zeta in Hc. fold fp in Hc. set (in_sigmas := map (Np.interp1 _ _) _) in *.
      destruct (interpolated_sigmas_positive fp
                  (IZR (Py.or_int None (num_train_timesteps (config self)) - 1))
                  (Z.to_nat (num_inference_steps self))
                  (train_sigmas_nonempty self Hacp) Hpos Hfps) as (Hp & Hl & He).
      fold in_sigmas in Hp, Hl, He.
      destruct (He ltac:(lia)) as [Hl0 Hle].
      destruct (convert_to_karras_ends _ _ _ Hc Hl0 ltac:(lra)) as (_ & Hkhd & Hklast).
      apply (convert_to_karras_strict in_sigmas sg (num_inference_steps self) Hc Hl0).
      rewrite <- (Hkhd ltac:(lia)), <- (Hklast H2), Hhd, Hlast, Hfp0. exact Htop. }
    apply (sigma_to_t_sorted_strict (map ln fp) sg ts HL Hlen' Hstrict); [|exact Hr].
    apply Forall_forall. intros s Hs.
    rewrite Forall_forall in Hrange, Hsgpos.
    specialize (Hrange s Hs). specialize (Hsgpos s Hs).
    split; [exact Hsgpos|].
    rewrite length_map, !Hnth by lia. split.
    + destruct (Req_dec (nth 0 fp 0) s) as [->|Hne]; [lra|].
      left. apply ln_increasing; lra.
    + destruct (Req_dec s (nth (length fp - 1) fp 0)) as [->|Hne]; [lra|].
      left. apply ln_increasing; lra.
Qed.

End KarrasTimesteps.

(** X20.  With Karras sigmas the pipeline computes Heun's method too.  Run
    with a reachable [HeunDiscreteScheduler] that uses Karras sigmas, with
    at least two training timesteps and training sigmas that are at least
    two, positive and strictly increasing, the denoising part of
    [LDMPipeline.__call__] with [N >= 1] inference steps gives the result,
    or the exception, of Heun's second-order sampler along the Karras
    conversion of the interpolated training sigmas and their timesteps under
    [_sigma_to_t].  Those timesteps strictly descend, which is what lets
    [index_for_timestep] tell the positions of the schedule apart. *)
Theorem pipeline_computes_heun_method_with_karras_sigmas {TL : TensorLib}
        (unet : Tensor -> R -> Tensor) (self : HeunDiscreteScheduler)
        (latents : Tensor) (n : Z) :
  reachable self ->
  get_use_karras_sigmas self = true ->
  (2 <= num_train_timesteps (config self))%Z ->
  well_ordered_training self ->
  (1 <= n)%Z ->
  exists sg ts,
    _convert_to_karras
      (map (Np.interp1 (Np.arange (length (train_sigmas self))) (train_sigmas self))
           (rev (Np.linspace_values 0 (IZR (num_train_timesteps (config self) - 1))
                                    (Z.to_nat n))))
      n = Ok sg
    /\ rmap (fun sigma => _sigma_to_t sigma (map ln (train_sigmas self))) sg = Ok ts
    /\ length ts = Z.to_nat n
    /\ strictly_increasing (rev ts)
    /\ fst (LDMPipeline__call__ unet latents n self)
       = heun_sampler unet (prediction_type (config self)) (combine sg ts)
                      (t_mul latents (t_scalar (init_noise_sigma self))).
Proof.
  intros Hr Hk HT Hwo Hn.
  destruct (reachable_consistent _ Hr) as (_ & Hacp & _).
  destruct (set_timesteps_returns self n None Hacp Hn)
    as (s0 & ss & t0 & ts & Hsel & Hlss & Hlts & Hset).
  pose proof (selected_timesteps_strict _ _ _ Hsel HT (fun _ => Hwo)) as Hstrict.
  exists (s0 :: ss), (t0 :: ts). split; [|split; [|split; [|split]]].
  - destruct (selected_sigmas_eq _ _ _ _ Hsel) as [[F _]|[_ Hc]].
    + change (get_use_karras_sigmas self = false) in F. congruence.
    + exact Hc.
  - destruct (selected_timesteps_eq _ _ _ _ Hsel) as [[F _]|[_ Ht]].
    + change (get_use_karras_sigmas self = false) in F. congruence.
    + exact Ht.
  - simpl length. lia.
  - intros i j Hij. rewrite length_rev in Hij.
    rewrite !rev_nth by lia.
    apply Rgt_lt. apply (strongly_sorted_nth Rgt (t0 :: ts) Hstrict). lia.
  - unfold LDMPipeline__call__, bind, get_self. rewrite Hset.
    apply (denoising_loop_heun unet (prediction_type (config self))
             (rebuilt (with_num_inference_steps self n) (s0 :: ss) (t0 :: ts))
             (s0 :: ss) (t0 :: ts)).
    + simpl length. lia.
    + exact Hstrict.
    + reflexivity.
    + reflexivity.
    + reflexivity.
    + reflexivity.
Qed.

Lemma pipeline_computes_heun_method_with_karras_sigmas_witness :
  exists (self : @HeunDiscreteScheduler scalar_tensors) sg ts,
    __init__ karras_config = Ok self
    /\ get_use_karras_sigmas self = true
    /\ well_ordered_training self
    /\ length ts = 3%nat
    /\ fst (LDMPipeline__call__ (TL := scalar_tensors) (fun x t => x * t) 1 3 self)
       = heun_sampler (TL := scalar_tensors) (fun x t => x * t) "epsilon" (combine sg ts)
                      (1 * init_noise_sigma self).
Proof.
  destruct (init_returns_generated (TL := scalar_tensors) karras_config eq_refl
              (or_introl eq_refl) ltac:(simpl; lia)) as [self Hinit].
  pose proof (init_config _ _ Hinit) as Hcfg.
  assert (Hk : get_use_karras_sigmas self = true).
  { destruct (init_eq _ _ Hinit) as (b & sg & ts & _ & _ & ->). reflexivity. }
  assert (Hwo : well_ordered_training self).
  { apply (generated_well_ordered karras_config); [exact Hinit|reflexivity| | | |];
      simpl; lra || lia. }
  assert (HT : (2 <= num_train_timesteps (config self))%Z) by (rewrite Hcfg; simpl; lia).
  assert (H3 : (1 <= 3)%Z) by lia.
  destruct (pipeline_computes_heun_method_with_karras_sigmas
              (TL := scalar_tensors) (fun x t => x * t) self 1 3
              (reach_init karras_config self Hinit) Hk HT Hwo H3)
    as (sg & ts & _ & _ & Hlts & _ & E).
  exists self, sg, ts. split; [exact Hinit|]. split; [exact Hk|].
  split; [exact Hwo|]. split; [exact Hlts|].
  rewrite E, Hcfg. reflexivity.
Defined.

(** ** One inference step *)

Section OneStep.

Context {TL : TensorLib}.

Lemma train_sigmas_hd_nonneg (self : HeunDiscreteScheduler) :
  0 <= hd 0 (train_sigmas self).
Proof.
  unfold train_sigmas. destruct (alphas_cumprod self) as [|a l]; simpl; [lra|].
  apply sqrt_pos.
Qed.

Lemma interpolated_at_0 (fp : list R) (b : R) :
  fp <> [] ->
  map (Np.interp1 (Np.arange (length fp)) fp) (rev (Np.linspace_values 0 b (Z.to_nat 1)))
  = [hd 0 fp].
Proof.
  intros Hne. change (Np.linspace_values 0 b (Z.to_nat 1)) with [0]. cbn [rev app map].
  unfold Np.interp1. rewrite arange_hd by (destruct fp; [congruence|simpl; lia]).
  destruct (Rle_dec 0 0); [reflexivity|lra].
Qed.

Lemma selected_schedule_one (self : HeunDiscreteScheduler) (t : option Z) :
  alphas_cumprod self <> [] -> num_inference_steps self = 1%Z ->
  (get_use_karras_sigmas self = true -> well_ordered_training self) ->
  selected_schedule self t = Ok ([hd 0 (train_sigmas self)], [0]).
Proof.
  intros Hacp Hn Hwo.
  pose proof (train_sigmas_nonempty self Hacp) as Hfp.
  destruct (selected_schedule_ok self t Hacp ltac:(lia)) as (sg & ts & Hsel).
  rewrite Hsel. f_equal.
  pose proof (selected_sigmas_eq self t sg ts Hsel) as Hsg. cbv zeta in Hsg.
  pose proof (selected_timesteps_eq self t sg ts Hsel) as Hts.
  rewrite Hn in Hsg, Hts. rewrite (interpolated_at_0 _ _ Hfp) in Hsg.
  change (Np.linspace_values 0 (IZR (Py.or_int t (num_train_timesteps (config self)) - 1))
                             (Z.to_nat 1)) with [0] in Hts.
  destruct Hsg as [[Hk ->]|[Hk Hc]].
  - destruct Hts as [[_ ->]|[F _]]; [reflexivity|congruence].
  - destruct Hts as [[F _]|[_ Hr]]; [congruence|].
    destruct (Hwo Hk) as (Hlen & Hpos & Hinc).
    assert (Hhd : 0 < hd 0 (train_sigmas self)).
    { destruct (train_sigmas self); [congruence|]. inversion Hpos; subst. assumption. }
    destruct (convert_to_karras_ends _ _ _ Hc Hhd Hhd) as (Hl & Hkhd & _).
    specialize (Hkhd ltac:(lia)). simpl in Hl, Hkhd.
    destruct sg as [|s0 [|s1 sg]]; try (simpl in Hl; lia).
    simpl in Hkhd. subst s0.
    simpl in Hr.
    pose proof (log_sigmas_sorted _ Hpos Hinc) as HL.
    rewrite (sigma_to_t_knot (map ln (train_sigmas self)) 0 (hd 0 (train_sigmas self)) HL)
      in Hr.
    + simpl in Hr. now injection Hr as <-.
    + now rewrite length_map.
    + rewrite length_map. lia.
    + destruct (train_sigmas self); [congruence|reflexivity].
Qed.

End OneStep.

(** X21.  One inference step starts at the least noisy level.  On a reachable
    scheduler [set_timesteps(1)] returns, whatever [num_train_timesteps] is,
    with the single timestep [0] and the sigmas [[sigma_0, 0]], where
    [sigma_0] is the first, the smallest, training sigma; [init_noise_sigma]
    becomes [sigma_0].  [np.linspace(0, T - 1, 1)] is [[0.]], not [[T - 1]].
    With Karras sigmas this holds when the training sigmas are at least two,
    positive and strictly increasing. *)
Theorem one_inference_step_starts_at_timestep_0 {TL : TensorLib}
        (self : HeunDiscreteScheduler) (t : option Z) :
  reachable self ->
  (get_use_karras_sigmas self = true -> well_ordered_training self) ->
  exists self',
    set_timesteps 1 t self = (Ok tt, self')
    /\ timesteps self' = [0]
    /\ sigmas self' = [hd 0 (train_sigmas self); 0]
    /\ init_noise_sigma self' = hd 0 (train_sigmas self).
Proof.
  intros Hr Hwo. destruct (reachable_consistent _ Hr) as (_ & Hacp & _).
  pose proof (selected_schedule_one (with_num_inference_steps self 1) t Hacp eq_refl Hwo)
    as Hsel.
  change (train_sigmas (with_num_inference_steps self 1)) with (train_sigmas self) in Hsel.
  eexists. split; [rewrite set_timesteps_eq, Hsel; reflexivity|].
  split; [reflexivity|]. split; [reflexivity|].
  cbn. apply Rmax_left. apply train_sigmas_hd_nonneg.
Qed.

Lemma one_inference_step_starts_at_timestep_0_witness :
  reachable example_scheduler
  /\ num_train_timesteps (config example_scheduler) = 2%Z
  /\ exists self',
      set_timesteps 1 None example_scheduler = (Ok tt, self')
      /\ timesteps self' = [0]
      /\ init_noise_sigma self' = hd 0 (train_sigmas example_scheduler).
Proof.
  split; [exact example_reachable|]. split; [reflexivity|].
  assert (Hwo : get_use_karras_sigmas example_scheduler = true ->
                well_ordered_training example_scheduler)
    by (intros _; exact example_well_ordered).
  destruct (one_inference_step_starts_at_timestep_0 example_scheduler None
              example_reachable Hwo) as (s' & Hset & Hts & _ & Hins).
  exists s'. split; [exact Hset|]. split; [exact Hts|exact Hins].
Defined.

(** ** The positions of one timestep hold one sigma *)

Lemma interp1_upper (xp fp : list R) (x : R) :
  length xp = length fp -> fp <> [] ->
  StronglySorted Rlt xp -> StronglySorted Rle fp ->
  Np.interp1 xp fp x <= last fp 0.
Proof.
  intros Hlen Hne Hs Hf. pose proof (sorted_le_last fp Hf) as Hall.
  unfold Np.interp1.
  destruct (Rle_dec x (hd 0 xp)).
  - rewrite Forall_forall in Hall. apply Hall. destruct fp; [congruence|now left].
  - destruct (Rle_dec (last xp 0) x); [lra|].
    apply interp_search_upper; try assumption. lra.
Qed.

Lemma Forall2_map_In (Rel : R -> R -> Prop) (g : R -> R) (l : list R) :
  Forall2 Rel (map g l) l -> forall x, In x l -> Rel (g x) x.
Proof.
  induction l as [|a l IH]; intros H x Hx; [contradiction|].
  simpl in H. inversion H as [|? ? ? ? Ha Hl]; subst.
  destruct Hx as [<-|Hx]; [exact Ha|now apply IH].
Qed.

(** Two lists related entry by entry, where equal entries on the right have
    equal entries on the left: the left one is a function of the right one. *)
Lemma functional_lists (Rel : R -> R -> Prop) (sg ts : list R) :
  Forall2 Rel sg ts ->
  (forall s s' t, In s sg -> In s' sg -> Rel s t -> Rel s' t -> s = s') ->
  exists f, sg = map f ts.
Proof.
  induction 1 as [|s t sg ts Hst HF IH]; intros Hinj.
  - exists (fun _ => 0). reflexivity.
  - destruct IH as [f' ->].
    { intros a b u Ha Hb. apply Hinj; now right. }
    exists (fun x => if Req_dec_T x t then s else f' x).
    simpl. destruct (Req_dec_T t t) as [_|F]; [|congruence].
    f_equal. apply map_ext_in. intros x Hx.
    destruct (Req_dec_T x t) as [->|_]; [|reflexivity].
    apply (Hinj (f' t) s t).
    + right. now apply in_map.
    + now left.
    + now apply (Forall2_map_In Rel f' ts HF).
    + exact Hst.
Qed.

Section OneSigma.

Context {TL : TensorLib}.

(** The Karras sigmas lie between the first and the last training sigma. *)
Lemma karras_sigmas_in_range (self : HeunDiscreteScheduler) (t : option Z)
      (sg ts : list R) :
  selected_schedule self t = Ok (sg, ts) ->
  get_use_karras_sigmas self = true ->
  well_ordered_training self ->
  Forall (fun s => 0 < s
                   /\ hd 0 (train_sigmas self) <= s <= last (train_sigmas self) 0) sg.
Proof.
  intros Hsel Hk (Hlen & Hpos & Hinc).
  pose proof (selected_schedule_lengths _ _ _ _ Hsel) as (Hn & Hlsg & _ & Hacp).
  pose proof (train_sigmas_nonempty self Hacp) as Hfp.
  pose proof (strictly_increasing_sorted _ Hinc) as Hfps.
  destruct (selected_sigmas_eq self t sg ts Hsel) as [[F _]|[_ Hc]]; [congruence|].
  cbv zeta in Hc.
  set (fp := train_sigmas self) in *.
  set (b := IZR (Py.or_int t (num_train_timesteps (config self)) - 1)) in *.
  set (n := Z.to_nat (num_inference_steps self)) in *.
  destruct (interpolated_sigmas_positive fp b n Hfp Hpos Hfps) as (Hp & Hl & He).
  assert (Hrange : Forall (fun s => hd 0 fp <= s <= last fp 0)
                          (map (Np.interp1 (Np.arange (length fp)) fp)
                               (rev (Np.linspace_values 0 b n)))).
  { apply Forall_forall. intros s Hs. apply in_map_iff in Hs. destruct Hs as (x & <- & _).
    split.
    - apply interp1_lower; [apply arange_length|exact Hfp|apply arange_sorted|].
      now apply sorted_hd_lower.
    - apply interp1_upper; [apply arange_length|exact Hfp|apply arange_sorted|].
      now apply sorted_lt_le. }
  set (in_sigmas := map (Np.interp1 _ _) _) in *.
  assert (Hn1 : (1 <= n)%nat).
  { destruct (Nat.le_gt_cases 1 n) as [H1|H1]; [exact H1|].
    exfalso. destruct in_sigmas; [|simpl in Hl; lia].
    unfold _convert_to_karras in Hc. rewrite getitem_nil in Hc. discriminate. }
  destruct (He Hn1) as [H0 Hle].
  assert (Hne : in_sigmas <> []) by (intros E; rewrite E in Hl; simpl in Hl; lia).
  assert (Hhd0 : 0 < hd 0 in_sigmas) by lra.
  destruct (convert_to_karras_sorted _ _ _ Hc H0 Hle) as [Hks Hkpos].
  destruct (convert_to_karras_ends _ _ _ Hc H0 Hhd0) as (Hkl & Hkhd & Hklast).
  specialize (Hkhd ltac:(lia)).
  rewrite Forall_forall in Hrange.
  assert (Hhd_in : In (hd 0 in_sigmas) in_sigmas).
  { destruct in_sigmas; [congruence|now left]. }
  assert (Hlast_in : In (last in_sigmas 0) in_sigmas) by now apply last_In.
  assert (Hlast_sg : hd 0 fp <= last sg 0).
  { destruct (Nat.eq_dec n 1) as [E1|E1].
    - rewrite E1 in Hlsg. destruct sg as [|s0 [|s1 sg]]; try (simpl in Hlsg; lia).
      simpl in Hkhd |- *. rewrite Hkhd. apply (Hrange _ Hhd_in).
    - rewrite Hklast by (unfold n in Hn1, E1; lia). apply (Hrange _ Hlast_in). }
  pose proof (sorted_between_ends sg Hks) as Hb.
  rewrite Forall_forall in Hb, Hkpos. apply Forall_forall. intros s Hs.
  specialize (Hb s Hs). specialize (Hkpos s Hs). rewrite Hkhd in Hb.
  pose proof (Hrange _ Hhd_in) as Hh. lra.
Qed.

(** With Karras sigmas, timesteps that are equal come from sigmas that are
    equal. *)
Lemma karras_selected_functional (self : HeunDiscreteScheduler) (t : option Z)
      (sg ts : list R) :
  selected_schedule self t = Ok (sg, ts) ->
  get_use_karras_sigmas self = true ->
  well_ordered_training self ->
  exists f, sg = map f ts.
Proof.
  intros Hsel Hk Hwo.
  pose proof (karras_sigmas_in_range self t sg ts Hsel Hk Hwo) as Hrange.
  destruct Hwo as (Hlen & Hpos & Hinc).
  destruct (selected_timesteps_eq self t sg ts Hsel) as [[F _]|[_ Hr]]; [congruence|].
  apply rmap_Forall2_ok in Hr.
  apply (functional_lists _ sg ts Hr).
  set (fp := train_sigmas self) in *.
  pose proof (log_sigmas_sorted fp Hpos Hinc) as HL.
  assert (Hlen' : (2 <= length (map ln fp))%nat) by now rewrite length_map.
  assert (Hnth : forall j, (j < length fp)%nat -> nth j (map ln fp) 0 = ln (nth j fp 0)).
  { intros j Hj. rewrite (nth_indep (map ln fp) 0 (ln 0)) by now rewrite length_map.
    apply map_nth. }
  assert (Hfp0 : hd 0 fp = nth 0 fp 0) by (destruct fp; reflexivity).
  assert (Hfpl : last fp 0 = nth (length fp - 1) fp 0) by (symmetry; apply nth_pred_length_last).
  assert (Hpos0 : 0 < nth 0 fp 0).
  { rewrite Forall_forall in Hpos. apply Hpos. apply nth_In. lia. }
  assert (Hlower : forall s, 0 < s -> hd 0 fp <= s -> nth 0 (map ln fp) 0 <= ln s).
  { intros s Hs Hle. rewrite Hnth by lia. rewrite Hfp0 in Hle.
    destruct (Req_dec (nth 0 fp 0) s) as [->|Hne]; [lra|].
    left. apply ln_increasing; lra. }
  assert (Hupper : forall s, 0 < s -> s <= last fp 0 ->
                             ln s <= nth (length (map ln fp) - 1) (map ln fp) 0).
  { intros s Hs Hle. rewrite length_map, Hnth by lia. rewrite Hfpl in Hle.
    destruct (Req_dec s (nth (length fp - 1) fp 0)) as [->|Hne]; [lra|].
    left. apply ln_increasing; lra. }
  assert (Hlt : forall s s' u, In s sg -> In s' sg -> s < s' ->
                               _sigma_to_t s (map ln fp) = Ok u ->
                               _sigma_to_t s' (map ln fp) = Ok u -> False).
  { intros s s' u Hs Hs' Hss E E'. rewrite Forall_forall in Hrange.
    destruct (Hrange s Hs) as (H0 & Hlo & _). destruct (Hrange s' Hs') as (H0' & _ & Hhi).
    pose proof (sigma_to_t_strict (map ln fp) s s' u u HL Hlen'
                  (Hlower s H0 Hlo) (ln_increasing s s' H0 Hss) (Hupper s' H0' Hhi) E E').
    lra. }
  intros s s' u Hs Hs' E E'.
  destruct (Rtotal_order s s') as [H|[H|H]]; [|exact H|].
  - exfalso. exact (Hlt s s' u Hs Hs' H E E').
  - exfalso. exact (Hlt s' s u Hs' Hs H E' E).
Qed.

Lemma selected_schedule_functional (self : HeunDiscreteScheduler) (t : option Z)
      (sg ts : list R) :
  selected_schedule self t = Ok (sg, ts) ->
  (get_use_karras_sigmas self = true -> well_ordered_training self) ->
  exists f, sg = map f ts.
Proof.
  intros Hsel Hwo. destruct (get_use_karras_sigmas self) eqn:Hk.
  - exact (karras_selected_functional self t sg ts Hsel Hk (Hwo eq_refl)).
  - exact (selected_schedule_aligned self t sg ts Hk Hsel).
Qed.

(** On a reachable scheduler the sigma at the position of a timestep is a
    function of the timestep. *)
Lemma reachable_one_sigma (self : HeunDiscreteScheduler) :
  reachable self ->
  (get_use_karras_sigmas self = true -> well_ordered_training self) ->
  aligned self.
Proof.
  induction 1 as [cfg s Hi | s n t r s' _ IH Hs | s mo t x rd r s' _ IH Hs
                 | s x t r s' _ IH Hs | s o nz ts r s' _ IH Hs]; intros Hwo.
  - destruct (init_eq cfg s Hi) as (b & sg & ts & _ & Hsel & E).
    rewrite E in Hwo.
    destruct (selected_schedule_functional _ _ _ _ Hsel Hwo) as [f Hf].
    rewrite E, Hf.
    destruct (rebuilt_aligned (with_num_inference_steps (initial_self cfg b)
                                                        (num_train_timesteps cfg)) f ts)
      as (f' & rest & E').
    exists f', rest. exact E'.
  - rewrite set_timesteps_eq in Hs.
    destruct (selected_schedule _ _) as [[sg ts]|e] eqn:Hsel.
    + injection Hs as _ <-.
      destruct (selected_schedule_functional _ _ _ _ Hsel Hwo) as [f ->].
      apply rebuilt_aligned.
    + injection Hs as _ <-. destruct (IH Hwo) as (f & rest & E). exists f, rest. exact E.
  - destruct (step_keeps_schedule _ _ _ _ _ _ _ Hs) as (Et & Es & Ek).
    assert (Etr : train_sigmas s' = train_sigmas s).
    { destruct (step_writes _ _ _ _ _ _ _ Hs) as [->|[(d & dt0 & _ & ->)|[_ ->]]];
        reflexivity. }
    unfold well_ordered_training in Hwo. rewrite Ek, Etr in Hwo.
    destruct (IH Hwo) as (f & rest & E).
    exists f, rest. now rewrite Et, Es.
  - pose proof (scale_model_input_state x t s) as E. rewrite Hs in E. simpl in E.
    subst. now apply IH.
  - pose proof (add_noise_state o nz ts s) as E. rewrite Hs in E. simpl in E.
    subst. now apply IH.
Qed.

Lemma positions_of_a_timestep_hold_one_sigma (self : HeunDiscreteScheduler) (t : R)
      (i j : Z) :
  reachable self ->
  (get_use_karras_sigmas self = true -> well_ordered_training self) ->
  matches_at (timesteps self) t i -> matches_at (timesteps self) t j ->
  Py.getitem (sigmas self) i = Py.getitem (sigmas self) j.
Proof.
  intros Hr Hwo Hi Hj. destruct (reachable_one_sigma self Hr Hwo) as (f & rest & E).
  assert (H : forall k, matches_at (timesteps self) t k ->
                        Py.getitem (sigmas self) k = Ok (f t)).
  { intros k [Hk1 Hk2]. rewrite (getitem_nth (sigmas self) k 0).
    - rewrite E, app_nth1 by (rewrite length_map; lia).
      rewrite (nth_indep _ 0 (f 0)) by (rewrite length_map; lia).
      now rewrite map_nth, Hk2.
    - rewrite E, length_app, length_map. lia. }
  now rewrite (H i Hi), (H j Hj).
Qed.

(** The sigmas that [add_noise] reads are those at the last positions of the
    timesteps, in either phase. *)
Lemma add_noise_reads_last_match (self : HeunDiscreteScheduler) (ts sigma : list R) :
  reachable self ->
  (get_use_karras_sigmas self = true -> well_ordered_training self) ->
  Forall2 (resolved_sigma self) ts sigma ->
  Forall2 (fun t s => exists i, last_matching_index (timesteps self) t i
                                /\ Py.getitem (sigmas self) i = Ok s) ts sigma.
Proof.
  intros Hr Hwo HF. induction HF as [|t s ts sigma (i & Hp & Hg) _ IH]; constructor;
    [|exact IH].
  pose proof (picked_index_matches _ _ _ Hp) as Hm.
  destruct (nonzero_eq_last _ _ (matches_at_In _ _ _ Hm)) as (k & _ & Hk).
  exists k. split; [exact Hk|]. rewrite <- Hg.
  exact (positions_of_a_timestep_hold_one_sigma self t k i Hr Hwo (proj1 Hk) Hm).
Qed.

End OneSigma.

(** C4.  [add_noise] does not depend on the phase and changes nothing.  On a
    reachable scheduler, predictor-ready or with a corrector step pending,
    [add_noise] given timesteps that are among [self.timesteps] returns
    [original_samples + noise * sigma] and leaves the scheduler as it is.
    [sigma] holds, for each timestep given, the sigma at the last index at
    which [self.timesteps] holds that timestep, and has the shape
    [[len(timesteps), 1, ..., 1]] of the rank of the sample.  When a corrector
    step is pending [index_for_timestep] reads the first matching index; all
    the indices that match hold one sigma, so the sigma read is the one at the
    last.  With Karras sigmas this is for training sigmas that are at least
    two, positive and strictly increasing. *)
Theorem add_noise_is_phase_independent {TL : TensorLib} (self : HeunDiscreteScheduler)
        (original_samples noise : Tensor) (ts : list R) :
  reachable self ->
  (get_use_karras_sigmas self = true -> well_ordered_training self) ->
  (forall t, In t ts -> In t (timesteps self)) ->
  exists sigma,
    Forall2 (fun t s => exists i, last_matching_index (timesteps self) t i
                                  /\ Py.getitem (sigmas self) i = Ok s) ts sigma
    /\ add_noise original_samples noise ts self =
       (Ok (t_add original_samples
                  (t_mul noise
                         (t_make ([length ts]
                                  ++ repeat 1%nat (length (t_shape original_samples) - 1))
                                 sigma))),
        self).
Proof.
  intros Hr Hwo Hts.
  destruct (add_noise_returns self original_samples noise ts (reachable_consistent _ Hr) Hts)
    as (sigma & HF & Hadd).
  exists sigma. split; [|exact Hadd].
  exact (add_noise_reads_last_match self ts sigma Hr Hwo HF).
Qed.

Lemma add_noise_is_phase_independent_witness :
  exists (s1 : @HeunDiscreteScheduler scalar_tensors) (sigma : R),
    reachable s1
    /\ state_in_first_order s1 = false
    /\ timesteps s1 = [1; 0; 0]
    /\ index_for_timestep 0 (Some (timesteps s1)) s1 = (Ok 1%Z, s1)
    /\ Py.getitem (sigmas s1) 2 = Ok sigma
    /\ add_noise (2 : @Tensor scalar_tensors) (3 : @Tensor scalar_tensors) [0] s1
       = (Ok (2 + 3 * sigma), s1).
Proof.
  pose proof (reachable_consistent _ example_reachable) as Hc0.
  assert (Hin0 : In 1 (timesteps example_scheduler)).
  { rewrite example_timesteps. now left. }
  destruct (step_predictor example_scheduler (2 : @Tensor scalar_tensors) 1
                           (3 : @Tensor scalar_tensors) true Hc0 Hin0
                           (or_introl example_prediction_type) eq_refl)
    as (i & sg & sn & pred & _ & _ & _ & _ & out1 & s1 & Hstep1 & _ & _ & Hdt & _ & Hts1 & Hsg1).
  assert (Hr1 : reachable s1) by (eapply reach_step; [exact example_reachable|exact Hstep1]).
  assert (Hfo : state_in_first_order s1 = false).
  { unfold state_in_first_order. now rewrite Hdt. }
  assert (Hts : timesteps s1 = [1; 0; 0]) by (now rewrite Hts1, example_timesteps).
  assert (Hidx : index_for_timestep 0 (Some (timesteps s1)) s1 = (Ok 1%Z, s1)).
  { rewrite index_for_timestep_run, Hfo, Hts, example_matches_of_0. reflexivity. }
  assert (Hk : get_use_karras_sigmas s1 = false).
  { destruct (step_keeps_schedule _ _ _ _ _ _ _ Hstep1) as (_ & _ & ->). reflexivity. }
  assert (Hwo : get_use_karras_sigmas s1 = true -> well_ordered_training s1).
  { intros F. rewrite Hk in F. discriminate. }
  assert (Hin : forall t, In t [0] -> In t (timesteps s1)).
  { rewrite Hts. intros t [<-|[]]. right. now left. }
  destruct (add_noise_is_phase_independent s1 (2 : @Tensor scalar_tensors)
              (3 : @Tensor scalar_tensors) [0] Hr1 Hwo Hin) as (sigma & HF & Hadd).
  inversion HF as [|t0 s0 ts0 sigma0 (k & Hlast & Hget) Hnil E1 E2]; subst.
  inversion Hnil; subst.
  assert (Ek : k = 2%Z).
  { destruct Hlast as [[Hk0 _] Hmax]. rewrite Hts in Hk0, Hmax. simpl in Hk0.
    assert (H2 : matches_at [1; 0; 0] 0 2) by (split; [simpl; lia|reflexivity]).
    specialize (Hmax 2%Z H2). lia. }
  subst k.
  exists s1, s0. split; [exact Hr1|]. split; [exact Hfo|]. split; [exact Hts|].
  split; [exact Hidx|]. split; [exact Hget|exact Hadd].
Defined.
